(** * ExcelOnBrowser: column labels, schema validation, error lookup, tear geometry

    A shallow embedding of the computational core of the repository:

    - [Constants]: [ALPHABET] and [getColumnLabel] (constants.ts);
    - [ExcelService]: [validateData] (services/excelService.ts), over the
      data model of types.ts, and [Faults]: the same function evaluated
      with the TypeErrors of JavaScript;
    - [Grid]: the per-cell error lookup [getError], the columns and the
      cells of the table (components/Grid.tsx);
    - [TearEffect]: [tearPoints], [topClipPath] and [bottomClipPath]
      (components/TearEffect.tsx);
    - [SchemaConfig]: the edits of the rule editor, [handleAddRule],
      [handleRemoveRule] and [updateRule] (components/SchemaConfig.tsx);
    - [App]: the state of the page, its validation effect and its handlers
      (App.tsx).

    Reading and writing workbooks ([parseExcelFile], [handleExport]) is the
    work of the xlsx library and is not modelled: a parsed file enters as
    the rows it resolved to.

    Definitions come first, the theorems about them second. *)

From Stdlib Require Import ZArith NArith List String Ascii Bool Arith Lia Permutation.
From Stdlib Require Import Floats Uint63 DecimalString.
From Equations Require Import Equations.
Import ListNotations.

(* ===================================================================== *)
(** * Part I. The program                                                 *)
(* ===================================================================== *)

(** ** types.ts: the data model *)

Module Types.

(** [CellValue = string | number | boolean | null]. A string is a sequence of
    code units, here those of U+0000..U+00FF; a number is a binary64 float. *)
Inductive CellValue : Type :=
| CStr (s : string)
| CNum (n : float)
| CBool (b : bool)
| CNull.

Definition RowData : Type := list CellValue.

Inductive ColumnType : Type := STRING | NUMBER | BOOLEAN | DATE.

(** The indices are integers, as the data model has them; NaN, which the
    rule editor can store in [index] when its field is emptied, is not one. *)
Record ColumnSchema : Type := mkColumnSchema
  { index : Z; name : string; type : ColumnType; required : bool }.

Record ValidationError : Type := mkValidationError
  { rowIndex : Z; colIndex : Z; message : string }.

End Types.

(** ** The JavaScript built-ins the validator calls *)

Module JS.
Import Types.
Local Open Scope string_scope.
Local Open Scope Z_scope.

(** What the host decides: the decimal text of a number ([Number::toString]),
    [Date.parse], whose grammar beyond ISO 8601 is implementation-defined, and
    [Math.sin] and [Math.cos], which are implementation-approximated. *)
Class JsHost : Type := mkJsHost
  { Number_toString : float -> string;
    Date_parse : string -> float;
    Math_sin : float -> float;
    Math_cos : float -> float }.

(** A value read from an array: [None] is [undefined]. *)
Definition JsValue : Type := option CellValue.

(** [array[k]]: [undefined] when [k] is not an index of the array, negative
    [k] included. *)
Definition array_get {A : Type} (array : list A) (k : Z) : option A :=
  if k <? 0 then None else nth_error array (Z.to_nat k).

(** [array.push(x)], on the array as a value. *)
Definition push {A : Type} (array : list A) (x : A) : list A := array ++ [x].

(** [array.forEach((element, index) => ...)], the callback threading the
    state [S] it mutates; [from] is the index of the first element. *)
Fixpoint forEach_from {A S : Type} (callback : S -> A -> Z -> S)
  (from : Z) (array : list A) (s : S) : S :=
  match array with
  | [] => s
  | element :: rest => forEach_from callback (from + 1) rest (callback s element from)
  end.

Definition forEach {A S : Type} (callback : S -> A -> Z -> S)
  (array : list A) (s : S) : S :=
  forEach_from callback 0 array s.

(** [array.map((element, index) => ...)], from the index [from] on. *)
Fixpoint map_from {A B : Type} (f : A -> Z -> B) (from : Z) (array : list A) : list B :=
  match array with
  | [] => []
  | element :: rest => f element from :: map_from f (from + 1) rest
  end.

(** [String(v)] and the text of [v] in a template literal. *)
Definition ToString `{JsHost} (v : JsValue) : string :=
  match v with
  | None => "undefined"
  | Some CNull => "null"
  | Some (CStr s) => s
  | Some (CNum n) => Number_toString n
  | Some (CBool true) => "true"
  | Some (CBool false) => "false"
  end.

Definition code (c : ascii) : Z := Z.of_nat (nat_of_ascii c).

(** WhiteSpace and LineTerminator code units below U+0100: TAB, LF, VT, FF,
    CR, SP and NBSP. *)
Definition isWhiteSpace (c : ascii) : bool :=
  let k := code c in
  ((9 <=? k) && (k <=? 13)) || (k =? 32) || (k =? 160).

Fixpoint trimStart (s : string) : string :=
  match s with
  | EmptyString => EmptyString
  | String c rest => if isWhiteSpace c then trimStart rest else s
  end.

Fixpoint trimEnd (s : string) : string :=
  match s with
  | EmptyString => EmptyString
  | String c rest =>
      match trimEnd rest with
      | EmptyString => if isWhiteSpace c then EmptyString else String c EmptyString
      | rest' => String c rest'
      end
  end.

(** [s.trim()]. *)
Definition trim (s : string) : string := trimEnd (trimStart s).

(** [s.toLowerCase()] on code units below U+0100: 'A'..'Z' and the capital
    letters U+00C0..U+00DE (the sign U+00D7 apart) move up by 32. *)
Definition lowerChar (c : ascii) : ascii :=
  let k := code c in
  if ((65 <=? k) && (k <=? 90)) || ((192 <=? k) && (k <=? 222) && negb (k =? 215))
  then ascii_of_nat (Z.to_nat (k + 32))
  else c.

Fixpoint toLowerCase (s : string) : string :=
  match s with
  | EmptyString => EmptyString
  | String c rest => String (lowerChar c) (toLowerCase rest)
  end.

(** [array.includes(s)] on an array of strings. *)
Definition includes (array : list string) (s : string) : bool :=
  existsb (String.eqb s) array.

(** *** StringToNumber: which texts are numerals

    [Number(s)] is NaN exactly when [s], stripped of surrounding white space,
    is neither empty nor a StrNumericLiteral of ECMAScript:
    a StrDecimalLiteral (an optional sign, then [Infinity], digits with an
    optional fraction, or a fraction alone, each with an optional exponent) or
    an unsigned binary, octal or hexadecimal integer ([0b], [0o], [0x]). *)

Definition isDigit (c : ascii) : bool := (48 <=? code c) && (code c <=? 57).
Definition isBinaryDigit (c : ascii) : bool := (48 <=? code c) && (code c <=? 49).
Definition isOctalDigit (c : ascii) : bool := (48 <=? code c) && (code c <=? 55).
Definition isHexDigit (c : ascii) : bool :=
  isDigit c || ((65 <=? code c) && (code c <=? 70)) || ((97 <=? code c) && (code c <=? 102)).

(** The text left after the digits (of the given class) that start [s]. *)
Fixpoint skipWhile (digit : ascii -> bool) (s : string) : string :=
  match s with
  | EmptyString => EmptyString
  | String c rest => if digit c then skipWhile digit rest else s
  end.

(** One digit or more, then the end of the text. *)
Definition allDigits (digit : ascii -> bool) (s : string) : bool :=
  match s with
  | EmptyString => false
  | String c rest =>
      digit c && match skipWhile digit rest with EmptyString => true | _ => false end
  end.

(** SignedInteger, then the end of the text. *)
Definition isSignedInteger (s : string) : bool :=
  match s with
  | String "+" rest | String "-" rest => allDigits isDigit rest
  | _ => allDigits isDigit s
  end.

(** ExponentPart_opt, then the end of the text. *)
Definition isExponentOpt (s : string) : bool :=
  match s with
  | EmptyString => true
  | String "e" rest | String "E" rest => isSignedInteger rest
  | _ => false
  end.

(** The decimal forms of StrUnsignedDecimalLiteral, [Infinity] apart. *)
Definition isUnsignedDecimal (s : string) : bool :=
  match s with
  | String "." (String c _ as frac) =>
      isDigit c && isExponentOpt (skipWhile isDigit frac)
  | String c _ =>
      isDigit c &&
      match skipWhile isDigit s with
      | String "." frac => isExponentOpt (skipWhile isDigit frac)
      | rest => isExponentOpt rest
      end
  | EmptyString => false
  end.

Definition isStrUnsignedDecimalLiteral (s : string) : bool :=
  (s =? "Infinity")%string || isUnsignedDecimal s.

Definition isStrDecimalLiteral (s : string) : bool :=
  match s with
  | String "+" rest | String "-" rest => isStrUnsignedDecimalLiteral rest
  | _ => isStrUnsignedDecimalLiteral s
  end.

Definition isNonDecimalIntegerLiteral (s : string) : bool :=
  match s with
  | String "0" (String "b" rest) | String "0" (String "B" rest) => allDigits isBinaryDigit rest
  | String "0" (String "o" rest) | String "0" (String "O" rest) => allDigits isOctalDigit rest
  | String "0" (String "x" rest) | String "0" (String "X" rest) => allDigits isHexDigit rest
  | _ => false
  end.

Definition isStringNumericLiteral (s : string) : bool :=
  let t := trim s in
  (t =? "")%string || isStrDecimalLiteral t || isNonDecimalIntegerLiteral t.

(** [isNaN(Number(v))]: [undefined] converts to NaN, [null] to 0, a boolean
    to 0 or 1, a number to itself, a string through StringToNumber. *)
Definition isNaN_Number (v : JsValue) : bool :=
  match v with
  | None => true
  | Some CNull => false
  | Some (CBool _) => false
  | Some (CNum n) => PrimFloat.is_nan n
  | Some (CStr s) => negb (isStringNumericLiteral s)
  end.

(** [isNaN(x)] on a number. *)
Definition isNaN (x : float) : bool := PrimFloat.is_nan x.

(** [Math.max(a, b)] and [Math.min(a, b)] on binary64 numbers: NaN when an
    argument is NaN; [+0] counts as larger than [-0]. *)
Definition Math_max (a b : float) : float :=
  if PrimFloat.is_nan a || PrimFloat.is_nan b then PrimFloat.nan
  else if (a <? b)%float then b
  else if (b <? a)%float then a
  else if PrimFloat.is_zero a && PrimFloat.get_sign a then b else a.

Definition Math_min (a b : float) : float :=
  if PrimFloat.is_nan a || PrimFloat.is_nan b then PrimFloat.nan
  else if (a <? b)%float then a
  else if (b <? a)%float then b
  else if PrimFloat.is_zero a && negb (PrimFloat.get_sign a) then b else a.

(** [Math.PI]: the binary64 number nearest to pi. *)
Definition Math_PI : float := 0x1.921fb54442d18p+1%float.

(** The number an integer literal or an array index or length stands for,
    exact up to [2 ^ 53]. *)
Definition floatOfZ (z : Z) : float :=
  if z <? 0 then PrimFloat.opp (PrimFloat.of_uint63 (Uint63.of_Z (- z)))
  else PrimFloat.of_uint63 (Uint63.of_Z z).

(** *** Number.prototype.toFixed, with two fraction digits

    For a finite [x] with [|x| < 10 ^ 21] the text is that of the integer [n]
    for which [n / 100 - |x|] is as close to zero as possible, the larger such
    [n] when there are two, with a point before its last two digits and a
    minus sign when [x < 0]. [m * 2 ^ e] is the exact value of [|x|]. *)
Definition hundredths (m : positive) (e : Z) : Z :=
  if 0 <=? e then Z.pos m * 2 ^ e * 100
  else (200 * Z.pos m + 2 ^ (- e)) / 2 ^ (1 - e).

(** [10 ^ 21 <= m * 2 ^ e]: from there on [toFixed] prints what
    [Number::toString] prints. *)
Definition atLeast1e21 (m : positive) (e : Z) : bool :=
  if 0 <=? e then 10 ^ 21 <=? Z.pos m * 2 ^ e
  else 10 ^ 21 * 2 ^ (- e) <=? Z.pos m.

(** The digit ['0'..'9'] for [0 <= d <= 9]. *)
Definition digitChar (d : Z) : ascii := ascii_of_N (Z.to_N (48 + d)).

(** The digits of [0 <= n], at least three of them, with a point before
    the last two: [decimal2 1638] is ["16.38"], [decimal2 5] is ["0.05"]. *)
Definition decimal2 (n : Z) : string :=
  NilZero.string_of_int (Z.to_int (n / 100))
  ++ "." ++ String (digitChar (n / 10 mod 10)) (String (digitChar (n mod 10)) "").

(** [x.toFixed(2)]. NaN and the infinities are printed by
    [Number::toString]; [-0] is printed as ["0.00"]. *)
Definition toFixed2 `{JsHost} (x : float) : string :=
  match Prim2SF x with
  | S754_nan => Number_toString x
  | S754_infinity _ => Number_toString x
  | S754_zero _ => decimal2 0
  | S754_finite s m e =>
      (if s then "-" else "")
      ++ (if atLeast1e21 m e then Number_toString (PrimFloat.abs x)
          else decimal2 (hundredths m e))
  end.

(** The pieces of a text, put together in order. *)
Definition join (pieces : list string) : string := fold_right append "" pieces.

(** Round-to-nearest, ties to even, of [m / 2 ^ d]: the rounding of the
    binary64 operations, on a mantissa that has [d] digits too many. *)
Definition roundHalfEven (m d : Z) : Z :=
  let q := (m / 2 ^ d)%Z in
  match (2 * (m mod 2 ^ d) ?= 2 ^ d)%Z with
  | Lt => q
  | Eq => if Z.even q then q else (q + 1)%Z
  | Gt => (q + 1)%Z
  end.

(** [|x| < 2 ^ B], for a binary64 number [x] that is neither NaN nor
    infinite. *)
Definition below (B : Z) (x : spec_float) : Prop :=
  match x with
  | S754_zero _ => True
  | S754_finite _ m e => Z.pos m < 2 ^ (B - e)
  | _ => False
  end.

End JS.

(** ** constants.ts: the sample sheet and the column label codec *)

Module Constants.
Import Types.
Local Open Scope string_scope.
Local Open Scope Z_scope.

Definition INITIAL_SCHEMA : list ColumnSchema :=
  [ mkColumnSchema 0 "ID" NUMBER true;
    mkColumnSchema 1 "Name" STRING true;
    mkColumnSchema 2 "Age" NUMBER false;
    mkColumnSchema 3 "Is Active" BOOLEAN true;
    mkColumnSchema 4 "Join Date" DATE false ].

Definition INITIAL_DATA : list RowData :=
  [ [CNum 101; CStr "Alice Johnson"; CNum 28; CBool true; CStr "2023-01-15"];
    [CNum 102; CStr "Bob Smith"; CStr "InvalidAge"; CBool false; CStr "2023-02-20"];
    [CNum 103; CStr ""; CNum 35; CBool true; CStr "2023-03-10"];
    [CNum 104; CStr "Diana Prince"; CNum 30; CBool true; CStr "2023-04-05"] ].

Definition ALPHABET : string := "ABCDEFGHIJKLMNOPQRSTUVWXYZ".

(** [s[k]] on a string: the character at position [k], and [undefined]
    (here [None]) when [k] is not a position of [s]. *)
Definition charAt (s : string) (k : Z) : option ascii :=
  if k <? 0 then None else String.get (Z.to_nat k) s.

(** [ALPHABET[k] + label]: string concatenation, where an [undefined] left
    operand is converted to the text "undefined". *)
Definition prepend (c : option ascii) (label : string) : string :=
  match c with
  | Some a => String a label
  | None => "undefined" ++ label
  end.

(** The state of the loop of [getColumnLabel]: the variables [label] and [i]. *)
Definition loop_state : Type := string * Z.

(** The loop test [i >= 0]. *)
Definition loop_cond (st : loop_state) : bool := 0 <=? snd st.

(** One run of the loop body:
    [label = ALPHABET[i % 26] + label; i = Math.floor(i / 26) - 1].
    [%] is JavaScript's remainder, which truncates ([Z.rem]). The index is
    an integer and the division is exact, as the binary64 arithmetic of the
    source is on the integers below [2 ^ 53]. *)
Definition loop_body (st : loop_state) : loop_state :=
  let '(label, i) := st in
  (prepend (charAt ALPHABET (Z.rem i 26)) label, i / 26 - 1).

(** [while (i >= 0) { body }]: the state in which the loop is left. The measure
    [i + 1] decreases at every iteration. *)
Equations? while_loop (st : loop_state) : loop_state
  by wf (Z.to_nat (snd st + 1)) lt :=
  while_loop st with Z_lt_le_dec (snd st) 0 => {
    | left _ => st;
    | right _ => while_loop (loop_body st) }.
Proof.
  destruct st as [label i]; simpl in *.
  assert (i / 26 <= i) by (apply Z.div_le_upper_bound; lia).
  lia.
Qed.

Definition getColumnLabel (index : Z) : string :=
  fst (while_loop ("", index)).

(** Follows the spec's words (section 4.1), to be compared with
    [getColumnLabel]: the source has no decoder and the spec asks for one to
    be derivable, a label being a bijective base-26 numeral whose digits
    'A'..'Z' stand for 1..26. *)
Definition letterValue (c : ascii) : Z := Z.of_nat (nat_of_ascii c) - 64.

Fixpoint bijective26 (acc : Z) (label : string) : Z :=
  match label with
  | EmptyString => acc
  | String c rest => bijective26 (acc * 26 + letterValue c) rest
  end.

Definition decodeColumnLabel (label : string) : Z := bijective26 0 label - 1.

(** What the loop keeps unchanged: the number that the letters still to be
    produced ([i + 1]) and the letters already there stand for. *)
Definition stateValue (st : loop_state) : Z :=
  (snd st + 1) * 26 ^ Z.of_nat (String.length (fst st)) + bijective26 0 (fst st).

(** The characters of a label: each is one of 'A'..'Z'. *)
Definition isUpper (c : ascii) : bool :=
  (65 <=? Z.of_nat (nat_of_ascii c)) && (Z.of_nat (nat_of_ascii c) <=? 90).

Fixpoint allUpper (s : string) : bool :=
  match s with
  | EmptyString => true
  | String c rest => isUpper c && allUpper rest
  end.

(** Follows the spec's words (section 4.1), to be compared with
    [getColumnLabel]: the label that follows [label] in the sequence
    A, B, ..., Z, AA, AB, ... The last letter moves to the next
    one; a 'Z' turns into 'A' and the step carries to the left; a carry out of
    the first letter opens a new leading 'A'. [nextLabel_carry] returns the
    letters after the step and whether it carries out. *)
Definition nextLetter (c : ascii) : ascii := ascii_of_nat (S (nat_of_ascii c)).

Fixpoint nextLabel_carry (label : string) : string * bool :=
  match label with
  | EmptyString => (EmptyString, true)
  | String c rest =>
      let '(rest', carry) := nextLabel_carry rest in
      if carry then
        if (c =? "Z")%char then (String "A" rest', true)
        else (String (nextLetter c) rest', false)
      else (String c rest', false)
  end.

Definition nextLabel (label : string) : string :=
  let '(label', carry) := nextLabel_carry label in
  if carry then String "A" label' else label'.

(** The order of a spreadsheet's columns on their labels: the shorter label
    first, and among labels of one length the alphabetical order. *)
Definition shortlex (s t : string) : bool :=
  (String.length s <? String.length t)%nat
  || ((String.length s =? String.length t)%nat && String.ltb s t).

(** How many words of one to [n] letters there are over 'A'..'Z':
    [26 + 26 ^ 2 + ... + 26 ^ n]. *)
Fixpoint labelsUpTo (n : nat) : Z :=
  match n with
  | O => 0
  | S n' => 26 * (labelsUpTo n' + 1)
  end.

End Constants.

(** ** services/excelService.ts: the validator *)

Module ExcelService.
Import Types JS.
Local Open Scope string_scope.
Local Open Scope Z_scope.

Section Validator.
Context {host : JsHost}.

(** [cellValue === undefined || cellValue === null ? '' : String(cellValue).trim()] *)
Definition cellText (cellValue : JsValue) : string :=
  match cellValue with
  | None | Some CNull => ""
  | Some _ => trim (ToString cellValue)
  end.

Definition requiredMessage (rule : ColumnSchema) : string :=
  "Column '" ++ name rule ++ "' is required but was empty.".

Definition numberMessage (cellValue : JsValue) : string :=
  "Expected a Number, got '" ++ ToString cellValue ++ "'.".

Definition booleanMessage (cellValue : JsValue) : string :=
  "Expected Boolean (true/false), got '" ++ ToString cellValue ++ "'.".

Definition dateMessage (cellValue : JsValue) : string :=
  "Expected a valid Date, got '" ++ ToString cellValue ++ "'.".

(** The callback of [schema.forEach((rule) => ...)] for one row: the array
    [errors] before the call, and after it. *)
Definition rule_callback (row : RowData) (rowIndex : Z)
  (errors : list ValidationError) (rule : ColumnSchema) : list ValidationError :=
  let cellValue := array_get row (index rule) in
  let cellStr := cellText cellValue in
  if required rule && (cellStr =? "")%string then
    push errors (mkValidationError rowIndex (index rule) (requiredMessage rule))
  else if (cellStr =? "")%string then errors
  else
    match type rule with
    | NUMBER =>
        if isNaN_Number cellValue then
          push errors (mkValidationError rowIndex (index rule) (numberMessage cellValue))
        else errors
    | BOOLEAN =>
        let lower := toLowerCase cellStr in
        if negb (includes ["true"; "false"; "1"; "0"; "yes"; "no"] lower) then
          push errors (mkValidationError rowIndex (index rule) (booleanMessage cellValue))
        else errors
    | DATE =>
        let date := Date_parse cellStr in
        if isNaN date then
          push errors (mkValidationError rowIndex (index rule) (dateMessage cellValue))
        else errors
    | STRING => errors
    end.

(** The test [row.length === 0 && schema.length > 0]. *)
Definition skipped (schema : list ColumnSchema) (row : RowData) : bool :=
  (Z.of_nat (List.length row) =? 0) && (0 <? Z.of_nat (List.length schema)).

(** The callback of [rows.forEach((row, rowIndex) => ...)]. *)
Definition row_callback (schema : list ColumnSchema)
  (errors : list ValidationError) (row : RowData) (rowIndex : Z) : list ValidationError :=
  if skipped schema row then errors
  else fold_left (rule_callback row rowIndex) schema errors.

Definition validateData (rows : list RowData) (schema : list ColumnSchema)
  : list ValidationError :=
  forEach (row_callback schema) rows [].

(** The four errors that [rule_callback] builds. *)
Definition requiredError (i : Z) (rule : ColumnSchema) : ValidationError :=
  mkValidationError i (index rule) (requiredMessage rule).

Definition numberError (i : Z) (rule : ColumnSchema) (v : JsValue) : ValidationError :=
  mkValidationError i (index rule) (numberMessage v).

Definition booleanError (i : Z) (rule : ColumnSchema) (v : JsValue) : ValidationError :=
  mkValidationError i (index rule) (booleanMessage v).

Definition dateError (i : Z) (rule : ColumnSchema) (v : JsValue) : ValidationError :=
  mkValidationError i (index rule) (dateMessage v).

(** The errors one rule pushes for one row, and those one row pushes. *)
Definition ruleErrors (row : RowData) (rowIndex : Z) (rule : ColumnSchema)
  : list ValidationError :=
  rule_callback row rowIndex [] rule.

Definition rowErrors (schema : list ColumnSchema) (row : RowData) (rowIndex : Z)
  : list ValidationError :=
  row_callback schema [] row rowIndex.

(** The errors of the rows [rows], numbered from [from] on. *)
Definition validateFrom (from : Z) (rows : list RowData) (schema : list ColumnSchema)
  : list ValidationError :=
  forEach_from (row_callback schema) from rows [].

(** Follows the spec's words (section 4.2, item 6), to be compared with
    [validateData]: the checks in discovery order, "outer loop over rows in
    order, inner loop over schema rules in order", each a row with its
    position and a rule with its position in the schema; a row that is
    skipped has no check. *)
Fixpoint enumerateFrom {A : Type} (from : nat) (l : list A) : list (nat * A) :=
  match l with
  | [] => []
  | a :: l' => (from, a) :: enumerateFrom (S from) l'
  end.

Definition check : Type := ((nat * RowData) * (nat * ColumnSchema))%type.

Definition rowChecks (schema : list ColumnSchema) (kr : nat * RowData) : list check :=
  if skipped schema (snd kr) then [] else map (pair kr) (enumerateFrom 0 schema).

Definition checks (rows : list RowData) (schema : list ColumnSchema) : list check :=
  flat_map (rowChecks schema) (enumerateFrom 0 rows).

(** What one check yields: the errors of its rule on its row. *)
Definition checkErrors (c : check) : list ValidationError :=
  ruleErrors (snd (fst c)) (Z.of_nat (fst (fst c))) (snd (snd c)).

End Validator.

(** Follows the spec's words (section 4.2, item 5), to be compared with the
    test [isNaN(Number(cellValue))] of the source: "text must parse as a
    numeric literal (standard decimal/integer/scientific forms)", that is an
    optional sign, digits with an optional fraction (or a fraction alone),
    and an optional exponent. *)
Definition isDecimalNumeral (text : string) : bool :=
  match text with
  | String "+" rest | String "-" rest => isUnsignedDecimal rest
  | _ => isUnsignedDecimal text
  end.

(** The error [e], reported [k] rows further down. *)
Definition shiftRow (k : Z) (e : ValidationError) : ValidationError :=
  mkValidationError (rowIndex e + k) (colIndex e) (message e).

(** The cell an error points at. *)
Definition coordinates (e : ValidationError) : Z * Z := (rowIndex e, colIndex e).

(** A text of white space only, the empty text included. *)
Fixpoint allWhiteSpace (s : string) : bool :=
  match s with
  | EmptyString => true
  | String c rest => isWhiteSpace c && allWhiteSpace rest
  end.

End ExcelService.

(** ** services/excelService.ts again, with the faults of JavaScript

    The validator once more, every call and property read evaluated to a
    completion: a value, or the TypeError that ECMAScript throws. The places
    where the source could throw are the method calls [.trim()] and
    [.toLowerCase()], whose receiver must be a string, and the callbacks of
    [forEach], whose faults [forEach] passes on. A read [row[k]], [String(v)],
    [Number(v)], [isNaN], [includes], [Date.parse] and a template literal
    throw on no cell value, and not on [undefined]. *)

Module Faults.
Import Types JS.
Local Open Scope string_scope.
Local Open Scope Z_scope.

Inductive Completion (A : Type) : Type :=
| Normal (value : A)
| Throw (error : string).

Arguments Normal {A} value.
Arguments Throw {A} error.

Definition bind {A B : Type} (c : Completion A) (k : A -> Completion B) : Completion B :=
  match c with
  | Normal value => k value
  | Throw error => Throw error
  end.

Notation "'let*' x ':=' c 'in' k" := (bind c (fun x => k))
  (at level 10, x name, c at level 100, k at level 200).

(** [receiver.trim()]: reading a property of [undefined] or [null] throws,
    and so does calling [trim] on a number or a boolean, which have none. *)
Definition call_trim (receiver : JsValue) : Completion string :=
  match receiver with
  | Some (CStr s) => Normal (trim s)
  | None => Throw "TypeError: Cannot read properties of undefined (reading 'trim')"
  | Some CNull => Throw "TypeError: Cannot read properties of null (reading 'trim')"
  | Some _ => Throw "TypeError: trim is not a function"
  end.

(** [receiver.toLowerCase()], likewise. *)
Definition call_toLowerCase (receiver : JsValue) : Completion string :=
  match receiver with
  | Some (CStr s) => Normal (toLowerCase s)
  | None => Throw "TypeError: Cannot read properties of undefined (reading 'toLowerCase')"
  | Some CNull => Throw "TypeError: Cannot read properties of null (reading 'toLowerCase')"
  | Some _ => Throw "TypeError: toLowerCase is not a function"
  end.

(** [array.forEach((element, index) => ...)]: what the callback throws ends
    the loop and is thrown by [forEach]. *)
Fixpoint forEach_from {A S : Type} (callback : S -> A -> Z -> Completion S)
  (from : Z) (array : list A) (s : S) : Completion S :=
  match array with
  | [] => Normal s
  | element :: rest =>
      let* s' := callback s element from in
      forEach_from callback (from + 1) rest s'
  end.

Definition forEach {A S : Type} (callback : S -> A -> Z -> Completion S)
  (array : list A) (s : S) : Completion S :=
  forEach_from callback 0 array s.

Section Validator.
Context {host : JsHost}.

(** [cellValue === undefined || cellValue === null ? '' : String(cellValue).trim()]:
    [trim] is called on the string that [String] returns. *)
Definition cellText (cellValue : JsValue) : Completion string :=
  match cellValue with
  | None | Some CNull => Normal ""
  | Some _ => call_trim (Some (CStr (ToString cellValue)))
  end.

Definition rule_callback (row : RowData) (rowIndex : Z)
  (errors : list ValidationError) (rule : ColumnSchema)
  : Completion (list ValidationError) :=
  let cellValue := array_get row (index rule) in
  let* cellStr := cellText cellValue in
  if required rule && (cellStr =? "")%string then
    Normal (push errors (mkValidationError rowIndex (index rule)
                           (ExcelService.requiredMessage rule)))
  else if (cellStr =? "")%string then Normal errors
  else
    match type rule with
    | NUMBER =>
        if isNaN_Number cellValue then
          Normal (push errors (mkValidationError rowIndex (index rule)
                                 (ExcelService.numberMessage cellValue)))
        else Normal errors
    | BOOLEAN =>
        let* lower := call_toLowerCase (Some (CStr cellStr)) in
        if negb (includes ["true"; "false"; "1"; "0"; "yes"; "no"] lower) then
          Normal (push errors (mkValidationError rowIndex (index rule)
                                 (ExcelService.booleanMessage cellValue)))
        else Normal errors
    | DATE =>
        let date := Date_parse cellStr in
        if isNaN date then
          Normal (push errors (mkValidationError rowIndex (index rule)
                                 (ExcelService.dateMessage cellValue)))
        else Normal errors
    | STRING => Normal errors
    end.

Definition row_callback (schema : list ColumnSchema)
  (errors : list ValidationError) (row : RowData) (rowIndex : Z)
  : Completion (list ValidationError) :=
  if ExcelService.skipped schema row then Normal errors
  else forEach (fun errors rule _ => rule_callback row rowIndex errors rule) schema errors.

Definition validateData (rows : list RowData) (schema : list ColumnSchema)
  : Completion (list ValidationError) :=
  forEach (row_callback schema) rows [].

End Validator.

End Faults.

(** ** components/Grid.tsx: the per-cell error lookup *)

Module Grid.
Import Types.
Local Open Scope Z_scope.

(** [errors.find((e) => e.rowIndex === r && e.colIndex === c)] *)
Definition getError (errors : list ValidationError) (r c : Z) : option ValidationError :=
  find (fun e => (rowIndex e =? r) && (colIndex e =? c)) errors.

(** [const isErrorCell = !!error] *)
Definition isErrorCell (errors : list ValidationError) (r c : Z) : bool :=
  match getError errors r c with
  | Some _ => true
  | None => false
  end.

(** *** The columns and the cells of the table *)

Section Table.
Import JS Constants.
Context {host : JsHost}.
Local Open Scope string_scope.
Local Open Scope Z_scope.

(** [Math.max(10, ...data.map(r => r.length))] *)
Definition maxCols (data : list RowData) : Z :=
  fold_left Z.max (map (fun r => Z.of_nat (List.length r)) data) 10.

(** [Array.from({ length: maxCols }, (_, i) => i)] *)
Definition colIndices (data : list RowData) : list Z :=
  map Z.of_nat (seq 0 (Z.to_nat (maxCols data))).

(** The texts of the header cells: [getColumnLabel(colIdx)] for each column. *)
Definition headerLabels (data : list RowData) : list string :=
  map getColumnLabel (colIndices data).

(** [activeError?.rowIndex === rowIndex] *)
Definition isRowExpanded (activeError : option ValidationError) (rowIndex : Z) : bool :=
  match activeError with
  | Some a => Types.rowIndex a =? rowIndex
  | None => false
  end.

(** [activeError?.rowIndex === rowIndex && activeError?.colIndex === colIdx] *)
Definition isSelected (activeError : option ValidationError) (rowIndex colIdx : Z) : bool :=
  match activeError with
  | Some a => (Types.rowIndex a =? rowIndex) && (Types.colIndex a =? colIdx)
  | None => false
  end.

(** [cellValue === null || cellValue === undefined || cellValue === ''] *)
Definition isBlank (cellValue : JsValue) : bool :=
  match cellValue with
  | None | Some CNull => true
  | Some (CStr s) => (s =? "")%string
  | Some _ => false
  end.

(** The text shown in the cell. *)
Definition cellContent (cellValue : JsValue) : string :=
  if isBlank cellValue then "(empty)" else ToString cellValue.

(** What a click on the cell [(rowIndex, colIdx)] does to the state [S] of
    the caller: the cell's handler calls [onCellClick] and stops the event
    when the cell has an error; otherwise the event reaches the container,
    whose handler is [onCloseError]. *)
Definition cell_onClick {S : Type} (errors : list ValidationError)
  (onCellClick : Z -> Z -> S -> S) (onCloseError : S -> S)
  (rowIndex colIdx : Z) : S -> S :=
  if isErrorCell errors rowIndex colIdx then onCellClick rowIndex colIdx
  else onCloseError.

End Table.

End Grid.

(** ** components/TearEffect.tsx: the tear geometry

    Numbers are binary64 numbers, with the rounding of [+], [-], [*] and [/]
    as IEEE 754 has it; [Math.sin] and [Math.cos] are the host's, and the
    outcomes of [Math.random()] are a parameter. The clip paths are the
    texts the component hands to CSS. *)

Module TearEffect.
Import JS.
Local Open Scope string_scope.
Local Open Scope float_scope.

Definition pointsCount : nat := 80.

Section Reveal.
Context `{host : JsHost}.

(** [Math.sin(x * Math.PI * 4) * 8 + Math.cos(x * Math.PI * 12) * 4 + Math.random() * 6],
    [rnd] being what [Math.random()] returned. *)
Definition noise (x rnd : float) : float :=
  Math_sin (x * Math_PI * 4) * 8 + Math_cos (x * Math_PI * 12) * 4 + rnd * 6.

(** The value pushed at iteration [i]: [Math.max(2, Math.min(25, 12 + noise))]. *)
Definition tearPoint (i : nat) (rnd : float) : float :=
  let x := floatOfZ (Z.of_nat i) / floatOfZ (Z.of_nat pointsCount) in
  Math_max 2 (Math_min 25 (12 + noise x rnd)).

(** [for (let i = ...; i <= pointsCount; i++) points.push(...)] with
    [remaining] iterations to go; [random k] is the outcome of the [k]-th call
    of [Math.random()], one call per iteration. *)
Fixpoint for_loop (random : nat -> float) (remaining i : nat) (points : list float)
  : list float :=
  match remaining with
  | O => points
  | S remaining' =>
      for_loop random remaining' (S i) (push points (tearPoint i (random i)))
  end.

Definition tearPoints (random : nat -> float) : list float :=
  for_loop random (pointsCount + 1) 0 [].

(** [const x = (i / (tearPoints.length - 1)) * 100], as both clip paths
    compute it. *)
Definition xOf (tearPoints : list float) (i : Z) : float :=
  floatOfZ i / (floatOfZ (Z.of_nat (List.length tearPoints)) - 1) * 100.

(** [path] starts as ['0% 0%, 100% 0%'], gets
    [`, ${x.toFixed(2)}% ${(100 - offset).toFixed(2)}%`] for each offset, then
    [', 0% 100%'], and is wrapped in [polygon(...)]. *)
Definition topClipPath (tearPoints : list float) : string :=
  let path := "0% 0%, 100% 0%" in
  let path :=
    forEach (fun path offset i =>
               let x := xOf tearPoints i in
               path ++ (", " ++ toFixed2 x ++ "% " ++ toFixed2 (100 - offset) ++ "%"))
            tearPoints path in
  let path := path ++ ", 0% 100%" in
  "polygon(" ++ path ++ ")".

(** [topEdge] starts empty and gets [`${x.toFixed(2)}% ${offset.toFixed(2)}%`]
    for each offset, after [', '] except at index 0; the result is
    [`polygon(${topEdge}, 100% 100%, 0% 100%)`]. (The variable [path] of the
    source is never read.) *)
Definition bottomClipPath (tearPoints : list float) : string :=
  let topEdge :=
    forEach (fun topEdge offset i =>
               let x := xOf tearPoints i in
               if (i =? 0)%Z
               then topEdge ++ (toFixed2 x ++ "% " ++ toFixed2 offset ++ "%")
               else topEdge ++ (", " ++ toFixed2 x ++ "% " ++ toFixed2 offset ++ "%"))
            tearPoints "" in
  "polygon(" ++ topEdge ++ ", 100% 100%, 0% 100%)".

End Reveal.

(** What the theorems ask of the host: for a finite argument its sine and
    cosine lie between -1 and 1, and every outcome of [Math.random()] is at
    least 0 and less than 1, as ECMAScript requires. *)
Definition unitBounded (f : float -> float) : Prop :=
  forall x, PrimFloat.is_finite x = true ->
            (-1 <=? f x) = true /\ (f x <=? 1) = true.

Definition unitInterval (random : nat -> float) : Prop :=
  forall k, (0 <=? random k) = true /\ (random k <? 1) = true.

End TearEffect.

(** ** components/SchemaConfig.tsx: editing the rules *)

Module SchemaConfig.
Import Types JS Constants.
Local Open Scope string_scope.
Local Open Scope Z_scope.

(** [setSchema([...schema, { index: schema.length,
    name: `Column ${getColumnLabel(schema.length)}`, type: ColumnType.STRING,
    required: false }])]: the schema handed to [setSchema]. *)
Definition handleAddRule (schema : list ColumnSchema) : list ColumnSchema :=
  let length := Z.of_nat (List.length schema) in
  schema ++ [mkColumnSchema length ("Column " ++ getColumnLabel length) STRING false].

(** [array.filter((_, idx) => keep idx)], from the position [from] on. *)
Fixpoint filter_from {A : Type} (keep : Z -> bool) (from : Z) (array : list A) : list A :=
  match array with
  | [] => []
  | element :: rest =>
      if keep from then element :: filter_from keep (from + 1) rest
      else filter_from keep (from + 1) rest
  end.

(** [setSchema(schema.filter((_, idx) => idx !== indexToRemove))] *)
Definition handleRemoveRule (schema : list ColumnSchema) (indexToRemove : Z)
  : list ColumnSchema :=
  filter_from (fun idx => negb (idx =? indexToRemove)) 0 schema.

(** [Partial<ColumnSchema>]: the fields an update carries. An index is an
    integer here; the editor's index field can also hand over NaN
    ([parseInt] of an empty field), which the data model leaves out. *)
Record Updates : Type := mkUpdates
  { newIndex : option Z;
    newName : option string;
    newType : option ColumnType;
    newRequired : option bool }.

(** [{ ...rule, ...updates }] *)
Definition spread (rule : ColumnSchema) (updates : Updates) : ColumnSchema :=
  mkColumnSchema
    (match newIndex updates with Some i => i | None => index rule end)
    (match newName updates with Some n => n | None => name rule end)
    (match newType updates with Some t => t | None => type rule end)
    (match newRequired updates with Some r => r | None => required rule end).

(** [newSchema[index] = { ...newSchema[index], ...updates }] on a copy of
    the schema, for a position [index] of the schema. *)
Fixpoint assign_from (from index : Z) (updates : Updates) (schema : list ColumnSchema)
  : list ColumnSchema :=
  match schema with
  | [] => []
  | rule :: rest =>
      (if from =? index then spread rule updates else rule)
      :: assign_from (from + 1) index updates rest
  end.

(** [updateRule(index, updates)]: the schema handed to [setSchema]. The
    component calls it with the position of a rule it displays. For a
    position at or past the end the source would store an object that has
    the fields of [updates] only, which is no rule: [None] stands for that.
    A negative [index] sets no element. *)
Definition updateRule (schema : list ColumnSchema) (index : Z) (updates : Updates)
  : option (list ColumnSchema) :=
  if Z.of_nat (List.length schema) <=? index then None
  else Some (assign_from 0 index updates schema).

End SchemaConfig.

(** ** App.tsx: the state of the page and its handlers *)

Module App.
Import Types JS Constants ExcelService.
Local Open Scope Z_scope.

(** The values of [useState]. *)
Record State : Type := mkState
  { data : list RowData;
    schema : list ColumnSchema;
    errors : list ValidationError;
    activeError : option ValidationError;
    isSchemaModalOpen : bool }.

Definition setData (d : list RowData) (st : State) : State :=
  mkState d (schema st) (errors st) (activeError st) (isSchemaModalOpen st).

Definition setSchema (s : list ColumnSchema) (st : State) : State :=
  mkState (data st) s (errors st) (activeError st) (isSchemaModalOpen st).

Definition setErrors (e : list ValidationError) (st : State) : State :=
  mkState (data st) (schema st) e (activeError st) (isSchemaModalOpen st).

Definition setActiveError (a : option ValidationError) (st : State) : State :=
  mkState (data st) (schema st) (errors st) a (isSchemaModalOpen st).

Section Handlers.
Context {host : JsHost}.

(** The effect that runs when [data] or [schema] has changed:
    [setErrors(validateData(data, schema))], and [setActiveError(null)] when
    no new error is at the cell of the active one. *)
Definition validateEffect (st : State) : State :=
  let newErrors := validateData (data st) (schema st) in
  let st' := setErrors newErrors st in
  match activeError st with
  | Some a =>
      let stillExists :=
        find (fun e => (rowIndex e =? rowIndex a) && (colIndex e =? colIndex a))
             newErrors in
      match stillExists with
      | Some _ => st'
      | None => setActiveError None st'
      end
  | None => st'
  end.

(** The state after the first render and its effect. *)
Definition initialState : State :=
  validateEffect (mkState INITIAL_DATA INITIAL_SCHEMA [] None false).

(** The [onCellClick] handed to the grid: close the active error when its
    cell is clicked, otherwise open the first error found at the cell. *)
Definition onCellClick (r c : Z) (st : State) : State :=
  let sameCell :=
    match activeError st with
    | Some a => (rowIndex a =? r) && (colIndex a =? c)
    | None => false
    end in
  if sameCell then setActiveError None st
  else
    match find (fun e => (rowIndex e =? r) && (colIndex e =? c)) (errors st) with
    | Some error => setActiveError (Some error) st
    | None => st
    end.

(** The [onCloseError] handed to the grid. *)
Definition onCloseError (st : State) : State := setActiveError None st.

(** [handleFileUpload], [parsed] being what [parseExcelFile] resolved to:
    [None] when no file was chosen or the file was rejected. The new data
    sets off the effect. *)
Definition handleFileUpload (parsed : option (list RowData)) (st : State) : State :=
  match parsed with
  | Some parsedData => validateEffect (setActiveError None (setData parsedData st))
  | None => st
  end.

(** The [setSchema] handed to the rule editor, followed by the effect. *)
Definition changeSchema (newSchema : list ColumnSchema) (st : State) : State :=
  validateEffect (setSchema newSchema st).

(** The summary in the header: ["<n> Issues Found"] when [errors.length > 0],
    ["All Data Valid"] otherwise; [None] stands for the latter. *)
Definition issuesFound (st : State) : option nat :=
  if 0 <? Z.of_nat (List.length (errors st)) then Some (List.length (errors st))
  else None.

End Handlers.

(** What the handlers keep true: the errors are those of the data and the
    schema of the state, and the active error, when there is one, is at a
    cell that has an error. *)
Definition consistent {host : JsHost} (st : State) : Prop :=
  errors st = validateData (data st) (schema st)
  /\ forall a, activeError st = Some a ->
               Grid.isErrorCell (errors st) (rowIndex a) (colIndex a) = true.

End App.

(** ** A host for the worked examples

    The theorems below hold for every [JsHost]. The examples run on this
    one: it prints integer-valued numbers (the only numbers in the sample
    sheet; a fraction is cut to its integer part, which is not what
    [Number::toString] prints), and its [Date.parse] accepts the calendar
    dates [YYYY-MM-DD] and nothing else. Its [Math.sin] and [Math.cos] are
    those of every host at the argument 0, where ECMAScript fixes them
    ([Math.sin(+0)] is [+0], [Math.cos(+0)] is 1); the worked reveals look
    at the index 0 only, where the argument is 0. At other arguments they
    answer the same, which is not the sine or the cosine. *)

Module Sample.
Import Types JS.
Local Open Scope string_scope.
Local Open Scope Z_scope.

Definition integerText (n : float) : string :=
  match Prim2SF n with
  | S754_nan => "NaN"
  | S754_infinity s => if s then "-Infinity" else "Infinity"
  | S754_zero _ => "0"
  | S754_finite s m e =>
      let z := if 0 <=? e then Z.pos m * 2 ^ e else Z.pos m / 2 ^ (- e) in
      NilZero.string_of_int (Z.to_int (if s then - z else z))
  end.

Definition digitValue (c : ascii) : Z := code c - 48.

(** The fields of a text of the shape [YYYY-MM-DD]. *)
Definition isoDate (s : string) : option (Z * Z * Z) :=
  match s with
  | String y1 (String y2 (String y3 (String y4 (String "-"
      (String m1 (String m2 (String "-" (String d1 (String d2 EmptyString))))))))) =>
      if forallb isDigit [y1; y2; y3; y4; m1; m2; d1; d2] then
        Some (((digitValue y1 * 10 + digitValue y2) * 10 + digitValue y3) * 10 + digitValue y4,
              digitValue m1 * 10 + digitValue m2,
              digitValue d1 * 10 + digitValue d2)
      else None
  | _ => None
  end.

Definition isLeapYear (y : Z) : bool :=
  ((y mod 4 =? 0) && negb (y mod 100 =? 0)) || (y mod 400 =? 0).

Definition daysInMonth (y m : Z) : Z :=
  if m =? 2 then (if isLeapYear y then 29 else 28)
  else if (m =? 4) || (m =? 6) || (m =? 9) || (m =? 11) then 30
  else 31.

(** Days from 1970-01-01 to the given day of the Gregorian calendar. *)
Definition daysFromCivil (y m d : Z) : Z :=
  let y' := if m <=? 2 then y - 1 else y in
  let era := y' / 400 in
  let yoe := y' - era * 400 in
  let doy := (153 * (if 2 <? m then m - 3 else m + 9) + 2) / 5 + d - 1 in
  let doe := yoe * 365 + yoe / 4 - yoe / 100 + doy in
  era * 146097 + doe - 719468.

Definition isoDateParse (s : string) : float :=
  match isoDate s with
  | Some (y, m, d) =>
      if (1 <=? m) && (m <=? 12) && (1 <=? d) && (d <=? daysInMonth y m)
      then floatOfZ (daysFromCivil y m d * 86400000)
      else PrimFloat.nan
  | None => PrimFloat.nan
  end.

#[export] Instance sampleHost : JsHost :=
  {| Number_toString := integerText; Date_parse := isoDateParse;
     Math_sin := fun _ => 0%float; Math_cos := fun _ => 1%float |}.

End Sample.

(* ===================================================================== *)
(** * Part II. What the program guarantees                                *)
(* ===================================================================== *)

(** ** The column label codec *)

Section ColumnLabels.
Import Constants.
Local Open Scope string_scope.
Local Open Scope Z_scope.

(** The loop of [getColumnLabel], one unfolding. *)
Lemma while_loop_unfold (st : loop_state) :
  while_loop st = if loop_cond st then while_loop (loop_body st) else st.
Proof.
  funelim (while_loop st); unfold loop_cond.
  - destruct (Z.leb_spec 0 (snd st)); [lia | reflexivity].
  - destruct (Z.leb_spec 0 (snd st)); [congruence | lia].
Qed.

(** Every position of [ALPHABET] holds the capital letter of that rank. *)
Lemma ALPHABET_at (k : Z) :
  0 <= k < 26 ->
  exists c, charAt ALPHABET k = Some c /\ letterValue c = k + 1 /\ isUpper c = true.
Proof.
  intros Hk. unfold charAt.
  destruct (Z.ltb_spec k 0); [lia |].
  assert (exists n, k = Z.of_nat n /\ (n < 26)%nat) as (n & -> & Hn)
    by (exists (Z.to_nat k); lia).
  rewrite Nat2Z.id.
  do 26 (destruct n as [| n]; [eexists; repeat split; reflexivity |]).
  lia.
Qed.

(** The step of the loop variable: it stays at [-1] or above and strictly
    decreases. *)
Lemma loop_step_decreases (i : Z) : 0 <= i -> -1 <= i / 26 - 1 < i.
Proof.
  intros Hi.
  assert (0 <= i / 26) by (apply Z.div_pos; lia).
  assert (i / 26 <= i) by (apply Z.div_le_upper_bound; lia).
  lia.
Qed.

Lemma bijective26_acc (label : string) (acc : Z) :
  bijective26 acc label = acc * 26 ^ Z.of_nat (String.length label) + bijective26 0 label.
Proof.
  revert acc. induction label as [| c rest IH]; intros acc;
    cbn [bijective26 String.length].
  - rewrite Z.pow_0_r. lia.
  - rewrite IH, (IH (0 * 26 + letterValue c)).
    rewrite Nat2Z.inj_succ, Z.pow_succ_r by lia. ring.
Qed.

Lemma loop_body_spec (label : string) (i : Z) :
  0 <= i ->
  exists c, loop_body (label, i) = (String c label, i / 26 - 1)
            /\ letterValue c = i mod 26 + 1 /\ isUpper c = true.
Proof.
  intros Hi. unfold loop_body.
  rewrite Z.rem_mod_nonneg by lia.
  destruct (ALPHABET_at (i mod 26)) as (c & Hc & Hv & Hu).
  { apply Z.mod_pos_bound. lia. }
  exists c. rewrite Hc. simpl. auto.
Qed.

Lemma loop_body_value (st : loop_state) :
  0 <= snd st -> stateValue (loop_body st) = stateValue st.
Proof.
  destruct st as [label i]. cbn [snd]. intros Hi.
  destruct (loop_body_spec label i Hi) as (c & -> & Hv & _).
  unfold stateValue. cbn [fst snd String.length bijective26].
  rewrite (bijective26_acc label (0 * 26 + letterValue c)).
  rewrite Nat2Z.inj_succ, Z.pow_succ_r by lia.
  rewrite Hv. pose proof (Z.div_mod i 26). nia.
Qed.

(** Induction along the iterations of the loop. *)
Lemma while_loop_induction (P : loop_state -> Prop) :
  (forall st, loop_cond st = false -> P st) ->
  (forall st, loop_cond st = true -> P (loop_body st) -> P st) ->
  forall st, P st.
Proof.
  intros Hexit Hstep st.
  remember (Z.to_nat (snd st + 1)) as n eqn:Hn.
  revert st Hn. induction n as [n IH] using lt_wf_ind. intros st Hn.
  destruct (loop_cond st) eqn:Hc.
  - apply Hstep; [exact Hc |].
    apply (IH (Z.to_nat (snd (loop_body st) + 1))); [| reflexivity].
    unfold loop_cond in Hc. apply Z.leb_le in Hc.
    destruct st as [label i]. cbn [snd] in *.
    destruct (loop_body_spec label i Hc) as (c & -> & _).
    cbn [snd]. pose proof (loop_step_decreases i Hc). lia.
  - apply Hexit. exact Hc.
Qed.

Lemma while_loop_exit (st : loop_state) :
  -1 <= snd st ->
  snd (while_loop st) = -1 /\ stateValue (while_loop st) = stateValue st.
Proof.
  induction st as [st Hc | st Hc IH] using while_loop_induction;
    intros Hst; rewrite while_loop_unfold, Hc.
  - unfold loop_cond in Hc. apply Z.leb_gt in Hc. split; [lia | reflexivity].
  - unfold loop_cond in Hc. apply Z.leb_le in Hc.
    rewrite <- (loop_body_value st Hc). apply IH.
    destruct st as [label i]. cbn [snd] in *.
    destruct (loop_body_spec label i Hc) as (c & -> & _).
    cbn [snd]. pose proof (loop_step_decreases i Hc). lia.
Qed.

Lemma decode_getColumnLabel (i : Z) :
  0 <= i -> decodeColumnLabel (getColumnLabel i) = i.
Proof.
  intros Hi. unfold decodeColumnLabel, getColumnLabel.
  destruct (while_loop_exit ("", i)) as [Hx Hv]; [simpl; lia |].
  unfold stateValue in Hv. rewrite Hx in Hv. simpl in Hv. lia.
Qed.

(** *** Labels are words over 'A'..'Z' *)

Lemma isUpper_letterValue (c : ascii) :
  isUpper c = true -> 1 <= letterValue c <= 26.
Proof.
  unfold isUpper, letterValue. intros H.
  apply andb_true_iff in H. destruct H as [H1 H2].
  apply Z.leb_le in H1. apply Z.leb_le in H2. lia.
Qed.

Lemma letterValue_inj (c d : ascii) : letterValue c = letterValue d -> c = d.
Proof.
  unfold letterValue. intros H.
  rewrite <- (ascii_nat_embedding c), <- (ascii_nat_embedding d).
  f_equal. lia.
Qed.

Lemma ALPHABET_letter (c : ascii) :
  isUpper c = true -> charAt ALPHABET (letterValue c - 1) = Some c.
Proof.
  intros Hu. pose proof (isUpper_letterValue c Hu) as Hv.
  destruct (ALPHABET_at (letterValue c - 1)) as (d & Hd & Hdv & _); [lia |].
  rewrite Hd. f_equal. apply letterValue_inj. lia.
Qed.

Lemma bijective26_nonneg (label : string) :
  allUpper label = true -> 0 <= bijective26 0 label.
Proof.
  induction label as [| c rest IH]; cbn [allUpper bijective26]; intros H.
  - lia.
  - apply andb_true_iff in H. destruct H as [Hc Hr].
    rewrite bijective26_acc.
    pose proof (isUpper_letterValue c Hc).
    pose proof (IH Hr).
    assert (0 < 26 ^ Z.of_nat (String.length rest)) by (apply Z.pow_pos_nonneg; lia).
    nia.
Qed.

Lemma allUpper_app (s t : string) :
  allUpper (s ++ t) = allUpper s && allUpper t.
Proof.
  induction s as [| c s IH]; cbn [append allUpper].
  - reflexivity.
  - rewrite IH, andb_assoc. reflexivity.
Qed.

Lemma bijective26_app (s t : string) (acc : Z) :
  bijective26 acc (s ++ t) = bijective26 (bijective26 acc s) t.
Proof.
  revert acc. induction s as [| c s IH]; intros acc; cbn [append bijective26].
  - reflexivity.
  - apply IH.
Qed.

Lemma append_assoc (s t u : string) : (s ++ t) ++ u = s ++ (t ++ u).
Proof.
  induction s as [| c s IH]; cbn [append]; [reflexivity | now rewrite IH].
Qed.

Lemma length_append (s t : string) :
  String.length (s ++ t) = (String.length s + String.length t)%nat.
Proof.
  induction s as [| c s IH]; cbn [append String.length]; [reflexivity | now rewrite IH].
Qed.

(** A string that is not empty ends in a last character. *)
Lemma string_last (c : ascii) (s : string) :
  exists s' d, String c s = s' ++ String d "" /\ String.length s' = String.length s.
Proof.
  revert c. induction s as [| e s IH]; intros c.
  - exists "", c. split; reflexivity.
  - destruct (IH e) as (s' & d & Heq & Hlen).
    exists (String c s'), d. cbn [append String.length]. rewrite <- Heq, Hlen.
    split; reflexivity.
Qed.

Lemma string_snoc_ind (P : string -> Prop) :
  P "" -> (forall s c, P s -> P (s ++ String c "")) -> forall s, P s.
Proof.
  intros Hnil Hsnoc s.
  remember (String.length s) as n eqn:Hn. revert s Hn.
  induction n as [| n IH]; intros s Hn.
  - destruct s; [exact Hnil | discriminate].
  - destruct s as [| c s]; [discriminate |].
    destruct (string_last c s) as (s' & d & -> & Hlen).
    apply Hsnoc, IH. cbn [String.length] in Hn. lia.
Qed.

(** The loop started on the number of a word writes that word in front of
    the label. *)
Lemma while_loop_writes (s : string) :
  allUpper s = true ->
  forall label, while_loop (label, bijective26 0 s - 1) = (s ++ label, -1).
Proof.
  induction s as [| s c IH] using string_snoc_ind; intros Hu label.
  - rewrite while_loop_unfold. reflexivity.
  - rewrite allUpper_app in Hu. apply andb_true_iff in Hu. destruct Hu as [Hs Hc].
    cbn [allUpper] in Hc. rewrite andb_true_r in Hc.
    rewrite bijective26_app. cbn [bijective26].
    pose proof (isUpper_letterValue c Hc) as Hv.
    pose proof (bijective26_nonneg s Hs) as Hn.
    set (v := bijective26 0 s) in *.
    assert (Hi : 0 <= v * 26 + letterValue c - 1) by lia.
    rewrite while_loop_unfold. unfold loop_cond. cbn [snd].
    destruct (Z.leb_spec 0 (v * 26 + letterValue c - 1)); [| lia].
    unfold loop_body. rewrite Z.rem_mod_nonneg by lia.
    replace ((v * 26 + letterValue c - 1) mod 26) with (letterValue c - 1).
    2:{ apply Z.mod_unique with (q := v); lia. }
    replace ((v * 26 + letterValue c - 1) / 26) with v.
    2:{ apply Z.div_unique with (r := letterValue c - 1); lia. }
    rewrite (ALPHABET_letter c Hc). cbn [prepend].
    rewrite (IH Hs), append_assoc. reflexivity.
Qed.

Lemma getColumnLabel_decode (label : string) :
  allUpper label = true -> getColumnLabel (decodeColumnLabel label) = label.
Proof.
  intros Hu. unfold getColumnLabel, decodeColumnLabel.
  rewrite (while_loop_writes label Hu ""). cbn [fst].
  clear Hu. induction label as [| c s IH]; cbn [append]; [reflexivity | now rewrite IH].
Qed.

Lemma while_loop_allUpper (st : loop_state) :
  allUpper (fst st) = true -> allUpper (fst (while_loop st)) = true.
Proof.
  induction st as [st Hc | st Hc IH] using while_loop_induction;
    intros Hu; rewrite while_loop_unfold, Hc; [exact Hu |].
  apply IH. unfold loop_cond in Hc. apply Z.leb_le in Hc.
  destruct st as [label i]. cbn [fst snd] in *.
  destruct (loop_body_spec label i Hc) as (c & -> & _ & Hcu).
  cbn [fst allUpper]. rewrite Hcu, Hu. reflexivity.
Qed.

Lemma getColumnLabel_allUpper (i : Z) : allUpper (getColumnLabel i) = true.
Proof. apply (while_loop_allUpper ("", i)). reflexivity. Qed.

(** *** The iterations of the loop *)

Lemma while_loop_iterations (st : loop_state) :
  exists n : nat,
    while_loop st = Nat.iter n loop_body st
    /\ loop_cond (Nat.iter n loop_body st) = false
    /\ (forall k : nat, (k < n)%nat ->
          loop_cond (Nat.iter k loop_body st) = true
          /\ snd (Nat.iter (S k) loop_body st) < snd (Nat.iter k loop_body st))
    /\ String.length (fst (while_loop st)) = (n + String.length (fst st))%nat.
Proof.
  induction st as [st Hc | st Hc IH] using while_loop_induction;
    rewrite while_loop_unfold, Hc.
  - exists 0%nat. cbn [Nat.iter]. repeat split; try assumption; intros; lia.
  - destruct IH as (n & Heq & Hstop & Hrun & Hlen).
    exists (S n). rewrite !Nat.iter_succ_r.
    assert (Hi : 0 <= snd st) by (unfold loop_cond in Hc; apply Z.leb_le in Hc; exact Hc).
    assert (Hb : snd (loop_body st) < snd st /\
                 String.length (fst (loop_body st)) = S (String.length (fst st))).
    { destruct st as [label i]. cbn [fst snd] in *.
      destruct (loop_body_spec label i Hi) as (c & -> & _).
      cbn [fst snd String.length]. pose proof (loop_step_decreases i Hi). lia. }
    split; [exact Heq |]. split; [exact Hstop |]. split.
    + intros [| k] Hk.
      * cbn [Nat.iter]. split; [exact Hc | apply Hb].
      * rewrite !Nat.iter_succ_r.
        specialize (Hrun k ltac:(lia)). rewrite Nat.iter_succ_r in Hrun. exact Hrun.
    + rewrite Hlen. lia.
Qed.

(** *** The successor of a label *)

Lemma nextLetter_spec (c : ascii) :
  isUpper c = true -> c <> "Z"%char ->
  isUpper (nextLetter c) = true /\ letterValue (nextLetter c) = letterValue c + 1.
Proof.
  intros Hu Hz.
  pose proof (isUpper_letterValue c Hu) as Hv.
  assert (Hne : letterValue c <> 26).
  { intros E. apply Hz. apply letterValue_inj. rewrite E. reflexivity. }
  unfold isUpper, letterValue, nextLetter in *.
  rewrite nat_ascii_embedding by lia.
  split; [| lia].
  apply andb_true_iff. split; apply Z.leb_le; lia.
Qed.

Lemma nextLabel_carry_spec (label : string) :
  allUpper label = true ->
  let '(label', carry) := nextLabel_carry label in
  allUpper label' = true
  /\ String.length label' = String.length label
  /\ bijective26 0 label' + (if carry then 26 ^ Z.of_nat (String.length label) else 0)
     = bijective26 0 label + 1.
Proof.
  induction label as [| c rest IH]; cbn [allUpper nextLabel_carry]; intros Hu.
  - repeat split.
  - apply andb_true_iff in Hu. destruct Hu as [Hc Hr].
    specialize (IH Hr). destruct (nextLabel_carry rest) as [rest' carry].
    destruct IH as (Hu' & Hlen & Hv).
    pose proof (isUpper_letterValue c Hc) as Hcv.
    assert (Hp : 0 < 26 ^ Z.of_nat (String.length rest)) by (apply Z.pow_pos_nonneg; lia).
    destruct carry.
    + destruct (Ascii.eqb_spec c "Z") as [-> | Hz].
      * cbn [allUpper bijective26 String.length]. rewrite Hu', Hlen.
        repeat split.
        rewrite (bijective26_acc rest'), (bijective26_acc rest), Hlen.
        rewrite Nat2Z.inj_succ, Z.pow_succ_r by lia.
        change (letterValue "Z") with 26. change (letterValue "A") with 1. lia.
      * destruct (nextLetter_spec c Hc Hz) as [Hnu Hnv].
        cbn [allUpper bijective26 String.length]. rewrite Hu', Hnu, Hlen.
        repeat split.
        rewrite (bijective26_acc rest'), (bijective26_acc rest), Hlen, Hnv. lia.
    + cbn [allUpper bijective26 String.length]. rewrite Hu', Hc, Hlen.
      repeat split.
      rewrite (bijective26_acc rest'), (bijective26_acc rest), Hlen. lia.
Qed.

Lemma nextLabel_spec (label : string) :
  allUpper label = true ->
  allUpper (nextLabel label) = true
  /\ decodeColumnLabel (nextLabel label) = decodeColumnLabel label + 1.
Proof.
  intros Hu. pose proof (nextLabel_carry_spec label Hu) as H.
  unfold nextLabel, decodeColumnLabel.
  destruct (nextLabel_carry label) as [label' carry].
  destruct H as (Hu' & Hlen & Hv). destruct carry.
  - cbn [allUpper bijective26]. rewrite Hu'. split; [reflexivity |].
    rewrite bijective26_acc, Hlen. change (letterValue "A") with 1. lia.
  - split; [exact Hu' | lia].
Qed.

Lemma getColumnLabel_next (i : Z) :
  0 <= i -> getColumnLabel (i + 1) = nextLabel (getColumnLabel i).
Proof.
  intros Hi.
  destruct (nextLabel_spec (getColumnLabel i) (getColumnLabel_allUpper i)) as [Hu Hd].
  rewrite decode_getColumnLabel in Hd by exact Hi.
  rewrite <- Hd. apply getColumnLabel_decode. exact Hu.
Qed.

(** C2. The label of column 0 is "A", of 25 "Z", of 26 "AA", of 701 "ZZ" and
    of 702 "AAA"; the labels follow the sequence A, B, ..., Z, AA, AB, ...:
    the first 28 are those, and the label of [i + 1] is the successor of the
    label of [i] in bijective base 26; [getColumnLabel] is injective on
    [0, 10000), and [decodeColumnLabel] is a decoder:
    [decodeColumnLabel (getColumnLabel i) = i] for every [i] in [0, 10000). *)
Theorem getColumnLabel_codec :
  getColumnLabel 0 = "A"
  /\ getColumnLabel 25 = "Z"
  /\ getColumnLabel 26 = "AA"
  /\ getColumnLabel 701 = "ZZ"
  /\ getColumnLabel 702 = "AAA"
  /\ map getColumnLabel (map Z.of_nat (seq 0 28))
     = ["A"; "B"; "C"; "D"; "E"; "F"; "G"; "H"; "I"; "J"; "K"; "L"; "M"; "N";
        "O"; "P"; "Q"; "R"; "S"; "T"; "U"; "V"; "W"; "X"; "Y"; "Z"; "AA"; "AB"]
  /\ (forall i, 0 <= i -> getColumnLabel (i + 1) = nextLabel (getColumnLabel i))
  /\ (forall i j, 0 <= i < 10000 -> 0 <= j < 10000 ->
        getColumnLabel i = getColumnLabel j -> i = j)
  /\ (forall i, 0 <= i < 10000 -> decodeColumnLabel (getColumnLabel i) = i).
Proof.
  repeat match goal with |- _ /\ _ => split end;
    try (vm_compute; reflexivity).
  - exact getColumnLabel_next.
  - intros i j Hi Hj E.
    rewrite <- (decode_getColumnLabel i), <- (decode_getColumnLabel j) by lia.
    rewrite E. reflexivity.
  - intros i Hi. apply decode_getColumnLabel. lia.
Qed.

(** C10. For every index [0 <= index] the loop of [getColumnLabel] stops:
    there is a number [n >= 1] of iterations such that the loop test holds
    before each of the first [n] iterations, each of which strictly decreases
    the loop variable (by [i := floor(i / 26) - 1]), and fails after the
    [n]-th, where the variable is negative; the label returned is the one
    built by these [n] iterations, it has [n] characters, so at least one,
    and all of them are among 'A'..'Z'. *)
Theorem getColumnLabel_terminates (index : Z) :
  0 <= index ->
  exists n : nat,
    (1 <= n)%nat
    /\ (forall k : nat, (k < n)%nat ->
          let st := Nat.iter k loop_body ("", index) in
          0 <= snd st
          /\ snd (loop_body st) = snd st / 26 - 1
          /\ snd (loop_body st) < snd st)
    /\ snd (Nat.iter n loop_body ("", index)) < 0
    /\ getColumnLabel index = fst (Nat.iter n loop_body ("", index))
    /\ String.length (getColumnLabel index) = n
    /\ allUpper (getColumnLabel index) = true.
Proof.
  intros Hindex.
  destruct (while_loop_iterations ("", index)) as (n & Heq & Hstop & Hrun & Hlen).
  exists n.
  assert (Hn : (1 <= n)%nat).
  { destruct n; [| lia]. unfold loop_cond in Hstop. simpl in Hstop.
    apply Z.leb_gt in Hstop. lia. }
  split; [exact Hn |]. split.
  { intros k Hk st. destruct (Hrun k Hk) as [Hc Hd]. fold st in Hc.
    change (Nat.iter (S k) loop_body ("", index)) with (loop_body st) in Hd.
    fold st in Hd. unfold loop_cond in Hc. apply Z.leb_le in Hc.
    split; [exact Hc |]. split; [| exact Hd].
    destruct st as [label i]. cbn [snd] in *.
    destruct (loop_body_spec label i Hc) as (c & -> & _). reflexivity. }
  split.
  { unfold loop_cond in Hstop. apply Z.leb_gt in Hstop. exact Hstop. }
  split; [unfold getColumnLabel; rewrite Heq; reflexivity |].
  split; [unfold getColumnLabel; rewrite Hlen; cbn; lia |].
  apply getColumnLabel_allUpper.
Qed.

Lemma getColumnLabel_terminates_witness :
  0 <= 27 /\
  exists n : nat,
    (1 <= n)%nat
    /\ (forall k : nat, (k < n)%nat ->
          let st := Nat.iter k loop_body ("", 27) in
          0 <= snd st
          /\ snd (loop_body st) = snd st / 26 - 1
          /\ snd (loop_body st) < snd st)
    /\ snd (Nat.iter n loop_body ("", 27)) < 0
    /\ getColumnLabel 27 = fst (Nat.iter n loop_body ("", 27))
    /\ String.length (getColumnLabel 27) = n
    /\ allUpper (getColumnLabel 27) = true.
Proof.
  split; [lia | apply (getColumnLabel_terminates 27); lia].
Defined.

End ColumnLabels.

(** ** Lists: positions in a concatenation of pieces *)

Section FlatMap.
Context {A B : Type} (g : A -> list B).

Lemma nth_error_app_cases (l1 l2 : list B) (p : nat) (b : B) :
  nth_error (l1 ++ l2) p = Some b ->
  (p < List.length l1)%nat /\ nth_error l1 p = Some b
  \/ (List.length l1 <= p)%nat /\ nth_error l2 (p - List.length l1) = Some b.
Proof.
  intros H. destruct (Nat.lt_ge_cases p (List.length l1)) as [Hlt | Hge].
  - left. rewrite nth_error_app1 in H by exact Hlt. auto.
  - right. rewrite nth_error_app2 in H by exact Hge. auto.
Qed.

(** An element of [flat_map g l] sits in the piece of some element of [l]. *)
Lemma flat_map_nth (l : list A) (p : nat) (b : B) :
  nth_error (flat_map g l) p = Some b ->
  exists (P : nat) (x : A) (u : nat),
    nth_error l P = Some x /\ nth_error (g x) u = Some b.
Proof.
  revert p. induction l as [| a l IH]; intros p; cbn [flat_map].
  - destruct p; discriminate.
  - intros H. apply nth_error_app_cases in H. destruct H as [[_ H] | [_ H]].
    + exists 0%nat, a, p. auto.
    + destruct (IH _ H) as (P & x & u & HP & Hu). exists (S P), x, u. auto.
Qed.

(** Of two elements of [flat_map g l], the first sits in the piece of an
    earlier element of [l], or in the same piece at an earlier position. *)
Lemma flat_map_nth_lt (l : list A) (p q : nat) (b1 b2 : B) :
  (p < q)%nat ->
  nth_error (flat_map g l) p = Some b1 ->
  nth_error (flat_map g l) q = Some b2 ->
  (exists (P Q : nat) (x y : A) (u v : nat),
      (P < Q)%nat /\ nth_error l P = Some x /\ nth_error l Q = Some y
      /\ nth_error (g x) u = Some b1 /\ nth_error (g y) v = Some b2)
  \/ (exists (P : nat) (x : A) (u v : nat),
         nth_error l P = Some x /\ (u < v)%nat
         /\ nth_error (g x) u = Some b1 /\ nth_error (g x) v = Some b2).
Proof.
  revert p q. induction l as [| a l IH]; intros p q Hpq; cbn [flat_map].
  - destruct p; discriminate.
  - intros H1 H2.
    apply nth_error_app_cases in H1. apply nth_error_app_cases in H2.
    destruct H1 as [[Hp H1] | [Hp H1]], H2 as [[Hq H2] | [Hq H2]].
    + right. exists 0%nat, a, p, q. auto.
    + left. destruct (flat_map_nth _ _ _ H2) as (Q & y & v & HQ & Hv).
      exists 0%nat, (S Q), a, y, p, v. repeat split; auto. lia.
    + lia.
    + destruct (IH (p - List.length (g a))%nat (q - List.length (g a))%nat
                  ltac:(lia) H1 H2)
        as [(P & Q & x & y & u & v & HPQ & HP & HQ & Hu & Hv)
           | (P & x & u & v & HP & Huv & Hu & Hv)].
      * left. exists (S P), (S Q), x, y, u, v. repeat split; auto. lia.
      * right. exists (S P), x, u, v. auto.
Qed.

End FlatMap.

Lemma flat_map_map {A B C : Type} (f : B -> list C) (g : A -> B) (l : list A) :
  flat_map f (map g l) = flat_map (fun a => f (g a)) l.
Proof.
  induction l as [| a l IH]; cbn; [reflexivity | now rewrite IH].
Qed.

Lemma nth_error_map_Some {A B : Type} (f : A -> B) (l : list A) (n : nat) (b : B) :
  nth_error (map f l) n = Some b -> exists a, nth_error l n = Some a /\ f a = b.
Proof.
  rewrite nth_error_map. destruct (nth_error l n) as [a |]; cbn; [| discriminate].
  intros [= <-]. exists a. auto.
Qed.

Lemma enumerateFrom_nth {A : Type} (l : list A) (from p k : nat) (a : A) :
  nth_error (ExcelService.enumerateFrom from l) p = Some (k, a) ->
  k = (from + p)%nat /\ nth_error l p = Some a.
Proof.
  revert from p. induction l as [| x l IH]; intros from p; cbn.
  - destruct p; discriminate.
  - destruct p as [| p]; cbn.
    + intros [= <- <-]. split; [lia | reflexivity].
    + intros H. destruct (IH _ _ H) as [-> Hp]. split; [lia | exact Hp].
Qed.

Lemma enumerateFrom_flat_map {A B : Type} (h : A -> list B) (l : list A) (from : nat) :
  flat_map (fun ja => h (snd ja)) (ExcelService.enumerateFrom from l) = flat_map h l.
Proof.
  revert from. induction l as [| x l IH]; intros from; cbn.
  - reflexivity.
  - now rewrite IH.
Qed.

(** ** The validator *)

Section Validation.
Import Types JS ExcelService.
Context {host : JsHost}.
Local Open Scope string_scope.
Local Open Scope Z_scope.
Local Open Scope list_scope.

(** *** The loops only append *)

Lemma rule_callback_appends (row : RowData) (i : Z)
  (errors : list ValidationError) (rule : ColumnSchema) :
  rule_callback row i errors rule = errors ++ ruleErrors row i rule.
Proof.
  unfold ruleErrors, rule_callback, push. cbv zeta.
  repeat match goal with
         | |- context [if ?b then _ else _] => destruct b
         | |- context [match type ?r with _ => _ end] => destruct (type r)
         end;
    rewrite ?app_nil_r; reflexivity.
Qed.

Lemma schema_forEach_appends (row : RowData) (i : Z) (schema : list ColumnSchema)
  (errors : list ValidationError) :
  fold_left (rule_callback row i) schema errors
  = errors ++ flat_map (ruleErrors row i) schema.
Proof.
  revert errors. induction schema as [| rule schema IH]; intros errors; cbn.
  - now rewrite app_nil_r.
  - rewrite IH, rule_callback_appends, <- app_assoc. reflexivity.
Qed.

Lemma skipped_true (schema : list ColumnSchema) (row : RowData) :
  skipped schema row = true <-> row = [] /\ schema <> [].
Proof.
  unfold skipped. rewrite andb_true_iff, Z.eqb_eq, Z.ltb_lt.
  destruct row, schema; cbn [List.length]; split; intros [H1 H2];
    try (split; congruence); try lia; try congruence.
Qed.

Lemma rowErrors_cases (schema : list ColumnSchema) (row : RowData) (i : Z) :
  rowErrors schema row i
  = if skipped schema row then [] else flat_map (ruleErrors row i) schema.
Proof.
  unfold rowErrors, row_callback.
  destruct (skipped schema row); [reflexivity |].
  apply schema_forEach_appends.
Qed.

Lemma rowErrors_flat_map (schema : list ColumnSchema) (row : RowData) (i : Z) :
  row <> [] -> rowErrors schema row i = flat_map (ruleErrors row i) schema.
Proof.
  intros Hrow. rewrite rowErrors_cases.
  destruct (skipped schema row) eqn:E; [| reflexivity].
  apply skipped_true in E. tauto.
Qed.

Lemma row_callback_appends (schema : list ColumnSchema)
  (errors : list ValidationError) (row : RowData) (i : Z) :
  row_callback schema errors row i = errors ++ rowErrors schema row i.
Proof.
  rewrite rowErrors_cases. unfold row_callback.
  destruct (skipped schema row).
  - now rewrite app_nil_r.
  - apply schema_forEach_appends.
Qed.

Lemma rows_forEach_appends (schema : list ColumnSchema) (rows : list RowData)
  (from : Z) (errors : list ValidationError) :
  forEach_from (row_callback schema) from rows errors
  = errors ++ validateFrom from rows schema.
Proof.
  unfold validateFrom. revert from errors.
  induction rows as [| row rows IH]; intros from errors; cbn [forEach_from].
  - now rewrite app_nil_r.
  - rewrite IH, (IH _ (row_callback schema [] row from)).
    rewrite (row_callback_appends schema errors), (row_callback_appends schema []).
    cbn [app]. now rewrite app_assoc.
Qed.

Lemma validateFrom_cons (schema : list ColumnSchema) (row : RowData)
  (rows : list RowData) (from : Z) :
  validateFrom from (row :: rows) schema
  = rowErrors schema row from ++ validateFrom (from + 1) rows schema.
Proof.
  unfold validateFrom at 1. cbn [forEach_from].
  rewrite rows_forEach_appends. reflexivity.
Qed.

Lemma validateFrom_app (schema : list ColumnSchema) (rows1 rows2 : list RowData)
  (from : Z) :
  validateFrom from (rows1 ++ rows2) schema
  = validateFrom from rows1 schema
    ++ validateFrom (from + Z.of_nat (List.length rows1)) rows2 schema.
Proof.
  revert from. induction rows1 as [| row rows1 IH]; intros from.
  - cbn. now rewrite Z.add_0_r.
  - cbn [app]. rewrite !validateFrom_cons, IH, <- app_assoc.
    do 3 f_equal. cbn [List.length]. lia.
Qed.

Lemma validateData_from (rows : list RowData) (schema : list ColumnSchema) :
  validateData rows schema = validateFrom 0 rows schema.
Proof. reflexivity. Qed.

(** The output, cut around the row at position [length rows1]. *)
Lemma validateData_split (schema : list ColumnSchema) (rows1 rows2 : list RowData)
  (row : RowData) :
  validateData (rows1 ++ row :: rows2) schema
  = validateData rows1 schema
    ++ rowErrors schema row (Z.of_nat (List.length rows1))
    ++ validateFrom (Z.of_nat (List.length rows1) + 1) rows2 schema.
Proof.
  rewrite !validateData_from, validateFrom_app, validateFrom_cons. reflexivity.
Qed.

(** *** One rule on one row *)

Lemma ruleErrors_empty_text (row : RowData) (i : Z) (rule : ColumnSchema) :
  cellText (array_get row (index rule)) = "" ->
  ruleErrors row i rule = if required rule then [requiredError i rule] else [].
Proof.
  intros E. unfold ruleErrors, rule_callback. cbv zeta. rewrite E. cbn.
  rewrite andb_true_r. destruct (required rule); reflexivity.
Qed.

Lemma ruleErrors_text (row : RowData) (i : Z) (rule : ColumnSchema) :
  cellText (array_get row (index rule)) <> "" ->
  ruleErrors row i rule =
  let v := array_get row (index rule) in
  match type rule with
  | NUMBER => if isNaN_Number v then [numberError i rule v] else []
  | BOOLEAN =>
      if includes ["true"; "false"; "1"; "0"; "yes"; "no"] (toLowerCase (cellText v))
      then [] else [booleanError i rule v]
  | DATE => if isNaN (Date_parse (cellText v)) then [dateError i rule v] else []
  | STRING => []
  end.
Proof.
  intros E. unfold ruleErrors, rule_callback. cbv zeta.
  apply String.eqb_neq in E. rewrite E, andb_false_r.
  destruct (type rule); try reflexivity.
  match goal with |- context [includes ?a ?b] => destruct (includes a b) end;
    reflexivity.
Qed.

Lemma ruleErrors_at_most_one (row : RowData) (i : Z) (rule : ColumnSchema) :
  ruleErrors row i rule = []
  \/ exists message, ruleErrors row i rule = [mkValidationError i (index rule) message].
Proof.
  destruct (String.eqb_spec (cellText (array_get row (index rule))) "") as [E | E].
  - rewrite (ruleErrors_empty_text _ _ _ E).
    destruct (required rule); [right; eexists; reflexivity | left; reflexivity].
  - rewrite (ruleErrors_text _ _ _ E). cbv zeta.
    destruct (type rule); try (left; reflexivity);
      match goal with |- context [if ?b then _ else _] => destruct b end;
      try (left; reflexivity); right; eexists; reflexivity.
Qed.

Lemma rowErrors_rule (s1 s2 : list ColumnSchema) (rule : ColumnSchema)
  (row : RowData) (i : Z) :
  row <> [] ->
  rowErrors (s1 ++ rule :: s2) row i
  = flat_map (ruleErrors row i) s1 ++ ruleErrors row i rule
    ++ flat_map (ruleErrors row i) s2.
Proof.
  intros Hrow. rewrite rowErrors_flat_map by exact Hrow.
  rewrite flat_map_app. reflexivity.
Qed.

(** The output, cut around what one rule yields on one row. *)
Lemma validateData_split_rule (rows1 rows2 : list RowData) (row : RowData)
  (s1 s2 : list ColumnSchema) (rule : ColumnSchema) :
  row <> [] ->
  let i := Z.of_nat (List.length rows1) in
  let schema := s1 ++ rule :: s2 in
  validateData (rows1 ++ row :: rows2) schema
  = (validateData rows1 schema ++ flat_map (ruleErrors row i) s1)
    ++ ruleErrors row i rule
    ++ (flat_map (ruleErrors row i) s2 ++ validateFrom (i + 1) rows2 schema).
Proof.
  intros Hrow i schema. unfold schema.
  rewrite validateData_split, rowErrors_rule by exact Hrow.
  rewrite <- !app_assoc. reflexivity.
Qed.

Lemma cellText_nonempty_row (row : RowData) (k : Z) :
  cellText (array_get row k) <> "" -> row <> [].
Proof.
  intros H ->. apply H. unfold array_get.
  destruct (k <? 0); [reflexivity |]. destruct (Z.to_nat k); reflexivity.
Qed.

(** *** Where an error comes from *)

Lemma ruleErrors_In (row : RowData) (i : Z) (rule : ColumnSchema) (e : ValidationError) :
  In e (ruleErrors row i rule) -> rowIndex e = i /\ colIndex e = index rule.
Proof.
  destruct (ruleErrors_at_most_one row i rule) as [-> | (m & ->)]; cbn; intros H.
  - contradiction.
  - destruct H as [<- | []]. split; reflexivity.
Qed.

Lemma rowErrors_In (schema : list ColumnSchema) (row : RowData) (i : Z)
  (e : ValidationError) :
  In e (rowErrors schema row i) ->
  row <> [] /\ exists rule, In rule schema /\ In e (ruleErrors row i rule).
Proof.
  rewrite rowErrors_cases. destruct (skipped schema row) eqn:E; [intros [] |].
  intros H. apply in_flat_map in H. split; [| exact H].
  intros ->. destruct H as (rule & Hrule & _).
  assert (skipped schema [] = true) by (apply skipped_true; split; [reflexivity | now destruct schema]).
  congruence.
Qed.

Lemma validateFrom_In (schema : list ColumnSchema) (rows : list RowData) (from : Z)
  (e : ValidationError) :
  In e (validateFrom from rows schema) ->
  exists (k : nat) (row : RowData),
    nth_error rows k = Some row /\ rowIndex e = from + Z.of_nat k
    /\ In e (rowErrors schema row (from + Z.of_nat k)).
Proof.
  revert from. induction rows as [| row rows IH]; intros from.
  - intros [].
  - rewrite validateFrom_cons, in_app_iff. intros [H | H].
    + exists 0%nat, row. rewrite Z.add_0_r. split; [reflexivity |]. split; [| exact H].
      apply rowErrors_In in H. destruct H as (_ & rule & _ & H).
      apply ruleErrors_In in H. apply H.
    + destruct (IH _ H) as (k & row' & Hk & Hi & Hin).
      exists (S k), row'. replace (from + Z.of_nat (S k)) with (from + 1 + Z.of_nat k) by lia.
      auto.
Qed.

Lemma validateFrom_rowIndex (schema : list ColumnSchema) (rows : list RowData)
  (from : Z) (e : ValidationError) :
  In e (validateFrom from rows schema) ->
  from <= rowIndex e < from + Z.of_nat (List.length rows).
Proof.
  intros H. destruct (validateFrom_In _ _ _ _ H) as (k & row & Hk & Hi & _).
  assert (k < List.length rows)%nat by (apply nth_error_Some; congruence).
  lia.
Qed.

(** What one rule yields on a row that is not skipped is part of the output. *)
Lemma validateData_reports (rows : list RowData) (schema : list ColumnSchema)
  (k : nat) (row : RowData) (rule : ColumnSchema) (e : ValidationError) :
  nth_error rows k = Some row -> row <> [] -> In rule schema ->
  In e (ruleErrors row (Z.of_nat k) rule) ->
  In e (validateData rows schema).
Proof.
  intros Hk Hrow Hrule He.
  destruct (nth_error_split rows k Hk) as (rows1 & rows2 & -> & <-).
  rewrite validateData_split, !in_app_iff. right. left.
  rewrite rowErrors_flat_map by exact Hrow.
  apply in_flat_map. exists rule. split; assumption.
Qed.

(** *** The claims on single checks *)

(** C4, amended. For every row that has at least one cell and every schema
    rule with [required = true] whose cell's trimmed text is empty, whatever
    the rule's type: the rule yields on that row exactly one error, the
    required-message error with the row's index and the rule's column index,
    and no type-mismatch error; [validateData] returns it between the errors
    found before it and those found after it. *)
Theorem required_empty_one_error (rows1 rows2 : list RowData) (row : RowData)
  (s1 s2 : list ColumnSchema) (rule : ColumnSchema) :
  row <> [] ->
  required rule = true ->
  cellText (array_get row (index rule)) = "" ->
  let i := Z.of_nat (List.length rows1) in
  let schema := s1 ++ rule :: s2 in
  let e := mkValidationError i (index rule)
             ("Column '" ++ name rule ++ "' is required but was empty.")%string in
  ruleErrors row i rule = [e]
  /\ validateData (rows1 ++ row :: rows2) schema
     = (validateData rows1 schema ++ flat_map (ruleErrors row i) s1)
       ++ [e]
       ++ (flat_map (ruleErrors row i) s2 ++ validateFrom (i + 1) rows2 schema).
Proof.
  intros Hrow Hreq Hempty i schema e.
  assert (He : ruleErrors row i rule = [e]).
  { rewrite (ruleErrors_empty_text _ _ _ Hempty), Hreq. reflexivity. }
  split; [exact He |].
  rewrite <- He. apply validateData_split_rule. exact Hrow.
Qed.

(** C3, amended. For every row and every Number-typed rule whose cell's
    trimmed text is not empty, the rule yields on that row the one error
    "Expected a Number, got '<original value>'." exactly when [Number(value)]
    is NaN, and no error otherwise; [validateData] returns it between the
    errors found before and after it. [Number(value)] is NaN for a text
    cell when its trimmed text is not a numeral of JavaScript (a decimal,
    integer or scientific form, a signed [Infinity], or a [0x], [0o] or [0b]
    integer), for a number cell when it is NaN, and never for a boolean cell. *)
Theorem number_rule_error (rows1 rows2 : list RowData) (row : RowData)
  (s1 s2 : list ColumnSchema) (rule : ColumnSchema) (v : CellValue) :
  type rule = NUMBER ->
  array_get row (index rule) = Some v ->
  cellText (Some v) <> "" ->
  let i := Z.of_nat (List.length rows1) in
  let schema := s1 ++ rule :: s2 in
  let found :=
    if isNaN_Number (Some v) then
      [mkValidationError i (index rule)
         ("Expected a Number, got '" ++ ToString (Some v) ++ "'.")%string]
    else [] in
  ruleErrors row i rule = found
  /\ validateData (rows1 ++ row :: rows2) schema
     = (validateData rows1 schema ++ flat_map (ruleErrors row i) s1)
       ++ found
       ++ (flat_map (ruleErrors row i) s2 ++ validateFrom (i + 1) rows2 schema)
  /\ isNaN_Number (Some v)
     = match v with
       | CStr s =>
           let t := trim s in
           negb ((t =? "")%string || isDecimalNumeral t
                 || (t =? "Infinity")%string || (t =? "+Infinity")%string
                 || (t =? "-Infinity")%string
                 || isNonDecimalIntegerLiteral t)
       | CNum n => PrimFloat.is_nan n
       | CBool _ | CNull => false
       end.
Proof.
  intros Htype Hv Htext i schema found.
  assert (Hrow : row <> []).
  { apply (cellText_nonempty_row row (index rule)). rewrite Hv. exact Htext. }
  assert (He : ruleErrors row i rule = found).
  { rewrite ruleErrors_text by (rewrite Hv; exact Htext).
    cbv zeta. rewrite Htype, Hv. reflexivity. }
  split; [exact He |]. split.
  - rewrite <- He. apply validateData_split_rule. exact Hrow.
  - destruct v as [s | n | b |]; try reflexivity.
    cbn [isNaN_Number]. f_equal. unfold isStringNumericLiteral. cbv zeta.
    set (t := trim s). unfold isStrDecimalLiteral, isDecimalNumeral, isStrUnsignedDecimalLiteral.
    destruct t as [| c t']; [reflexivity |].
    destruct (Ascii.eqb_spec c "+") as [-> | Hp].
    { cbn [String.eqb Ascii.eqb Bool.eqb]. cbn.
      destruct (t' =? "Infinity")%string, (isUnsignedDecimal t'); reflexivity. }
    destruct (Ascii.eqb_spec c "-") as [-> | Hm].
    { cbn.
      destruct (t' =? "Infinity")%string, (isUnsignedDecimal t'); reflexivity. }
    replace (match c with
             | "+"%char | "-"%char => (t' =? "Infinity")%string || isUnsignedDecimal t'
             | _ => (String c t' =? "Infinity")%string || isUnsignedDecimal (String c t')
             end)
      with ((String c t' =? "Infinity")%string || isUnsignedDecimal (String c t')).
    2:{ destruct c as [[] [] [] [] [] [] [] []]; try reflexivity; congruence. }
    replace (match c with
             | "+"%char | "-"%char => isUnsignedDecimal t'
             | _ => isUnsignedDecimal (String c t')
             end)
      with (isUnsignedDecimal (String c t')).
    2:{ destruct c as [[] [] [] [] [] [] [] []]; try reflexivity; congruence. }
    replace (String c t' =? "+Infinity")%string with false.
    2:{ symmetry. apply String.eqb_neq. congruence. }
    replace (String c t' =? "-Infinity")%string with false.
    2:{ symmetry. apply String.eqb_neq. congruence. }
    change (String c t' =? "")%string with false.
    destruct (String c t' =? "Infinity")%string, (isUnsignedDecimal (String c t')),
      (isNonDecimalIntegerLiteral (String c t')); reflexivity.
Qed.

(** *** Discovery order *)

Lemma validateFrom_checks (schema : list ColumnSchema) (rows : list RowData)
  (from : nat) :
  validateFrom (Z.of_nat from) rows schema
  = flat_map checkErrors (flat_map (rowChecks schema) (enumerateFrom from rows)).
Proof.
  revert from. induction rows as [| row rows IH]; intros from.
  - reflexivity.
  - rewrite validateFrom_cons. cbn [enumerateFrom flat_map].
    rewrite flat_map_app. f_equal.
    + rewrite rowErrors_cases. unfold rowChecks. cbn [snd].
      destruct (skipped schema row); [reflexivity |].
      rewrite flat_map_map. unfold checkErrors. cbn [fst snd].
      symmetry. apply (enumerateFrom_flat_map (ruleErrors row (Z.of_nat from))).
    + rewrite <- IH. f_equal. lia.
Qed.

Lemma validateData_checks (rows : list RowData) (schema : list ColumnSchema) :
  validateData rows schema = flat_map checkErrors (checks rows schema).
Proof. apply (validateFrom_checks schema rows 0). Qed.

Lemma checkErrors_nth (c : check) (u : nat) (e : ValidationError) :
  nth_error (checkErrors c) u = Some e -> u = 0%nat /\ checkErrors c = [e].
Proof.
  unfold checkErrors.
  destruct (ruleErrors_at_most_one (snd (fst c)) (Z.of_nat (fst (fst c))) (snd (snd c)))
    as [-> | (m & ->)].
  - destruct u; discriminate.
  - destruct u as [| [| u]]; cbn; try discriminate. intros [= <-]. auto.
Qed.

(** A check of the list talks about a row and a rule that are there. *)
Lemma checks_nth (rows : list RowData) (schema : list ColumnSchema) (P : nat)
  (k j : nat) (row : RowData) (rule : ColumnSchema) :
  nth_error (checks rows schema) P = Some ((k, row), (j, rule)) ->
  nth_error rows k = Some row /\ nth_error schema j = Some rule.
Proof.
  intros H. apply flat_map_nth in H. destruct H as (R & [k' row'] & u & HR & Hu).
  apply enumerateFrom_nth in HR. destruct HR as [-> HR].
  unfold rowChecks in Hu. cbn [snd] in Hu.
  destruct (skipped schema row'); [destruct u; discriminate |].
  apply nth_error_map_Some in Hu. destruct Hu as ([j' rule'] & Hu & E).
  injection E as -> -> -> ->.
  apply enumerateFrom_nth in Hu. destruct Hu as [-> Hu]. auto.
Qed.

(** The checks are listed by row first and by rule second. *)
Lemma checks_ordered (rows : list RowData) (schema : list ColumnSchema) (P Q : nat)
  (k1 j1 k2 j2 : nat) (row1 row2 : RowData) (rule1 rule2 : ColumnSchema) :
  (P < Q)%nat ->
  nth_error (checks rows schema) P = Some ((k1, row1), (j1, rule1)) ->
  nth_error (checks rows schema) Q = Some ((k2, row2), (j2, rule2)) ->
  (k1 < k2)%nat \/ (k1 = k2 /\ (j1 < j2)%nat).
Proof.
  intros HPQ H1 H2.
  destruct (flat_map_nth_lt _ _ _ _ _ _ HPQ H1 H2)
    as [(R1 & R2 & [k1' r1] & [k2' r2] & u & v & HR & HR1 & HR2 & Hu & Hv)
       | (R & [k' r] & u & v & HR & Huv & Hu & Hv)].
  - left.
    apply enumerateFrom_nth in HR1, HR2. destruct HR1 as [-> _], HR2 as [-> _].
    unfold rowChecks in Hu, Hv. cbn [snd] in Hu, Hv.
    destruct (skipped schema r1); [destruct u; discriminate |].
    destruct (skipped schema r2); [destruct v; discriminate |].
    apply nth_error_map_Some in Hu, Hv.
    destruct Hu as (? & _ & E1), Hv as (? & _ & E2).
    injection E1 as <- _ _. injection E2 as <- _ _. lia.
  - right.
    unfold rowChecks in Hu, Hv. cbn [snd] in Hu, Hv.
    destruct (skipped schema r); [destruct u; discriminate |].
    apply nth_error_map_Some in Hu, Hv.
    destruct Hu as ([j1' x1] & Hu & E1), Hv as ([j2' x2] & Hv & E2).
    injection E1 as -> -> -> ->. injection E2 as -> -> -> ->.
    apply enumerateFrom_nth in Hu, Hv. destruct Hu as [-> _], Hv as [-> _].
    split; [reflexivity | lia].
Qed.

(** C6. [validateData] returns the errors in discovery order, none dropped
    or merged: its output is the concatenation, over the checks (the rows in
    order and, for each row that is not skipped, the schema rules in order),
    of what each check yields, which is no error or one. So of any two errors
    of the output, the earlier one comes from an earlier row, or from the
    same row and a rule earlier in the schema; and two rules on one row,
    be they on the same column index or the same rule twice, each yield
    their own errors, one after the other. *)
Theorem validateData_discovery_order (rows : list RowData) (schema : list ColumnSchema) :
  validateData rows schema = flat_map checkErrors (checks rows schema)
  /\ (forall p q e1 e2,
        (p < q)%nat ->
        nth_error (validateData rows schema) p = Some e1 ->
        nth_error (validateData rows schema) q = Some e2 ->
        exists k1 j1 k2 j2 row1 rule1 row2 rule2,
          nth_error rows k1 = Some row1 /\ nth_error schema j1 = Some rule1
          /\ ruleErrors row1 (Z.of_nat k1) rule1 = [e1]
          /\ nth_error rows k2 = Some row2 /\ nth_error schema j2 = Some rule2
          /\ ruleErrors row2 (Z.of_nat k2) rule2 = [e2]
          /\ ((k1 < k2)%nat \/ (k1 = k2 /\ (j1 < j2)%nat)))
  /\ (forall rule1 rule2 row,
        row <> [] ->
        validateData [row] [rule1; rule2]
        = ruleErrors row 0 rule1 ++ ruleErrors row 0 rule2).
Proof.
  split; [apply validateData_checks |]. split.
  - intros p q e1 e2 Hpq H1 H2.
    rewrite validateData_checks in H1, H2.
    destruct (flat_map_nth_lt _ _ _ _ _ _ Hpq H1 H2)
      as [(P & Q & [[k1 row1] [j1 rule1]] & [[k2 row2] [j2 rule2]] & u & v
           & HPQ & HP & HQ & Hu & Hv)
         | (P & c & u & v & HP & Huv & Hu & Hv)].
    + exists k1, j1, k2, j2, row1, rule1, row2, rule2.
      destruct (checks_nth _ _ _ _ _ _ _ HP) as [Hr1 Hs1].
      destruct (checks_nth _ _ _ _ _ _ _ HQ) as [Hr2 Hs2].
      apply checkErrors_nth in Hu, Hv. destruct Hu as [_ Hu], Hv as [_ Hv].
      repeat split; try assumption.
      apply (checks_ordered rows schema P Q _ _ _ _ _ _ _ _ HPQ HP HQ).
    + apply checkErrors_nth in Hu, Hv. lia.
  - intros rule1 rule2 row Hrow.
    unfold validateData, forEach. cbn [forEach_from].
    rewrite row_callback_appends, rowErrors_flat_map by exact Hrow.
    cbn [flat_map app]. rewrite app_nil_r. reflexivity.
Qed.

(** C8. When the schema is not empty, a row with no cell contributes no
    error: the row callback returns the errors it was given, no rule being
    evaluated; the output is that of the rows before it followed by that of
    the rows after it; and no error of the output carries its row index. *)
Theorem empty_row_contributes_nothing (rows1 rows2 : list RowData)
  (schema : list ColumnSchema) :
  schema <> [] ->
  let i := Z.of_nat (List.length rows1) in
  (forall errors, row_callback schema errors [] i = errors)
  /\ validateData (rows1 ++ [] :: rows2) schema
     = validateData rows1 schema ++ validateFrom (i + 1) rows2 schema
  /\ (forall e, In e (validateData (rows1 ++ [] :: rows2) schema) -> rowIndex e <> i).
Proof.
  intros Hschema i.
  assert (Hskip : skipped schema [] = true) by (apply skipped_true; auto).
  assert (Hsplit : validateData (rows1 ++ [] :: rows2) schema
                   = validateData rows1 schema ++ validateFrom (i + 1) rows2 schema).
  { rewrite validateData_split, rowErrors_cases, Hskip. reflexivity. }
  split; [| split].
  - intros errors. unfold row_callback. rewrite Hskip. reflexivity.
  - exact Hsplit.
  - intros e He. rewrite Hsplit, in_app_iff in He. destruct He as [He | He].
    + rewrite validateData_from in He. apply validateFrom_rowIndex in He. lia.
    + apply validateFrom_rowIndex in He. lia.
Qed.

(** *** No input makes the validator throw *)

Lemma Faults_cellText (v : JsValue) : Faults.cellText v = Faults.Normal (cellText v).
Proof. destruct v as [[s | n | b |] |]; reflexivity. Qed.

Lemma Faults_rule_callback (row : RowData) (i : Z) (errors : list ValidationError)
  (rule : ColumnSchema) :
  Faults.rule_callback row i errors rule = Faults.Normal (rule_callback row i errors rule).
Proof.
  unfold Faults.rule_callback, rule_callback. cbv zeta.
  rewrite Faults_cellText. cbn [Faults.bind].
  destruct (required rule && (cellText (array_get row (index rule)) =? "")%string);
    [reflexivity |].
  destruct (cellText (array_get row (index rule)) =? "")%string; [reflexivity |].
  destruct (type rule); try reflexivity.
  - destruct (isNaN_Number _); reflexivity.
  - cbn [Faults.call_toLowerCase Faults.bind].
    destruct (negb _); reflexivity.
  - destruct (isNaN _); reflexivity.
Qed.

Lemma Faults_schema_forEach (row : RowData) (i from : Z) (schema : list ColumnSchema)
  (errors : list ValidationError) :
  Faults.forEach_from (fun errors rule _ => Faults.rule_callback row i errors rule)
    from schema errors
  = Faults.Normal (fold_left (rule_callback row i) schema errors).
Proof.
  revert from errors. induction schema as [| rule schema IH]; intros from errors.
  - reflexivity.
  - cbn [Faults.forEach_from fold_left]. rewrite Faults_rule_callback.
    cbn [Faults.bind]. apply IH.
Qed.

Lemma Faults_row_callback (schema : list ColumnSchema) (errors : list ValidationError)
  (row : RowData) (i : Z) :
  Faults.row_callback schema errors row i = Faults.Normal (row_callback schema errors row i).
Proof.
  unfold Faults.row_callback, row_callback.
  destruct (skipped schema row); [reflexivity |]. apply Faults_schema_forEach.
Qed.

Lemma Faults_rows_forEach (schema : list ColumnSchema) (rows : list RowData) (from : Z)
  (errors : list ValidationError) :
  Faults.forEach_from (Faults.row_callback schema) from rows errors
  = Faults.Normal (forEach_from (row_callback schema) from rows errors).
Proof.
  revert from errors. induction rows as [| row rows IH]; intros from errors.
  - reflexivity.
  - cbn [Faults.forEach_from forEach_from]. rewrite Faults_row_callback.
    cbn [Faults.bind]. apply IH.
Qed.

(** C9. [validateData] throws on no input. Evaluated with the faults of
    JavaScript ([Faults]), it completes normally on every list of rows and
    every schema, negative rule indices included, with the list that
    [validateData] returns. What that list holds where a fault could be
    expected, at a row and a rule of the input: a row with no cell is passed
    over; on another row, a read [row[rule.index]] out of the row's range
    (beyond its end, or at a negative index) is [undefined], taken as empty
    text, and the rule reports nothing, or the required-message error when
    it is required; a cell that is neither [null] nor blank and fails the
    Number, Boolean or Date test of its rule is reported with the message of
    that test, between the errors found before it and after it. *)
Theorem validateData_total (rows1 rows2 : list RowData) (row : RowData)
  (s1 s2 : list ColumnSchema) (rule : ColumnSchema) :
  let i := Z.of_nat (List.length rows1) in
  let schema := s1 ++ rule :: s2 in
  let errors := validateData (rows1 ++ row :: rows2) schema in
  let report (found : list ValidationError) :=
    (validateData rows1 schema ++ flat_map (ruleErrors row i) s1)
    ++ found
    ++ (flat_map (ruleErrors row i) s2 ++ validateFrom (i + 1) rows2 schema) in
  (forall rows' schema',
     Faults.validateData rows' schema' = Faults.Normal (validateData rows' schema'))
  /\ (row = [] ->
      errors = validateData rows1 schema ++ validateFrom (i + 1) rows2 schema)
  /\ (row <> [] ->
      index rule < 0 \/ Z.of_nat (List.length row) <= index rule ->
      array_get row (index rule) = None
      /\ errors
         = report (if required rule
                   then [mkValidationError i (index rule)
                           ("Column '" ++ name rule ++ "' is required but was empty.")]
                   else []))
  /\ (forall v : CellValue,
        array_get row (index rule) = Some v ->
        v <> CNull ->
        trim (ToString (Some v)) <> "" ->
        (type rule = NUMBER ->
         isNaN_Number (Some v) = true ->
         errors
         = report [mkValidationError i (index rule)
                     ("Expected a Number, got '" ++ ToString (Some v) ++ "'.")])
        /\ (type rule = BOOLEAN ->
            includes ["true"; "false"; "1"; "0"; "yes"; "no"]
              (toLowerCase (trim (ToString (Some v)))) = false ->
            errors
            = report [mkValidationError i (index rule)
                        ("Expected Boolean (true/false), got '"
                         ++ ToString (Some v) ++ "'.")])
        /\ (type rule = DATE ->
            isNaN (Date_parse (trim (ToString (Some v)))) = true ->
            errors
            = report [mkValidationError i (index rule)
                        ("Expected a valid Date, got '" ++ ToString (Some v) ++ "'.")])).
Proof.
  intros i schema errors report.
  split; [| split; [| split]].
  - intros rows' schema'. apply Faults_rows_forEach.
  - intros ->. unfold errors.
    assert (Hskip : skipped schema [] = true).
    { apply skipped_true. split; [reflexivity |]. unfold schema. destruct s1; discriminate. }
    rewrite validateData_split, rowErrors_cases, Hskip. reflexivity.
  - intros Hrow Hout.
    assert (E : array_get row (index rule) = None).
    { unfold array_get. destruct (Z.ltb_spec (index rule) 0); [reflexivity |].
      apply nth_error_None. lia. }
    split; [exact E |].
    unfold errors, report, schema. rewrite validateData_split_rule by exact Hrow.
    fold i. rewrite (ruleErrors_empty_text row i rule) by (rewrite E; reflexivity).
    reflexivity.
  - intros v Hv Hnull Htext.
    assert (Hcell : cellText (Some v) = trim (ToString (Some v)))
      by (destruct v; [reflexivity .. | congruence]).
    assert (Htext' : cellText (array_get row (index rule)) <> "")
      by (rewrite Hv, Hcell; exact Htext).
    pose proof (cellText_nonempty_row row (index rule) Htext') as Hrow.
    unfold errors, report, schema. rewrite validateData_split_rule by exact Hrow.
    fold i. rewrite (ruleErrors_text row i rule Htext'). cbv zeta.
    rewrite Hv, Hcell.
    repeat split; intros -> ->; reflexivity.
Qed.

End Validation.

(** ** The per-cell error lookup *)

Section ErrorIndex.
Import Types JS ExcelService Grid.
Context {host : JsHost}.
Local Open Scope Z_scope.

Lemma getError_Some (errors : list ValidationError) (r c : Z) (e : ValidationError) :
  getError errors r c = Some e -> In e errors /\ rowIndex e = r /\ colIndex e = c.
Proof.
  unfold getError. intros H. apply find_some in H. destruct H as [Hin Hb].
  apply andb_true_iff in Hb. destruct Hb as [Hr Hc].
  apply Z.eqb_eq in Hr. apply Z.eqb_eq in Hc. auto.
Qed.

Lemma getError_present (errors : list ValidationError) (e : ValidationError) :
  In e errors ->
  exists e', getError errors (rowIndex e) (colIndex e) = Some e'.
Proof.
  intros Hin. unfold getError.
  destruct (find _ errors) as [e' |] eqn:E; [eauto |].
  pose proof (find_none _ _ E e Hin) as Hb. cbn in Hb.
  rewrite !Z.eqb_refl in Hb. discriminate.
Qed.

Lemma getError_absent (errors : list ValidationError) (r c : Z) :
  (forall e, In e errors -> ~ (rowIndex e = r /\ colIndex e = c)) ->
  getError errors r c = None.
Proof.
  intros Hno. destruct (getError errors r c) as [e |] eqn:E; [| reflexivity].
  apply getError_Some in E. destruct E as (Hin & Hr & Hc).
  exfalso. apply (Hno e Hin). auto.
Qed.

(** C7. For every error [e] of the list that [validateData] returns, the
    lookup at [(rowIndex e, colIndex e)] reports an error as present and
    returns an error of the list at that cell (so its message is that of an
    error at that cell); at a pair [(r, c)] that is the cell of no error of
    the list, the lookup returns nothing and reports no error. *)
Theorem getError_consistent (rows : list RowData) (schema : list ColumnSchema) :
  let errors := validateData rows schema in
  (forall e, In e errors ->
     isErrorCell errors (rowIndex e) (colIndex e) = true
     /\ exists e', getError errors (rowIndex e) (colIndex e) = Some e'
                   /\ In e' errors
                   /\ rowIndex e' = rowIndex e /\ colIndex e' = colIndex e)
  /\ (forall r c,
        (forall e, In e errors -> ~ (rowIndex e = r /\ colIndex e = c)) ->
        getError errors r c = None /\ isErrorCell errors r c = false).
Proof.
  intros errors. split.
  - intros e Hin. destruct (getError_present errors e Hin) as [e' He'].
    unfold isErrorCell. rewrite He'. split; [reflexivity |].
    exists e'. split; [reflexivity |]. apply getError_Some. exact He'.
  - intros r c Hno. unfold isErrorCell.
    rewrite (getError_absent errors r c Hno). auto.
Qed.

End ErrorIndex.

(** ** Binary64 arithmetic *)

Section Binary64.
Import JS.
Local Open Scope Z_scope.

(** *** The number of binary digits of a mantissa *)

Lemma digits2_pos_bounds (p : positive) :
  2 ^ (Z.pos (digits2_pos p) - 1) <= Z.pos p < 2 ^ Z.pos (digits2_pos p).
Proof.
  induction p as [p IH | p IH |]; cbn [digits2_pos].
  - rewrite Pos2Z.inj_succ.
    replace (Z.succ (Z.pos (digits2_pos p)) - 1)
      with (Z.succ (Z.pos (digits2_pos p) - 1)) by lia.
    rewrite !Z.pow_succ_r by lia. lia.
  - rewrite Pos2Z.inj_succ.
    replace (Z.succ (Z.pos (digits2_pos p)) - 1)
      with (Z.succ (Z.pos (digits2_pos p) - 1)) by lia.
    rewrite !Z.pow_succ_r by lia. lia.
  - cbn. lia.
Qed.

Lemma digits2_pos_unique (p : positive) (n : Z) :
  2 ^ (n - 1) <= Z.pos p < 2 ^ n -> Z.pos (digits2_pos p) = n.
Proof.
  intros H. pose proof (digits2_pos_bounds p) as B.
  set (d := Z.pos (digits2_pos p)) in *.
  assert (0 < d) by (unfold d; lia).
  assert (Hn : 0 < n).
  { destruct (Z.ltb_spec 0 n); [assumption |].
    assert (2 ^ n <= 2 ^ 0) by (apply Z.pow_le_mono_r; lia).
    cbn in *. lia. }
  destruct (Z.lt_trichotomy d n) as [L | [E | G]]; [| exact E |].
  - assert (2 ^ d <= 2 ^ (n - 1)) by (apply Z.pow_le_mono_r; lia). lia.
  - assert (2 ^ n <= 2 ^ (d - 1)) by (apply Z.pow_le_mono_r; lia). lia.
Qed.

(** *** Shifting a mantissa right, as rounding does *)

Lemma iter_pos_nat {A} (f : A -> A) (p : positive) (x : A) :
  iter_pos f p x = Nat.iter (Pos.to_nat p) f x.
Proof.
  revert x. induction p as [p IH | p IH |]; intros x; cbn [iter_pos].
  - rewrite !IH, Pos2Nat.inj_xI.
    replace (S (2 * Pos.to_nat p)) with (Pos.to_nat p + S (Pos.to_nat p))%nat by lia.
    rewrite Nat.iter_add, Nat.iter_succ_r. reflexivity.
  - rewrite !IH, Pos2Nat.inj_xO.
    replace (2 * Pos.to_nat p)%nat with (Pos.to_nat p + Pos.to_nat p)%nat by lia.
    rewrite Nat.iter_add. reflexivity.
  - reflexivity.
Qed.

Lemma shr_1_m (r : shr_record) :
  0 <= shr_m r -> shr_m (shr_1 r) = shr_m r / 2 /\ 0 <= shr_m (shr_1 r).
Proof.
  destruct r as [m r s]. cbn [shr_m]. intros Hm.
  destruct m as [| [p | p |] |]; cbn [shr_1 shr_m]; try lia.
  all: split; [| lia].
  all: try reflexivity.
  - rewrite Pos2Z.inj_xI. apply Z.div_unique with (r := 1); lia.
  - rewrite Pos2Z.inj_xO. apply Z.div_unique with (r := 0); lia.
Qed.

Lemma shr_iter_m (n : nat) (r : shr_record) :
  0 <= shr_m r ->
  shr_m (Nat.iter n shr_1 r) = shr_m r / 2 ^ Z.of_nat n /\ 0 <= shr_m (Nat.iter n shr_1 r).
Proof.
  intros Hm. induction n as [| n [IH1 IH2]].
  - cbn. rewrite Z.div_1_r. auto.
  - rewrite Nat.iter_succ. destruct (shr_1_m _ IH2) as [E P]. split; [| exact P].
    rewrite E, IH1, Nat2Z.inj_succ, Z.pow_succ_r by lia.
    rewrite Z.div_div by lia. f_equal. lia.
Qed.

(** *** Rounding to 53 digits *)

Lemma round_nearest_even_cases (m : Z) (l : location) :
  round_nearest_even m l = m \/ round_nearest_even m l = m + 1.
Proof.
  destruct l as [| []]; cbn; auto. destruct (Z.even m); auto.
Qed.

Lemma fexp_normal (z : Z) : -1021 <= z -> fexp prec emax z = z - 53.
Proof. intros H. unfold fexp, emin, prec, emax. lia. Qed.

Lemma shr_fexp_shift (m : positive) (e : Z) (d : positive) :
  Z.pos (digits2_pos m) = 53 + Z.pos d -> -1074 <= e + Z.pos d ->
  shr_fexp prec emax (Z.pos m) e loc_Exact
  = (iter_pos shr_1 d (Build_shr_record (Z.pos m) false false), e + Z.pos d).
Proof.
  intros Hd He. unfold shr_fexp. cbn [Zdigits2 shr_record_of_loc].
  rewrite Hd, fexp_normal by lia.
  replace (53 + Z.pos d + e - 53 - e) with (Z.pos d) by lia.
  reflexivity.
Qed.

Lemma shr_fexp_id (p : positive) (e : Z) :
  Z.pos (digits2_pos p) = 53 -> -1074 <= e ->
  shr_fexp prec emax (Z.pos p) e loc_Exact = (Build_shr_record (Z.pos p) false false, e).
Proof.
  intros Hd He. unfold shr_fexp. cbn [Zdigits2 shr_record_of_loc].
  rewrite Hd, fexp_normal by lia.
  replace (53 + e - 53 - e) with 0 by lia. reflexivity.
Qed.

(** A mantissa of [53 + d] digits is rounded to its first 53 digits, or to
    the next number, at the exponent [e + d]. *)
Lemma binary_round_shift (m : positive) (e : Z) (d : positive) :
  Z.pos (digits2_pos m) = 53 + Z.pos d ->
  -1074 <= e + Z.pos d <= 971 ->
  Z.pos m / 2 ^ Z.pos d + 1 < 2 ^ 53 ->
  exists p : positive,
    binary_round prec emax false m e = S754_finite false p (e + Z.pos d)
    /\ (Z.pos p = Z.pos m / 2 ^ Z.pos d \/ Z.pos p = Z.pos m / 2 ^ Z.pos d + 1).
Proof.
  intros Hd He Hq.
  unfold binary_round.
  rewrite Hd, fexp_normal by lia.
  unfold shl_align. replace (53 + Z.pos d + e - 53 - e) with (Z.pos d) by lia.
  unfold binary_round_aux. rewrite (shr_fexp_shift m e d Hd) by lia.
  set (mrs := iter_pos shr_1 d (Build_shr_record (Z.pos m) false false)).
  assert (Hm : shr_m mrs = Z.pos m / 2 ^ Z.pos d).
  { unfold mrs. rewrite iter_pos_nat.
    destruct (shr_iter_m (Pos.to_nat d) (Build_shr_record (Z.pos m) false false)) as [E _];
      [cbn; lia |].
    rewrite E. cbn [shr_m]. rewrite positive_nat_Z. reflexivity. }
  pose proof (digits2_pos_bounds m) as Bm. rewrite Hd in Bm.
  assert (Hlow : 2 ^ 52 <= Z.pos m / 2 ^ Z.pos d).
  { apply Z.div_le_lower_bound; [apply Z.pow_pos_nonneg; lia |].
    rewrite <- Z.pow_add_r by lia. replace (Z.pos d + 52) with (53 + Z.pos d - 1) by lia.
    apply Bm. }
  destruct (round_nearest_even_cases (shr_m mrs) (loc_of_shr_record mrs)) as [E | E];
    rewrite E, Hm.
  - destruct (Z.pos m / 2 ^ Z.pos d) as [| p | p] eqn:Eq; try lia.
    assert (Hp : Z.pos (digits2_pos p) = 53) by (apply digits2_pos_unique; lia).
    rewrite (shr_fexp_id p _ Hp) by lia. cbn [shr_m].
    destruct (Z.leb_spec (e + Z.pos d) (emax - prec)); [| unfold emax, prec in *; lia].
    exists p. auto.
  - destruct (Z.pos m / 2 ^ Z.pos d + 1) as [| p | p] eqn:Eq; try lia.
    assert (Hp : Z.pos (digits2_pos p) = 53) by (apply digits2_pos_unique; lia).
    rewrite (shr_fexp_id p _ Hp) by lia. cbn [shr_m].
    destruct (Z.leb_spec (e + Z.pos d) (emax - prec)); [| unfold emax, prec in *; lia].
    exists p. auto.
Qed.


(** *** Rounding to nearest, ties to even *)

Lemma shr_1_spec (m : Z) (r s : bool) :
  0 <= m -> shr_1 (Build_shr_record m r s) = Build_shr_record (m / 2) (Z.odd m) (r || s).
Proof.
  intros Hm. destruct m as [| [p | p |] |]; cbn [shr_1]; try lia.
  - reflexivity.
  - f_equal. rewrite Pos2Z.inj_xI. apply Z.div_unique with (r := 1); lia.
  - f_equal. rewrite Pos2Z.inj_xO. apply Z.div_unique with (r := 0); lia.
  - reflexivity.
Qed.

Lemma odd_mod_2 (a : Z) : a mod 2 = if Z.odd a then 1 else 0.
Proof. rewrite Zmod_odd. reflexivity. Qed.

(** The record after [n + 1] shifts: the quotient, the last bit shifted
    out, and whether a bit shifted out before it was set. *)
Lemma shr_iter_spec (m : Z) (n : nat) :
  0 <= m ->
  Nat.iter (S n) shr_1 (Build_shr_record m false false)
  = Build_shr_record (m / 2 ^ Z.of_nat (S n)) (Z.odd (m / 2 ^ Z.of_nat n))
      (negb (m mod 2 ^ Z.of_nat n =? 0)).
Proof.
  intros Hm. induction n as [| n IH].
  - cbn [Nat.iter]. rewrite shr_1_spec by exact Hm.
    change (2 ^ Z.of_nat 1) with 2. change (2 ^ Z.of_nat 0) with 1.
    rewrite Z.div_1_r, Z.mod_1_r. reflexivity.
  - rewrite Nat.iter_succ, IH.
    assert (Hp : 0 < 2 ^ Z.of_nat n) by (apply Z.pow_pos_nonneg; lia).
    assert (Hq : 0 <= m / 2 ^ Z.of_nat (S n)) by (apply Z.div_pos; [lia | apply Z.pow_pos_nonneg; lia]).
    rewrite shr_1_spec by exact Hq.
    assert (E2 : 2 ^ Z.of_nat (S n) = 2 ^ Z.of_nat n * 2).
    { rewrite Nat2Z.inj_succ, Z.pow_succ_r by lia. lia. }
    f_equal.
    + rewrite Z.div_div by (try apply Z.pow_pos_nonneg; lia).
      f_equal. rewrite (Nat2Z.inj_succ (S n)), Z.pow_succ_r by lia. lia.
    + rewrite E2, Z.rem_mul_r by lia.
      rewrite odd_mod_2.
      pose proof (Z.mod_pos_bound m (2 ^ Z.of_nat n) Hp).
      destruct (Z.odd (m / 2 ^ Z.of_nat n)).
      * cbn [orb]. symmetry. apply negb_true_iff, Z.eqb_neq. lia.
      * cbn [orb]. rewrite Z.mul_0_r, Z.add_0_r. reflexivity.
Qed.

Lemma shr_round (m : Z) (n : nat) :
  0 <= m ->
  let mrs := Nat.iter (S n) shr_1 (Build_shr_record m false false) in
  round_nearest_even (shr_m mrs) (loc_of_shr_record mrs) = roundHalfEven m (Z.of_nat (S n)).
Proof.
  intros Hm mrs. unfold mrs. rewrite shr_iter_spec by exact Hm.
  unfold roundHalfEven. cbn [shr_m loc_of_shr_record].
  assert (Hp : 0 < 2 ^ Z.of_nat n) by (apply Z.pow_pos_nonneg; lia).
  assert (E2 : 2 ^ Z.of_nat (S n) = 2 ^ Z.of_nat n * 2).
  { rewrite Nat2Z.inj_succ, Z.pow_succ_r by lia. lia. }
  rewrite E2, Z.rem_mul_r by lia.
  rewrite odd_mod_2.
  pose proof (Z.mod_pos_bound m (2 ^ Z.of_nat n) Hp) as Hr.
  set (t := m mod 2 ^ Z.of_nat n) in *.
  set (P := 2 ^ Z.of_nat n) in *.
  destruct (Z.odd (m / P)); destruct (Z.eqb_spec t 0) as [E | E]; cbn [negb round_nearest_even].
  - replace (2 * (t + P * 1) ?= P * 2) with Eq; [reflexivity |].
    symmetry. apply Z.compare_eq_iff. lia.
  - replace (2 * (t + P * 1) ?= P * 2) with Gt; [reflexivity |].
    symmetry. apply Z.compare_gt_iff. lia.
  - replace (2 * (t + P * 0) ?= P * 2) with Lt; [reflexivity |].
    symmetry. apply Z.compare_lt_iff. lia.
  - replace (2 * (t + P * 0) ?= P * 2) with Lt; [reflexivity |].
    symmetry. apply Z.compare_lt_iff. lia.
Qed.

Lemma roundHalfEven_cases (m d : Z) :
  roundHalfEven m d = m / 2 ^ d \/ roundHalfEven m d = m / 2 ^ d + 1.
Proof.
  unfold roundHalfEven. destruct (_ ?= _); auto. destruct (Z.even _); auto.
Qed.

(** A mantissa of [53 + d] digits is rounded to 53 digits, to nearest and
    ties to even, at the exponent [e + d]. *)
Lemma binary_round_nearest (m : positive) (e : Z) (d : positive) :
  Z.pos (digits2_pos m) = 53 + Z.pos d ->
  -1074 <= e + Z.pos d <= 971 ->
  Z.pos m / 2 ^ Z.pos d + 1 < 2 ^ 53 ->
  exists p : positive,
    binary_round prec emax false m e = S754_finite false p (e + Z.pos d)
    /\ Z.pos p = roundHalfEven (Z.pos m) (Z.pos d).
Proof.
  intros Hd He Hq.
  unfold binary_round.
  rewrite Hd, fexp_normal by lia.
  unfold shl_align. replace (53 + Z.pos d + e - 53 - e) with (Z.pos d) by lia.
  unfold binary_round_aux. rewrite (shr_fexp_shift m e d Hd) by lia.
  rewrite iter_pos_nat.
  destruct (Pos.to_nat d) as [| n] eqn:En; [lia |].
  rewrite (shr_round (Z.pos m) n) by lia.
  rewrite <- En, positive_nat_Z.
  pose proof (digits2_pos_bounds m) as Bm. rewrite Hd in Bm.
  assert (Hlow : 2 ^ 52 <= Z.pos m / 2 ^ Z.pos d).
  { apply Z.div_le_lower_bound; [apply Z.pow_pos_nonneg; lia |].
    rewrite <- Z.pow_add_r by lia. replace (Z.pos d + 52) with (53 + Z.pos d - 1) by lia.
    apply Bm. }
  destruct (roundHalfEven (Z.pos m) (Z.pos d)) as [| p | p] eqn:Eq;
    [destruct (roundHalfEven_cases (Z.pos m) (Z.pos d)); lia | |
     destruct (roundHalfEven_cases (Z.pos m) (Z.pos d)); lia].
  assert (Hp : Z.pos (digits2_pos p) = 53).
  { apply digits2_pos_unique. destruct (roundHalfEven_cases (Z.pos m) (Z.pos d)); lia. }
  rewrite (shr_fexp_id p _ Hp) by lia. cbn [shr_m].
  destruct (Z.leb_spec (e + Z.pos d) (emax - prec)); [| unfold emax, prec in *; lia].
  exists p. auto.
Qed.


(** A binary64 number between 2 and 25. *)
Lemma float_between_2_25 (o : float) :
  (2 <=? o)%float = true -> (o <=? 25)%float = true ->
  exists (m : positive) (e : Z),
    Prim2SF o = S754_finite false m e
    /\ -51 <= e <= -48
    /\ 2 ^ 52 <= Z.pos m < 2 ^ 53
    /\ Z.pos m <= 25 * 2 ^ (- e).
Proof.
  rewrite !FloatAxioms.leb_spec. intros H2 H25.
  pose proof (Prim2SF_valid o) as Hv.
  change (Prim2SF 2) with (S754_finite false 4503599627370496 (-51)) in H2.
  change (Prim2SF 25) with (S754_finite false 7036874417766400 (-48)) in H25.
  unfold SFleb, SFcompare in H2, H25.
  destruct (Prim2SF o) as [s | s | | s m e]; try discriminate;
    destruct s; try discriminate.
  revert H2 H25.
  rewrite !Pos.compare_cont_spec. unfold Pos.switch_Eq.
  intros H2 H25.
  exists m, e. split; [reflexivity |].
  assert (He : -51 <= e <= -48).
  { destruct (Z.compare_spec (-51) e), (Z.compare_spec e (-48)); try discriminate; lia. }
  split; [exact He |].
  cbn [valid_binary] in Hv. unfold bounded, canonical_mantissa in Hv.
  apply andb_true_iff in Hv. destruct Hv as [Hc _]. apply Z.eqb_eq in Hc.
  rewrite fexp_normal in Hc by lia.
  assert (Hd : Z.pos (digits2_pos m) = 53) by lia.
  pose proof (digits2_pos_bounds m) as B. rewrite Hd in B.
  split; [exact B |].
  destruct (Z.compare_spec e (-48)) as [-> | L | G]; try discriminate.
  - destruct (Pos.compare_spec m 7036874417766400) as [-> | L | G].
    + reflexivity.
    + apply Z.lt_le_incl, Pos2Z.pos_lt_pos. exact L.
    + discriminate.
  - assert (2 ^ 49 <= 2 ^ (- e)) by (apply Z.pow_le_mono_r; lia). lia.
Qed.


(** Replace a closed term by its value, everywhere. *)
Ltac lit t := let v := eval vm_compute in t in change t with v in *.

(** [100 - o] for a binary64 number [o] between 2 and 25: the exact
    difference rounded to a multiple of 2^-46, to nearest and ties to even. *)
Lemma sub_100_nearest (o : float) (m : positive) (e : Z) :
  Prim2SF o = S754_finite false m e ->
  -51 <= e <= -48 ->
  2 ^ 52 <= Z.pos m < 2 ^ 53 ->
  Z.pos m <= 25 * 2 ^ (- e) ->
  exists p : positive,
    Prim2SF (100 - o) = S754_finite false p (-46)
    /\ Z.pos p = roundHalfEven (100 * 2 ^ (- e) - Z.pos m) (- 46 - e).
Proof.
  intros Ho He Hm H25.
  rewrite FloatAxioms.sub_spec, Ho.
  change (Prim2SF 100) with (S754_finite false 7036874417766400 (-46)).
  assert (Hcases : e = -51 \/ e = -50 \/ e = -49 \/ e = -48) by lia.
  lit (2 ^ 52). lit (2 ^ 53).
  destruct Hcases as [-> | [-> | [-> | ->]]].
  - lit (25 * 2 ^ (- -51)). lit (100 * 2 ^ (- -51)).
    change (SF64sub (S754_finite false 7036874417766400 (-46)) (S754_finite false m (-51)))
      with (binary_normalize prec emax (Z.pos 225179981368524800 - Z.pos m) (-51) false).
    destruct (Z.pos 225179981368524800 - Z.pos m) as [| mz | mz] eqn:D; [lia | | lia].
    cbn [binary_normalize].
    destruct (binary_round_nearest mz (-51) 5) as (p & -> & Hp).
    + apply digits2_pos_unique. lit (2 ^ (53 + 5 - 1)). lit (2 ^ (53 + 5)). lia.
    + lia.
    + lit (2 ^ 5).
      assert (Z.pos mz / 32 < 9007199254740991);
        [apply Z.div_lt_upper_bound; lia | lia].
    + exists p. split; [reflexivity |]. rewrite Hp, <- D. reflexivity.
  - lit (25 * 2 ^ (- -50)). lit (100 * 2 ^ (- -50)).
    change (SF64sub (S754_finite false 7036874417766400 (-46)) (S754_finite false m (-50)))
      with (binary_normalize prec emax (Z.pos 112589990684262400 - Z.pos m) (-50) false).
    destruct (Z.pos 112589990684262400 - Z.pos m) as [| mz | mz] eqn:D; [lia | | lia].
    cbn [binary_normalize].
    destruct (binary_round_nearest mz (-50) 4) as (p & -> & Hp).
    + apply digits2_pos_unique. lit (2 ^ (53 + 4 - 1)). lit (2 ^ (53 + 4)). lia.
    + lia.
    + lit (2 ^ 4).
      assert (Z.pos mz / 16 < 9007199254740991);
        [apply Z.div_lt_upper_bound; lia | lia].
    + exists p. split; [reflexivity |]. rewrite Hp, <- D. reflexivity.
  - lit (25 * 2 ^ (- -49)). lit (100 * 2 ^ (- -49)).
    change (SF64sub (S754_finite false 7036874417766400 (-46)) (S754_finite false m (-49)))
      with (binary_normalize prec emax (Z.pos 56294995342131200 - Z.pos m) (-49) false).
    destruct (Z.pos 56294995342131200 - Z.pos m) as [| mz | mz] eqn:D; [lia | | lia].
    cbn [binary_normalize].
    destruct (binary_round_nearest mz (-49) 3) as (p & -> & Hp).
    + apply digits2_pos_unique. lit (2 ^ (53 + 3 - 1)). lit (2 ^ (53 + 3)). lia.
    + lia.
    + lit (2 ^ 3).
      assert (Z.pos mz / 8 < 9007199254740991);
        [apply Z.div_lt_upper_bound; lia | lia].
    + exists p. split; [reflexivity |]. rewrite Hp, <- D. reflexivity.
  - lit (25 * 2 ^ (- -48)). lit (100 * 2 ^ (- -48)).
    change (SF64sub (S754_finite false 7036874417766400 (-46)) (S754_finite false m (-48)))
      with (binary_normalize prec emax (Z.pos 28147497671065600 - Z.pos m) (-48) false).
    destruct (Z.pos 28147497671065600 - Z.pos m) as [| mz | mz] eqn:D; [lia | | lia].
    cbn [binary_normalize].
    destruct (binary_round_nearest mz (-48) 2) as (p & -> & Hp).
    + apply digits2_pos_unique. lit (2 ^ (53 + 2 - 1)). lit (2 ^ (53 + 2)). lia.
    + lia.
    + lit (2 ^ 2).
      assert (Z.pos mz / 4 < 9007199254740991);
        [apply Z.div_lt_upper_bound; lia | lia].
    + exists p. split; [reflexivity |]. rewrite Hp, <- D. reflexivity.
Qed.

(** [100 - o] is the multiple of 2^-46 next below or next above the exact
    difference. *)
Lemma sub_100_spec (o : float) (m : positive) (e : Z) :
  Prim2SF o = S754_finite false m e ->
  -51 <= e <= -48 ->
  2 ^ 52 <= Z.pos m < 2 ^ 53 ->
  Z.pos m <= 25 * 2 ^ (- e) ->
  exists p : positive,
    Prim2SF (100 - o) = S754_finite false p (-46)
    /\ let q := (100 * 2 ^ (- e) - Z.pos m) / 2 ^ (- 46 - e) in
       Z.pos p = q \/ Z.pos p = q + 1.
Proof.
  intros Ho He Hm H25.
  destruct (sub_100_nearest o m e Ho He Hm H25) as (p & Hs & Hp).
  exists p. split; [exact Hs |]. cbv zeta. rewrite Hp. apply roundHalfEven_cases.
Qed.

(** Name a quotient and recall what defines it, for [lia]. *)
Ltac div_fact a b :=
  let q := fresh "q" in
  let Hq := fresh "Hq" in
  pose proof (Z.div_mod a b ltac:(lia));
  pose proof (Z.mod_pos_bound a b ltac:(lia));
  remember (a / b) as q eqn:Hq; clear Hq;
  generalize dependent (a mod b); intros.

Ltac div_facts :=
  repeat match goal with
         | |- context [?a / ?b] => div_fact a b
         | H : context [?a / ?b] |- _ => div_fact a b
         end.

(** *** Magnitudes: sums and products of bounded numbers are numbers *)

Lemma below_mono (B B' : Z) (x : spec_float) : B <= B' -> below B x -> below B' x.
Proof.
  intros HB. destruct x as [s | s | | s m e]; cbn [below]; auto.
  intros H. apply Z.lt_le_trans with (1 := H). apply Z.pow_le_mono_r; lia.
Qed.

Lemma pow2_pos_exp (a n : Z) : a < 2 ^ n -> 0 <= a -> 0 <= n.
Proof.
  intros H Ha. destruct (Z.leb_spec 0 n); [assumption |].
  rewrite Z.pow_neg_r in H by lia. lia.
Qed.

Lemma Zdigits2_le (m N : Z) : 0 <= m <= 2 ^ N -> 0 <= N -> Zdigits2 m <= N + 1.
Proof.
  intros [H0 H] HN. destruct m as [| p | p]; cbn [Zdigits2]; try lia.
  pose proof (digits2_pos_bounds p) as [B _].
  assert (Hle : 2 ^ (Z.pos (digits2_pos p) - 1) <= 2 ^ N) by lia.
  apply Z.pow_le_mono_r_iff in Hle; lia.
Qed.

Lemma shr_fexp_spec (m e : Z) (l : location) :
  0 <= m ->
  exists (k : Z) (mrs : shr_record),
    0 <= k
    /\ shr_fexp prec emax m e l = (mrs, e + k)
    /\ shr_m mrs = m / 2 ^ k
    /\ e + k = Z.max e (fexp prec emax (Zdigits2 m + e)).
Proof.
  intros Hm. unfold shr_fexp, shr.
  assert (Hr : shr_m (shr_record_of_loc m l) = m) by (destruct l as [| []]; reflexivity).
  destruct (fexp prec emax (Zdigits2 m + e) - e) as [| p | p] eqn:E.
  - exists 0, (shr_record_of_loc m l). rewrite Hr, Z.div_1_r, Z.add_0_r.
    repeat split; lia.
  - exists (Z.pos p), (iter_pos shr_1 p (shr_record_of_loc m l)).
    split; [lia |]. split; [reflexivity |]. split; [| lia].
    rewrite iter_pos_nat.
    destruct (shr_iter_m (Pos.to_nat p) (shr_record_of_loc m l)) as [Eq _]; [lia |].
    rewrite Eq, Hr, positive_nat_Z. reflexivity.
  - exists 0, (shr_record_of_loc m l). rewrite Hr, Z.div_1_r, Z.add_0_r.
    repeat split; lia.
Qed.

Lemma div_pow2_lt (m k N : Z) :
  0 <= m < 2 ^ N -> 0 <= k <= N -> m / 2 ^ k < 2 ^ (N - k).
Proof.
  intros Hm Hk. apply Z.div_lt_upper_bound; [apply Z.pow_pos_nonneg; lia |].
  rewrite <- Z.pow_add_r by lia. replace (k + (N - k)) with N by lia. lia.
Qed.

Lemma div_pow2_le (m k N : Z) :
  0 <= m <= 2 ^ N -> 0 <= k <= N -> m / 2 ^ k <= 2 ^ (N - k).
Proof.
  intros Hm Hk.
  assert (Hp : 0 < 2 ^ k) by (apply Z.pow_pos_nonneg; lia).
  apply Z.div_le_upper_bound; [exact Hp |].
  rewrite <- Z.pow_add_r by lia. replace (k + (N - k)) with N by lia. lia.
Qed.

Lemma fexp_le (z B : Z) : z <= B + 53 -> -1074 <= B -> fexp prec emax z <= B.
Proof. unfold fexp, emin, prec, emax. lia. Qed.

(** Rounding a number below [2 ^ B] gives a number below [2 ^ (B + 1)]: no
    overflow as long as [B] is far from the largest exponent. *)
Lemma binary_round_aux_below (s : bool) (m : positive) (e : Z) (l : location) (B : Z) :
  -1074 <= B <= 971 ->
  Z.pos m < 2 ^ (B - e) ->
  below (B + 1) (binary_round_aux prec emax s (Z.pos m) e l).
Proof.
  intros HB Hm.
  assert (HBe : 0 <= B - e) by (apply (pow2_pos_exp (Z.pos m)); lia).
  unfold binary_round_aux.
  destruct (shr_fexp_spec (Z.pos m) e l) as (k & mrs & Hk & -> & Hq & Ee); [lia |].
  assert (Hd : Zdigits2 (Z.pos m) <= B - e + 1) by (apply Zdigits2_le; lia).
  assert (Hk' : e + k <= B).
  { rewrite Ee. apply Z.max_lub; [lia |]. apply fexp_le; lia. }
  set (m1 := round_nearest_even (shr_m mrs) (loc_of_shr_record mrs)).
  assert (Hm1 : 0 <= m1 <= 2 ^ (B - (e + k))).
  { assert (Hq' : 0 <= shr_m mrs < 2 ^ (B - e - k)).
    { rewrite Hq. split; [apply Z.div_pos; [lia | apply Z.pow_pos_nonneg; lia] |].
      apply div_pow2_lt; lia. }
    replace (B - (e + k)) with (B - e - k) by lia.
    unfold m1.
    destruct (round_nearest_even_cases (shr_m mrs) (loc_of_shr_record mrs)) as [-> | ->];
      lia. }
  destruct (shr_fexp_spec m1 (e + k) loc_Exact) as (k2 & mrs2 & Hk2 & -> & Hq2 & Ee2); [lia |].
  assert (Hd1 : Zdigits2 m1 <= B - (e + k) + 1) by (apply Zdigits2_le; lia).
  assert (Hk2' : e + k + k2 <= B).
  { rewrite Ee2. apply Z.max_lub; [lia |]. apply fexp_le; lia. }
  assert (Hp : 0 <= shr_m mrs2 <= 2 ^ (B - (e + k + k2))).
  { rewrite Hq2. split; [apply Z.div_pos; [lia | apply Z.pow_pos_nonneg; lia] |].
    replace (B - (e + k + k2)) with (B - (e + k) - k2) by lia.
    apply div_pow2_le; lia. }
  destruct (shr_m mrs2) as [| p | p]; [exact I | | lia].
  destruct (Z.leb_spec (e + k + k2) (emax - prec)) as [_ | Hov];
    [| unfold emax, prec in Hov; lia].
  cbn [below].
  replace (B + 1 - (e + k + k2)) with (Z.succ (B - (e + k + k2))) by lia.
  rewrite Z.pow_succ_r by lia.
  assert (0 < 2 ^ (B - (e + k + k2))) by (apply Z.pow_pos_nonneg; lia).
  lia.
Qed.

Lemma mul_below (x y : spec_float) (Bx By : Z) :
  below Bx x -> below By y -> -1074 <= Bx + By <= 971 ->
  below (Bx + By + 1) (SFmul prec emax x y).
Proof.
  intros Hx Hy HB.
  destruct x as [sx | sx | | sx mx ex], y as [sy | sy | | sy my ey];
    cbn [below] in Hx, Hy; try contradiction; try exact I.
  cbn [SFmul]. apply binary_round_aux_below; [exact HB |].
  assert (0 <= Bx - ex) by (apply (pow2_pos_exp (Z.pos mx)); lia).
  assert (0 <= By - ey) by (apply (pow2_pos_exp (Z.pos my)); lia).
  replace (Bx + By - (ex + ey)) with ((Bx - ex) + (By - ey)) by lia.
  rewrite Z.pow_add_r by lia. rewrite Pos2Z.inj_mul.
  apply Z.mul_lt_mono_nonneg; lia.
Qed.

Lemma iter_xO (m d : positive) : Z.pos (Pos.iter xO m d) = Z.pos m * 2 ^ Z.pos d.
Proof.
  induction d as [| d IH] using Pos.peano_ind.
  - cbn [Pos.iter]. rewrite Pos2Z.inj_xO. change (2 ^ 1) with 2. lia.
  - rewrite Pos.iter_succ, Pos2Z.inj_xO, IH, Pos2Z.inj_succ, Z.pow_succ_r by lia. lia.
Qed.

Lemma shl_align_spec (mx : positive) (ex ex' : Z) :
  let '(mz, ez) := shl_align mx ex ex' in
  ez <= ex /\ ez = Z.min ex ex' /\ Z.pos mz = Z.pos mx * 2 ^ (ex - ez).
Proof.
  unfold shl_align. destruct (ex' - ex) as [| d | d] eqn:E.
  - rewrite Z.sub_diag. change (2 ^ 0) with 1. lia.
  - rewrite Z.sub_diag. change (2 ^ 0) with 1. lia.
  - rewrite iter_xO. replace (ex - ex') with (Z.pos d) by lia. lia.
Qed.

Lemma binary_round_below (s : bool) (m : positive) (e B : Z) :
  -1074 <= B <= 971 ->
  Z.pos m < 2 ^ (B - e) ->
  below (B + 1) (binary_round prec emax s m e).
Proof.
  intros HB Hm.
  assert (HBe : 0 <= B - e) by (apply (pow2_pos_exp (Z.pos m)); lia).
  unfold binary_round.
  pose proof (shl_align_spec m e (fexp prec emax (Z.pos (digits2_pos m) + e))) as Hs.
  destruct (shl_align m e (fexp prec emax (Z.pos (digits2_pos m) + e))) as [mz ez].
  destruct Hs as (Hle & _ & Hmz).
  apply binary_round_aux_below; [exact HB |].
  rewrite Hmz. replace (B - ez) with ((B - e) + (e - ez)) by lia.
  rewrite Z.pow_add_r by lia.
  apply Z.mul_lt_mono_pos_r; [apply Z.pow_pos_nonneg; lia | exact Hm].
Qed.

Lemma add_below (x y : spec_float) (B : Z) :
  below B x -> below B y -> -1074 <= B <= 970 ->
  below (B + 2) (SFadd prec emax x y).
Proof.
  intros Hx Hy HB.
  destruct x as [sx | sx | | sx mx ex], y as [sy | sy | | sy my ey];
    cbn [below] in Hx, Hy; try contradiction.
  - cbn [SFadd]. destruct sx, sy; exact I.
  - cbn [SFadd below]. apply Z.lt_le_trans with (1 := Hy). apply Z.pow_le_mono_r; lia.
  - cbn [SFadd below]. apply Z.lt_le_trans with (1 := Hx). apply Z.pow_le_mono_r; lia.
  - cbn [SFadd].
    assert (0 <= B - ex) by (apply (pow2_pos_exp (Z.pos mx)); lia).
    assert (0 <= B - ey) by (apply (pow2_pos_exp (Z.pos my)); lia).
    pose proof (shl_align_spec mx ex (Z.min ex ey)) as Hsx.
    pose proof (shl_align_spec my ey (Z.min ex ey)) as Hsy.
    destruct (shl_align mx ex (Z.min ex ey)) as [mx' ex'].
    destruct (shl_align my ey (Z.min ex ey)) as [my' ey'].
    destruct Hsx as (_ & Ex & Hmx). destruct Hsy as (_ & Ey & Hmy).
    cbn [fst].
    set (ez := Z.min ex ey) in *.
    assert (Eex : ex' = ez) by lia. assert (Eey : ey' = ez) by lia.
    clear Ex Ey. subst ex' ey'.
    assert (Hmx' : Z.pos mx' < 2 ^ (B - ez)).
    { rewrite Hmx. replace (B - ez) with ((B - ex) + (ex - ez)) by lia.
      rewrite Z.pow_add_r by lia.
      apply Z.mul_lt_mono_pos_r; [apply Z.pow_pos_nonneg; lia | exact Hx]. }
    assert (Hmy' : Z.pos my' < 2 ^ (B - ez)).
    { rewrite Hmy. replace (B - ez) with ((B - ey) + (ey - ez)) by lia.
      rewrite Z.pow_add_r by lia.
      apply Z.mul_lt_mono_pos_r; [apply Z.pow_pos_nonneg; lia | exact Hy]. }
    assert (Hz : Z.abs (cond_Zopp sx (Z.pos mx') + cond_Zopp sy (Z.pos my')) < 2 ^ (B + 1 - ez)).
    { replace (B + 1 - ez) with (Z.succ (B - ez)) by lia.
      rewrite Z.pow_succ_r by lia.
      destruct sx, sy; cbn [cond_Zopp]; lia. }
    destruct (cond_Zopp sx (Z.pos mx') + cond_Zopp sy (Z.pos my')) as [| z | z];
      cbn [binary_normalize]; [exact I | |].
    + replace (B + 2) with (B + 1 + 1) by lia.
      apply binary_round_below; [lia | exact Hz].
    + replace (B + 2) with (B + 1 + 1) by lia.
      apply binary_round_below; [lia | exact Hz].
Qed.

(** *** Binary64 numbers and their comparisons *)

Lemma is_nan_below (x : float) (B : Z) : below B (Prim2SF x) -> PrimFloat.is_nan x = false.
Proof.
  intros H. unfold PrimFloat.is_nan. rewrite FloatAxioms.eqb_spec. unfold SFeqb, SFcompare.
  destruct (Prim2SF x) as [s | s | | s m e]; cbn [below] in H; try contradiction.
  - reflexivity.
  - rewrite Z.compare_refl, Pos.compare_cont_refl. destruct s; reflexivity.
Qed.

Lemma valid_mantissa (x : float) (s : bool) (m : positive) (e : Z) :
  Prim2SF x = S754_finite s m e -> Z.pos m < 2 ^ 53.
Proof.
  intros Hx. pose proof (Prim2SF_valid x) as Hv. rewrite Hx in Hv.
  cbn [valid_binary] in Hv. unfold bounded, canonical_mantissa in Hv.
  apply andb_true_iff in Hv. destruct Hv as [Hc _]. apply Z.eqb_eq in Hc.
  unfold fexp, emin, prec, emax in Hc.
  pose proof (digits2_pos_bounds m) as [_ B].
  apply Z.lt_le_trans with (1 := B). apply Z.pow_le_mono_r; lia.
Qed.

(** A number between -1 and 1 is below 2. *)
Lemma below_unit (x : float) :
  (-1 <=? x)%float = true -> (x <=? 1)%float = true -> below 1 (Prim2SF x).
Proof.
  rewrite !FloatAxioms.leb_spec. intros Hlo Hhi.
  pose proof (valid_mantissa x) as Hv.
  change (Prim2SF (-1)) with (S754_finite true 4503599627370496 (-52)) in Hlo.
  change (Prim2SF 1) with (S754_finite false 4503599627370496 (-52)) in Hhi.
  unfold SFleb, SFcompare in Hlo, Hhi.
  destruct (Prim2SF x) as [s | s | | s m e]; try discriminate.
  - exact I.
  - destruct s; discriminate.
  - specialize (Hv s m e eq_refl). cbn [below].
    assert (He : e <= -52).
    { destruct s.
      - destruct (Z.compare_spec (-52) e); try discriminate; lia.
      - destruct (Z.compare_spec e (-52)); try discriminate; lia. }
    apply Z.lt_le_trans with (1 := Hv). apply Z.pow_le_mono_r; lia.
Qed.

Lemma float_ltb_leb (x y : float) : (x <? y)%float = true -> (x <=? y)%float = true.
Proof.
  rewrite FloatAxioms.ltb_spec, FloatAxioms.leb_spec. unfold SFltb, SFleb.
  destruct (SFcompare (Prim2SF x) (Prim2SF y)) as [[| |] |]; congruence.
Qed.

Lemma below_unit_interval (x : float) :
  (0 <=? x)%float = true -> (x <? 1)%float = true -> below 1 (Prim2SF x).
Proof.
  intros H0 H1. apply below_unit; [| apply float_ltb_leb; exact H1].
  revert H0. rewrite !FloatAxioms.leb_spec.
  change (Prim2SF (-1)) with (S754_finite true 4503599627370496 (-52)).
  change (Prim2SF 0) with (S754_zero false).
  unfold SFleb, SFcompare.
  destruct (Prim2SF x) as [s | s | | s m e]; try discriminate; try reflexivity.
  - destruct s; [discriminate | reflexivity].
  - destruct s; [discriminate | reflexivity].
Qed.

Lemma mul64_below (x y : float) (Bx By : Z) :
  below Bx (Prim2SF x) -> below By (Prim2SF y) -> -1074 <= Bx + By <= 971 ->
  below (Bx + By + 1) (Prim2SF (x * y)).
Proof. intros Hx Hy HB. rewrite FloatAxioms.mul_spec. apply mul_below; assumption. Qed.

Lemma add64_below (x y : float) (B : Z) :
  below B (Prim2SF x) -> below B (Prim2SF y) -> -1074 <= B <= 970 ->
  below (B + 2) (Prim2SF (x + y)).
Proof. intros Hx Hy HB. rewrite FloatAxioms.add_spec. apply add_below; assumption. Qed.

(** The clamp: whatever number [v] is, [Math.max(2, Math.min(25, v))] is at
    least 2 and at most 25. *)
Lemma clamp_bounds (v : float) :
  PrimFloat.is_nan v = false ->
  (2 <=? Math_max 2 (Math_min 25 v))%float = true
  /\ (Math_max 2 (Math_min 25 v) <=? 25)%float = true.
Proof.
  intros Hv.
  assert (Hmin : Math_min 25 v = 25%float
                 \/ (Math_min 25 v = v /\ (v <? 25)%float = true)).
  { unfold Math_min. rewrite Hv. cbn [orb PrimFloat.is_nan].
    change (PrimFloat.is_nan 25) with false. cbn [orb].
    destruct (25 <? v)%float; [left; reflexivity |].
    destruct (v <? 25)%float; [right; split; reflexivity |].
    left. reflexivity. }
  destruct Hmin as [-> | [-> Hlt]].
  - split; reflexivity.
  - unfold Math_max. change (PrimFloat.is_nan 2) with false. rewrite Hv. cbn [orb].
    destruct (2 <? v)%float eqn:H2.
    + split; apply float_ltb_leb; assumption.
    + destruct (v <? 2)%float; split; reflexivity.
Qed.

(** A number between 2 and 25 is above 0 and below 100. *)
Lemma between_2_25_inside (o : float) :
  (2 <=? o)%float = true -> (o <=? 25)%float = true ->
  (0 <? o)%float = true /\ (o <? 100)%float = true.
Proof.
  intros H2 H25.
  destruct (float_between_2_25 o H2 H25) as (m & e & Ho & He & _).
  rewrite !FloatAxioms.ltb_spec, Ho.
  change (Prim2SF 0) with (S754_zero false).
  change (Prim2SF 100) with (S754_finite false 7036874417766400 (-46)).
  split; [reflexivity |].
  unfold SFltb, SFcompare.
  destruct (Z.compare_spec e (-46)); [lia | reflexivity | lia].
Qed.

(** *** The text of a number with two decimals *)

Lemma toFixed2_finite `{JsHost} (x : float) (m : positive) (e : Z) :
  Prim2SF x = S754_finite false m e -> e < 0 ->
  toFixed2 x = decimal2 (hundredths m e).
Proof.
  intros Hx He. pose proof (valid_mantissa x false m e Hx) as Hm.
  unfold toFixed2. rewrite Hx.
  assert (Hsmall : atLeast1e21 m e = false).
  { unfold atLeast1e21. destruct (Z.leb_spec 0 e); [lia |].
    apply Z.leb_gt.
    assert (1 <= 2 ^ (- e)) by (assert (0 < 2 ^ (- e)) by (apply Z.pow_pos_nonneg; lia); lia).
    lit (2 ^ 53). lit (10 ^ 21).
    assert (1000000000000000000000 * 1 <= 1000000000000000000000 * 2 ^ (- e))
      by (apply Z.mul_le_mono_nonneg_l; lia).
    lia. }
  rewrite Hsmall. reflexivity.
Qed.

(** The texts of [100 - o] and of [o] with two decimals, for [o] between 2
    and 25: the two numbers written add up to 100 within one hundredth. *)
Lemma formatted_sum `{JsHost} (o : float) :
  (2 <=? o)%float = true -> (o <=? 25)%float = true ->
  exists n1 n2 : Z,
    toFixed2 (100 - o) = decimal2 n1 /\ toFixed2 o = decimal2 n2
    /\ 9999 <= n1 + n2 <= 10001.
Proof.
  intros H2 H25.
  destruct (float_between_2_25 o H2 H25) as (m & e & Ho & He & Hm & Hle).
  destruct (sub_100_spec o m e Ho He Hm Hle) as (p & Hs & Hp).
  exists (hundredths p (-46)), (hundredths m e).
  split; [apply toFixed2_finite; [exact Hs | lia] |].
  split; [apply toFixed2_finite; [exact Ho | lia] |].
  cbv zeta in Hp.
  change (hundredths p (-46)) with ((200 * Z.pos p + 70368744177664) / 140737488355328).
  lit (2 ^ 52). lit (2 ^ 53).
  assert (Hcases : e = -51 \/ e = -50 \/ e = -49 \/ e = -48) by lia.
  destruct Hcases as [-> | [-> | [-> | ->]]].
  - lit (25 * 2 ^ (- -51)). lit (100 * 2 ^ (- -51)). lit (2 ^ (-46 - -51)).
    change (hundredths m (-51)) with ((200 * Z.pos m + 2251799813685248) / 4503599627370496).
    div_facts; lia.
  - lit (25 * 2 ^ (- -50)). lit (100 * 2 ^ (- -50)). lit (2 ^ (-46 - -50)).
    change (hundredths m (-50)) with ((200 * Z.pos m + 1125899906842624) / 2251799813685248).
    div_facts; lia.
  - lit (25 * 2 ^ (- -49)). lit (100 * 2 ^ (- -49)). lit (2 ^ (-46 - -49)).
    change (hundredths m (-49)) with ((200 * Z.pos m + 562949953421312) / 1125899906842624).
    div_facts; lia.
  - lit (25 * 2 ^ (- -48)). lit (100 * 2 ^ (- -48)). lit (2 ^ (-46 - -48)).
    change (hundredths m (-48)) with ((200 * Z.pos m + 281474976710656) / 562949953421312).
    div_facts; lia.
Qed.

(** Rounding [a * 2^d - m] to a multiple of [2^d] and adding [m] back gives
    a number that rounds to [a * 2^d], when [a] is even: the first rounding
    moves the number by a half of [2^d] at most, and at exactly a half the
    second rounding takes the even neighbour. *)
Lemma roundHalfEven_back (a m d : Z) :
  0 < d -> Z.even a = true ->
  roundHalfEven (roundHalfEven (a * 2 ^ d - m) d * 2 ^ d + m) d = a.
Proof.
  intros Hd Ha.
  assert (HP : 0 < 2 ^ d) by (apply Z.pow_pos_nonneg; lia).
  set (P := 2 ^ d) in *.
  set (D := a * P - m).
  pose proof (Z.div_mod D P ltac:(lia)) as HD.
  pose proof (Z.mod_pos_bound D P HP) as Hr.
  assert (Hround : forall Q R, 0 <= R < P ->
            roundHalfEven (Q * P + R) d
            = match 2 * R ?= P with
              | Lt => Q
              | Eq => if Z.even Q then Q else Q + 1
              | Gt => Q + 1
              end).
  { intros Q R HR. unfold roundHalfEven. fold P.
    rewrite Z.div_add_l by lia.
    rewrite (Z.add_comm (Q * P) R), Z.mod_add by lia.
    rewrite Z.div_small, Z.mod_small by lia. rewrite Z.add_0_r. reflexivity. }
  assert (Hm : m = a * P - D) by (unfold D; lia).
  assert (HDr : roundHalfEven D d
                = match 2 * (D mod P) ?= P with
                  | Lt => D / P
                  | Eq => if Z.even (D / P) then D / P else D / P + 1
                  | Gt => D / P + 1
                  end) by reflexivity.
  fold D. rewrite HDr. clear HDr.
  set (q := D / P) in *. set (r := D mod P) in *.
  assert (Hodd : Z.even (a - 1) = false).
  { rewrite Z.even_sub, Ha. reflexivity. }
  destruct (Z.compare_spec (2 * r) P) as [E | L | G].
  - destruct (Z.even q).
    + replace (q * P + m) with ((a - 1) * P + r) by nia.
      rewrite Hround by lia.
      rewrite (proj2 (Z.compare_eq_iff _ _) E), Hodd. lia.
    + replace ((q + 1) * P + m) with (a * P + r) by nia.
      rewrite Hround by lia.
      rewrite (proj2 (Z.compare_eq_iff _ _) E), Ha. reflexivity.
  - destruct (Z.eq_dec r 0) as [Z | NZ].
    + replace (q * P + m) with (a * P + 0) by nia.
      rewrite Hround by lia.
      rewrite (proj2 (Z.compare_lt_iff _ _)) by lia. reflexivity.
    + replace (q * P + m) with ((a - 1) * P + (P - r)) by nia.
      rewrite Hround by lia.
      rewrite (proj2 (Z.compare_gt_iff _ _)) by lia. lia.
  - replace ((q + 1) * P + m) with (a * P + (P - r)) by nia.
    rewrite Hround by lia.
    rewrite (proj2 (Z.compare_lt_iff _ _)) by lia. reflexivity.
Qed.

(** *** Taking a number from 100 and adding it back *)

(** [(100 - o) + o] is 100 for every binary64 number [o] between 2 and 25:
    the difference is rounded, and the sum rounds back to 100. *)
Lemma sub_add_100 (o : float) :
  (2 <=? o)%float = true -> (o <=? 25)%float = true ->
  (100 - o + o)%float = 100%float.
Proof.
  intros H2 H25.
  destruct (float_between_2_25 o H2 H25) as (m & e & Ho & He & Hm & Hle).
  destruct (sub_100_nearest o m e Ho He Hm Hle) as (p & Hs & Hp).
  apply Prim2SF_inj.
  rewrite FloatAxioms.add_spec, Hs, Ho.
  change (Prim2SF 100) with (S754_finite false 7036874417766400 (-46)).
  assert (Hcases : e = -51 \/ e = -50 \/ e = -49 \/ e = -48) by lia.
  assert (Hback : forall d, 0 < d ->
            roundHalfEven (roundHalfEven (7036874417766400 * 2 ^ d - Z.pos m) d * 2 ^ d + Z.pos m) d
            = 7036874417766400)
    by (intros d Hd; apply roundHalfEven_back; [exact Hd | reflexivity]).
  lit (2 ^ 52). lit (2 ^ 53).
  destruct Hcases as [-> | [-> | [-> | ->]]].
  - specialize (Hback 5 ltac:(lia)).
    lit (25 * 2 ^ (- -51)). lit (100 * 2 ^ (- -51)). lit (-46 - -51).
    lit (7036874417766400 * 2 ^ 5).
    rewrite <- Hp in Hback.
    pose proof (roundHalfEven_cases (225179981368524800 - Z.pos m) 5) as Hc.
    rewrite <- Hp in Hc. lit (2 ^ 5).
    change (SF64add (S754_finite false p (-46)) (S754_finite false m (-51)))
      with (binary_round prec emax false (Pos.iter xO p 5 + m) (-51)).
    assert (HS : Z.pos (Pos.iter xO p 5 + m) = Z.pos p * 32 + Z.pos m).
    { rewrite Pos2Z.inj_add, iter_xO. reflexivity. }
    destruct (binary_round_nearest (Pos.iter xO p 5 + m) (-51) 5) as (r & -> & Hr).
    + apply digits2_pos_unique. rewrite HS.
      lit (2 ^ (53 + 5 - 1)). lit (2 ^ (53 + 5)). div_facts; lia.
    + lia.
    + rewrite HS. lit (2 ^ 5).
      assert ((Z.pos p * 32 + Z.pos m) / 32 < 9007199254740991);
        [apply Z.div_lt_upper_bound; div_facts; lia | lia].
    + rewrite HS in Hr. lit (2 ^ 5). rewrite Hback in Hr.
      injection Hr as ->. reflexivity.
  - specialize (Hback 4 ltac:(lia)).
    lit (25 * 2 ^ (- -50)). lit (100 * 2 ^ (- -50)). lit (-46 - -50).
    lit (7036874417766400 * 2 ^ 4).
    rewrite <- Hp in Hback.
    pose proof (roundHalfEven_cases (112589990684262400 - Z.pos m) 4) as Hc.
    rewrite <- Hp in Hc. lit (2 ^ 4).
    change (SF64add (S754_finite false p (-46)) (S754_finite false m (-50)))
      with (binary_round prec emax false (Pos.iter xO p 4 + m) (-50)).
    assert (HS : Z.pos (Pos.iter xO p 4 + m) = Z.pos p * 16 + Z.pos m).
    { rewrite Pos2Z.inj_add, iter_xO. reflexivity. }
    destruct (binary_round_nearest (Pos.iter xO p 4 + m) (-50) 4) as (r & -> & Hr).
    + apply digits2_pos_unique. rewrite HS.
      lit (2 ^ (53 + 4 - 1)). lit (2 ^ (53 + 4)). div_facts; lia.
    + lia.
    + rewrite HS. lit (2 ^ 4).
      assert ((Z.pos p * 16 + Z.pos m) / 16 < 9007199254740991);
        [apply Z.div_lt_upper_bound; div_facts; lia | lia].
    + rewrite HS in Hr. lit (2 ^ 4). rewrite Hback in Hr.
      injection Hr as ->. reflexivity.
  - specialize (Hback 3 ltac:(lia)).
    lit (25 * 2 ^ (- -49)). lit (100 * 2 ^ (- -49)). lit (-46 - -49).
    lit (7036874417766400 * 2 ^ 3).
    rewrite <- Hp in Hback.
    pose proof (roundHalfEven_cases (56294995342131200 - Z.pos m) 3) as Hc.
    rewrite <- Hp in Hc. lit (2 ^ 3).
    change (SF64add (S754_finite false p (-46)) (S754_finite false m (-49)))
      with (binary_round prec emax false (Pos.iter xO p 3 + m) (-49)).
    assert (HS : Z.pos (Pos.iter xO p 3 + m) = Z.pos p * 8 + Z.pos m).
    { rewrite Pos2Z.inj_add, iter_xO. reflexivity. }
    destruct (binary_round_nearest (Pos.iter xO p 3 + m) (-49) 3) as (r & -> & Hr).
    + apply digits2_pos_unique. rewrite HS.
      lit (2 ^ (53 + 3 - 1)). lit (2 ^ (53 + 3)). div_facts; lia.
    + lia.
    + rewrite HS. lit (2 ^ 3).
      assert ((Z.pos p * 8 + Z.pos m) / 8 < 9007199254740991);
        [apply Z.div_lt_upper_bound; div_facts; lia | lia].
    + rewrite HS in Hr. lit (2 ^ 3). rewrite Hback in Hr.
      injection Hr as ->. reflexivity.
  - specialize (Hback 2 ltac:(lia)).
    lit (25 * 2 ^ (- -48)). lit (100 * 2 ^ (- -48)). lit (-46 - -48).
    lit (7036874417766400 * 2 ^ 2).
    rewrite <- Hp in Hback.
    pose proof (roundHalfEven_cases (28147497671065600 - Z.pos m) 2) as Hc.
    rewrite <- Hp in Hc. lit (2 ^ 2).
    change (SF64add (S754_finite false p (-46)) (S754_finite false m (-48)))
      with (binary_round prec emax false (Pos.iter xO p 2 + m) (-48)).
    assert (HS : Z.pos (Pos.iter xO p 2 + m) = Z.pos p * 4 + Z.pos m).
    { rewrite Pos2Z.inj_add, iter_xO. reflexivity. }
    destruct (binary_round_nearest (Pos.iter xO p 2 + m) (-48) 2) as (r & -> & Hr).
    + apply digits2_pos_unique. rewrite HS.
      lit (2 ^ (53 + 2 - 1)). lit (2 ^ (53 + 2)). div_facts; lia.
    + lia.
    + rewrite HS. lit (2 ^ 2).
      assert ((Z.pos p * 4 + Z.pos m) / 4 < 9007199254740991);
        [apply Z.div_lt_upper_bound; div_facts; lia | lia].
    + rewrite HS in Hr. lit (2 ^ 2). rewrite Hback in Hr.
      injection Hr as ->. reflexivity.
Qed.

End Binary64.

(** ** The tear geometry *)

Section Tear.
Import JS TearEffect.
Context `{host : JsHost}.
Local Open Scope string_scope.
Local Open Scope float_scope.

Lemma for_loop_spec (random : nat -> float) (remaining i : nat) (points : list float) :
  for_loop random remaining i points
  = (points ++ map (fun k => tearPoint k (random k)) (seq i remaining))%list.
Proof.
  revert i points. induction remaining as [| n IH]; intros i points; cbn [for_loop seq map].
  - now rewrite app_nil_r.
  - rewrite IH. unfold push. rewrite <- app_assoc. reflexivity.
Qed.

Lemma tearPoints_spec (random : nat -> float) :
  tearPoints random = map (fun k => tearPoint k (random k)) (seq 0 (pointsCount + 1)).
Proof. unfold tearPoints. rewrite for_loop_spec. reflexivity. Qed.

Lemma tearPoints_length (random : nat -> float) :
  List.length (tearPoints random) = 81%nat.
Proof. rewrite tearPoints_spec, length_map, length_seq. reflexivity. Qed.

Lemma tearPoints_nth (random : nat -> float) (i : nat) :
  (i <= pointsCount)%nat ->
  nth_error (tearPoints random) i = Some (tearPoint i (random i)).
Proof.
  intros Hi. rewrite tearPoints_spec.
  rewrite (map_nth_error _ i (seq 0 (pointsCount + 1)) (d := i)); [reflexivity |].
  rewrite nth_error_seq. destruct (Nat.ltb_spec i (pointsCount + 1)); [reflexivity | lia].
Qed.

(** The arguments of [Math.sin] and [Math.cos] are numbers: [x] runs over
    [0/80, 1/80, ..., 80/80]. *)
Lemma noise_arguments_finite (i : nat) :
  (i <= pointsCount)%nat ->
  let x := floatOfZ (Z.of_nat i) / floatOfZ (Z.of_nat pointsCount) in
  PrimFloat.is_finite (x * Math_PI * 4) = true
  /\ PrimFloat.is_finite (x * Math_PI * 12) = true.
Proof.
  intros Hi.
  assert (H : forallb (fun i => let x := floatOfZ (Z.of_nat i) / floatOfZ (Z.of_nat pointsCount) in
                                PrimFloat.is_finite (x * Math_PI * 4)
                                && PrimFloat.is_finite (x * Math_PI * 12))
                      (seq 0 (pointsCount + 1)) = true)
    by (vm_compute; reflexivity).
  rewrite forallb_forall in H. specialize (H i).
  cbv zeta in *. apply andb_true_iff. apply H.
  apply in_seq. unfold pointsCount in *. lia.
Qed.

(** [12 + noise] is a number, never NaN: it is below [2 ^ 12] in absolute
    value. *)
Lemma noise_below (i : nat) (rnd : float) :
  unitBounded Math_sin -> unitBounded Math_cos ->
  (0 <=? rnd) = true -> (rnd <? 1) = true ->
  (i <= pointsCount)%nat ->
  let x := floatOfZ (Z.of_nat i) / floatOfZ (Z.of_nat pointsCount) in
  below 12 (Prim2SF (12 + noise x rnd)).
Proof.
  intros Hsin Hcos H0 H1 Hi x.
  destruct (noise_arguments_finite i Hi) as [F4 F12]. fold x in F4, F12.
  destruct (Hsin _ F4) as [S1 S2]. destruct (Hcos _ F12) as [C1 C2].
  pose proof (below_unit _ S1 S2) as Bs.
  pose proof (below_unit _ C1 C2) as Bc.
  pose proof (below_unit_interval _ H0 H1) as Br.
  assert (B8 : below 4 (Prim2SF 8)) by (vm_compute; reflexivity).
  assert (B4 : below 4 (Prim2SF 4)) by (vm_compute; reflexivity).
  assert (B6 : below 4 (Prim2SF 6)) by (vm_compute; reflexivity).
  assert (B12 : below 10 (Prim2SF 12)) by (vm_compute; reflexivity).
  unfold noise.
  pose proof (mul64_below _ _ 1 4 Bs B8 ltac:(lia)) as T1.
  pose proof (mul64_below _ _ 1 4 Bc B4 ltac:(lia)) as T2.
  pose proof (mul64_below _ _ 1 4 Br B6 ltac:(lia)) as T3.
  change (1 + 4 + 1)%Z with 6%Z in T1, T2, T3.
  pose proof (add64_below _ _ 6 T1 T2 ltac:(lia)) as T12.
  change (6 + 2)%Z with 8%Z in T12.
  pose proof (add64_below _ _ 8 T12 (below_mono 6 8 _ ltac:(lia) T3) ltac:(lia)) as T123.
  change (8 + 2)%Z with 10%Z in T123.
  exact (add64_below _ _ 10 B12 T123 ltac:(lia)).
Qed.

Lemma tearPoint_clamped (i : nat) (rnd : float) :
  unitBounded Math_sin -> unitBounded Math_cos ->
  (0 <=? rnd) = true -> (rnd <? 1) = true ->
  (i <= pointsCount)%nat ->
  (2 <=? tearPoint i rnd) = true /\ (tearPoint i rnd <=? 25) = true.
Proof.
  intros Hsin Hcos H0 H1 Hi. unfold tearPoint. cbv zeta.
  apply clamp_bounds. apply (is_nan_below _ 12).
  apply noise_below; assumption.
Qed.

(** C5. Whatever [Math.random()] returns, on a host whose sine and cosine
    stay between -1 and 1, the generated profile has 81 offsets and each of
    them is at least 2 and at most 25, hence above 0 (the outer edge), below
    100 (the whole flap), and never NaN. *)
Theorem tearPoints_clamped (random : nat -> float) :
  unitBounded Math_sin -> unitBounded Math_cos -> unitInterval random ->
  List.length (tearPoints random) = (pointsCount + 1)%nat
  /\ forall i offset,
       nth_error (tearPoints random) i = Some offset ->
       ((2 <=? offset) = true /\ (offset <=? 25) = true)
       /\ ((0 <? offset) = true /\ (offset <? 100) = true).
Proof.
  intros Hsin Hcos Hrnd.
  split; [apply tearPoints_length |].
  intros i offset H.
  assert (Hi : (i <= pointsCount)%nat).
  { assert (i < List.length (tearPoints random))%nat by (apply nth_error_Some; congruence).
    rewrite tearPoints_length in *. unfold pointsCount. lia. }
  rewrite (tearPoints_nth random i Hi) in H. injection H as <-.
  destruct (Hrnd i) as [H0 H1].
  destruct (tearPoint_clamped i (random i) Hsin Hcos H0 H1 Hi) as [L U].
  split; [split; assumption |].
  apply between_2_25_inside; assumption.
Qed.

(** *** The two clip paths *)

Lemma append_nil_r (a : string) : a ++ "" = a.
Proof. induction a as [| ch a IH]; cbn [append]; [reflexivity | now rewrite IH]. Qed.

Lemma forEach_from_ext {A S : Type} (f g : S -> A -> Z -> S) (from : Z) (l : list A) (s : S) :
  (forall s x i, f s x i = g s x i) ->
  forEach_from f from l s = forEach_from g from l s.
Proof.
  intros E. revert from s. induction l as [| x l IH]; intros from s; cbn [forEach_from].
  - reflexivity.
  - rewrite E. apply IH.
Qed.

Lemma forEach_from_append {A : Type} (f : A -> Z -> string) (from : Z) (l : list A)
  (acc : string) :
  forEach_from (fun acc x i => acc ++ f x i) from l acc = acc ++ join (map_from f from l).
Proof.
  revert from acc. induction l as [| x l IH]; intros from acc;
    cbn [forEach_from map_from join fold_right].
  - now rewrite append_nil_r.
  - rewrite IH, append_assoc. reflexivity.
Qed.

Lemma map_from_nth {A B : Type} (f : A -> Z -> B) (from : Z) (l : list A) (k : nat) :
  nth_error (map_from f from l) k
  = option_map (fun x => f x (from + Z.of_nat k)%Z) (nth_error l k).
Proof.
  revert from k. induction l as [| x l IH]; intros from k; cbn [map_from].
  - destruct k; reflexivity.
  - destruct k as [| k]; cbn [nth_error option_map].
    + now rewrite Z.add_0_r.
    + rewrite IH. destruct (nth_error l k); cbn; [| reflexivity].
      do 2 f_equal. lia.
Qed.

Lemma map_from_length {A B : Type} (f : A -> Z -> B) (from : Z) (l : list A) :
  List.length (map_from f from l) = List.length l.
Proof.
  revert from. induction l as [| x l IH]; intros from; cbn [map_from List.length].
  - reflexivity.
  - now rewrite IH.
Qed.

(** The vertices that [topClipPath] and [bottomClipPath] write for the
    offsets, one piece of text for each offset. *)
Lemma topClipPath_pieces (tp : list float) :
  topClipPath tp
  = "polygon(0% 0%, 100% 0%"
    ++ join (map_from (fun offset i =>
                         ", " ++ toFixed2 (xOf tp i) ++ "% " ++ toFixed2 (100 - offset) ++ "%")
                      0 tp)
    ++ ", 0% 100%)".
Proof.
  unfold topClipPath, forEach. cbv zeta.
  rewrite (forEach_from_append
             (fun offset i =>
                ", " ++ toFixed2 (xOf tp i) ++ "% " ++ toFixed2 (100 - offset) ++ "%")).
  rewrite !append_assoc. reflexivity.
Qed.

Lemma bottomClipPath_pieces (tp : list float) :
  bottomClipPath tp
  = "polygon("
    ++ join (map_from (fun offset i =>
                         (if (i =? 0)%Z then "" else ", ")
                         ++ toFixed2 (xOf tp i) ++ "% " ++ toFixed2 offset ++ "%")
                      0 tp)
    ++ ", 100% 100%, 0% 100%)".
Proof.
  unfold bottomClipPath, forEach. cbv zeta.
  rewrite (forEach_from_ext _
             (fun topEdge offset i =>
                topEdge ++ ((if (i =? 0)%Z then "" else ", ")
                            ++ toFixed2 (xOf tp i) ++ "% " ++ toFixed2 offset ++ "%"))).
  2:{ intros s x i. destruct (i =? 0)%Z; reflexivity. }
  rewrite (forEach_from_append
             (fun offset i => (if (i =? 0)%Z then "" else ", ")
                              ++ toFixed2 (xOf tp i) ++ "% " ++ toFixed2 offset ++ "%")).
  rewrite !append_assoc. reflexivity.
Qed.

(** C1. For every outcome of the random draws, both clip paths are written
    from the one profile [tearPoints], one vertex for each sampled index [i],
    in order and at the same [x]: the y-value of the top edge there is
    [100 - offset(i)], that of the bottom edge is [offset(i)], and
    [(100 - offset(i)) + offset(i)] is exactly 100 in binary64, although the
    subtraction rounds. These 81 vertices are all that the paths hold besides
    their fixed corners. Each y-value enters its path through [toFixed(2)];
    what the two decimals do to it is [formatted_sum]. *)
Theorem clip_paths_interlock (random : nat -> float) :
  unitBounded Math_sin -> unitBounded Math_cos -> unitInterval random ->
  let tp := tearPoints random in
  exists top bottom : list string,
    topClipPath tp = "polygon(0% 0%, 100% 0%" ++ join top ++ ", 0% 100%)"
    /\ bottomClipPath tp = "polygon(" ++ join bottom ++ ", 100% 100%, 0% 100%)"
    /\ List.length top = (pointsCount + 1)%nat
    /\ List.length bottom = (pointsCount + 1)%nat
    /\ forall i, (i <= pointsCount)%nat ->
       exists offset : float,
         nth_error tp i = Some offset
         /\ nth_error top i
            = Some (", " ++ toFixed2 (xOf tp (Z.of_nat i)) ++ "% "
                    ++ toFixed2 (100 - offset) ++ "%")
         /\ nth_error bottom i
            = Some ((if (i =? 0)%nat then "" else ", ")
                    ++ toFixed2 (xOf tp (Z.of_nat i)) ++ "% "
                    ++ toFixed2 offset ++ "%")
         /\ 100 - offset + offset = 100.
Proof.
  intros Hsin Hcos Hrnd tp.
  eexists. eexists.
  split; [apply topClipPath_pieces |].
  split; [apply bottomClipPath_pieces |].
  split; [rewrite map_from_length; apply tearPoints_length |].
  split; [rewrite map_from_length; apply tearPoints_length |].
  intros i Hi.
  pose proof (tearPoints_nth random i Hi) as Hnth. fold tp in Hnth.
  destruct (Hrnd i) as [H0 H1].
  destruct (tearPoint_clamped i (random i) Hsin Hcos H0 H1 Hi) as [L U].
  exists (tearPoint i (random i)).
  split; [exact Hnth |].
  rewrite !map_from_nth, Hnth. cbn [option_map]. rewrite !Z.add_0_l.
  split; [reflexivity |].
  split; [| apply sub_add_100; assumption].
  destruct i as [| i]; reflexivity.
Qed.

End Tear.

(** ** Worked examples, on the sample sheet and the sample host *)

Section Examples.
Import Types JS Constants ExcelService Grid TearEffect Sample.
Local Open Scope string_scope.
Local Open Scope Z_scope.
Local Open Scope list_scope.

(** The sample sheet of constants.ts has two errors: the age of row 1 and
    the name of row 2 (section 8 of the spec). *)
Example validateData_INITIAL :
  validateData INITIAL_DATA INITIAL_SCHEMA
  = [ mkValidationError 1 2 "Expected a Number, got 'InvalidAge'.";
      mkValidationError 2 1 "Column 'Name' is required but was empty." ].
Proof. vm_compute. reflexivity. Qed.

(** C4 as stated fails on a row with no cell: the rule ID is required and
    the text of the cell it reads is empty, yet [validateData] returns no
    error for it, the row being skipped. *)
Lemma required_empty_counterexample :
  let rule := mkColumnSchema 0 "ID" NUMBER true in
  let row : RowData := [] in
  required rule = true
  /\ cellText (array_get row (index rule)) = ""
  /\ validateData [row] [rule] = []
  /\ ~ (forall (rows1 rows2 : list RowData) (row : RowData)
               (s1 s2 : list ColumnSchema) (rule : ColumnSchema),
           required rule = true ->
           cellText (array_get row (index rule)) = "" ->
           ruleErrors row (Z.of_nat (List.length rows1)) rule
           = [requiredError (Z.of_nat (List.length rows1)) rule]
           /\ In (requiredError (Z.of_nat (List.length rows1)) rule)
                 (validateData (rows1 ++ row :: rows2) (s1 ++ rule :: s2))).
Proof.
  cbv zeta. repeat split; try reflexivity.
  intros H.
  destruct (H [] [] [] [] [] (mkColumnSchema 0 "ID" NUMBER true) eq_refl eq_refl)
    as [_ Hin].
  exact Hin.
Qed.

Lemma required_empty_one_error_witness :
  let rows1 := firstn 2 INITIAL_DATA in
  let rows2 := skipn 3 INITIAL_DATA in
  let row := [CNum 103; CStr ""; CNum 35; CBool true; CStr "2023-03-10"] in
  let s1 := firstn 1 INITIAL_SCHEMA in
  let s2 := skipn 2 INITIAL_SCHEMA in
  let rule := mkColumnSchema 1 "Name" STRING true in
  let e := mkValidationError 2 1 "Column 'Name' is required but was empty." in
  row <> [] /\ required rule = true /\ cellText (array_get row (index rule)) = ""
  /\ ruleErrors row 2 rule = [e]
  /\ validateData (rows1 ++ row :: rows2) (s1 ++ rule :: s2)
     = (validateData rows1 (s1 ++ rule :: s2) ++ flat_map (ruleErrors row 2) s1)
       ++ [e]
       ++ (flat_map (ruleErrors row 2) s2 ++ validateFrom (2 + 1) rows2 (s1 ++ rule :: s2)).
Proof.
  cbv zeta.
  split; [discriminate |]. split; [reflexivity |]. split; [reflexivity |].
  apply (required_empty_one_error (host := sampleHost)
           (firstn 2 INITIAL_DATA) (skipn 3 INITIAL_DATA)
           [CNum 103; CStr ""; CNum 35; CBool true; CStr "2023-03-10"]
           (firstn 1 INITIAL_SCHEMA) (skipn 2 INITIAL_SCHEMA)
           (mkColumnSchema 1 "Name" STRING true));
    [discriminate | reflexivity | reflexivity].
Defined.

(** C3 as stated fails on a boolean cell, and on the texts "Infinity" and
    "0x1F": none is a decimal, integer or scientific numeral, the text of
    each is not empty, yet the Number rule yields no error, [Number(value)]
    being 1, Infinity and 31. *)
Lemma number_rule_counterexample :
  let rule := mkColumnSchema 0 "ID" NUMBER true in
  (cellText (Some (CBool true)) = "true"
   /\ isDecimalNumeral "true" = false
   /\ validateData [[CBool true]] [rule] = [])
  /\ (cellText (Some (CStr "Infinity")) = "Infinity"
      /\ isDecimalNumeral "Infinity" = false
      /\ validateData [[CStr "Infinity"]] [rule] = [])
  /\ (cellText (Some (CStr "0x1F")) = "0x1F"
      /\ isDecimalNumeral "0x1F" = false
      /\ validateData [[CStr "0x1F"]] [rule] = [])
  /\ ~ (forall (row : RowData) (rule : ColumnSchema) (v : CellValue),
           type rule = NUMBER ->
           array_get row (index rule) = Some v ->
           cellText (Some v) <> "" ->
           (ruleErrors row 0 rule = [numberError 0 rule (Some v)]
            <-> isDecimalNumeral (cellText (Some v)) = false)).
Proof.
  cbv zeta. repeat split; try reflexivity.
  intros H.
  destruct (H [CBool true] (mkColumnSchema 0 "ID" NUMBER true) (CBool true)
              eq_refl eq_refl ltac:(discriminate)) as [_ H2].
  specialize (H2 eq_refl). discriminate H2.
Qed.

Lemma number_rule_error_witness :
  let rows1 := firstn 1 INITIAL_DATA in
  let rows2 := skipn 2 INITIAL_DATA in
  let row := [CNum 102; CStr "Bob Smith"; CStr "InvalidAge"; CBool false; CStr "2023-02-20"] in
  let s1 := firstn 2 INITIAL_SCHEMA in
  let s2 := skipn 3 INITIAL_SCHEMA in
  let rule := mkColumnSchema 2 "Age" NUMBER false in
  let v := CStr "InvalidAge" in
  let found :=
    if isNaN_Number (Some v) then
      [mkValidationError 1 2 ("Expected a Number, got '" ++ ToString (Some v) ++ "'.")%string]
    else [] in
  type rule = NUMBER /\ array_get row (index rule) = Some v /\ cellText (Some v) <> ""
  /\ ruleErrors row 1 rule = found
  /\ validateData (rows1 ++ row :: rows2) (s1 ++ rule :: s2)
     = (validateData rows1 (s1 ++ rule :: s2) ++ flat_map (ruleErrors row 1) s1)
       ++ found
       ++ (flat_map (ruleErrors row 1) s2 ++ validateFrom (1 + 1) rows2 (s1 ++ rule :: s2))
  /\ isNaN_Number (Some v)
     = negb ((trim "InvalidAge" =? "")%string || isDecimalNumeral (trim "InvalidAge")
             || (trim "InvalidAge" =? "Infinity")%string
             || (trim "InvalidAge" =? "+Infinity")%string
             || (trim "InvalidAge" =? "-Infinity")%string
             || isNonDecimalIntegerLiteral (trim "InvalidAge")).
Proof.
  cbv zeta.
  split; [reflexivity |]. split; [reflexivity |]. split; [discriminate |].
  apply (number_rule_error (host := sampleHost)
           (firstn 1 INITIAL_DATA) (skipn 2 INITIAL_DATA)
           [CNum 102; CStr "Bob Smith"; CStr "InvalidAge"; CBool false; CStr "2023-02-20"]
           (firstn 2 INITIAL_SCHEMA) (skipn 3 INITIAL_SCHEMA)
           (mkColumnSchema 2 "Age" NUMBER false) (CStr "InvalidAge"));
    [reflexivity | reflexivity | discriminate].
Defined.

Lemma empty_row_contributes_nothing_witness :
  let rows1 := firstn 2 INITIAL_DATA in
  let rows2 := skipn 2 INITIAL_DATA in
  INITIAL_SCHEMA <> []
  /\ (forall errors, row_callback INITIAL_SCHEMA errors [] 2 = errors)
  /\ validateData (rows1 ++ [] :: rows2) INITIAL_SCHEMA
     = validateData rows1 INITIAL_SCHEMA ++ validateFrom (2 + 1) rows2 INITIAL_SCHEMA
  /\ (forall e, In e (validateData (rows1 ++ [] :: rows2) INITIAL_SCHEMA) -> rowIndex e <> 2).
Proof.
  cbv zeta. split; [discriminate |].
  apply (empty_row_contributes_nothing (host := sampleHost)
           (firstn 2 INITIAL_DATA) (skipn 2 INITIAL_DATA) INITIAL_SCHEMA).
  discriminate.
Defined.

(** *** Malformed cells, worked out *)

(** One row against four rules: "abc" is no number, "maybe" no boolean,
    "soon" no date, and the row has no cell at index 7, where a value is
    required. All four reports are returned, in the order of the rules. *)
Lemma validateData_total_witness :
  let row := [CStr "abc"; CStr "maybe"; CStr "soon"] in
  let age := mkColumnSchema 0 "Age" NUMBER false in
  let active := mkColumnSchema 1 "Active" BOOLEAN false in
  let joined := mkColumnSchema 2 "Joined" DATE false in
  let note := mkColumnSchema 7 "Note" STRING true in
  let errors := validateData (host := sampleHost) [row] [age; active; joined; note] in
  let number := mkValidationError 0 0 "Expected a Number, got 'abc'." in
  let boolean := mkValidationError 0 1 "Expected Boolean (true/false), got 'maybe'." in
  let date := mkValidationError 0 2 "Expected a valid Date, got 'soon'." in
  let empty := mkValidationError 0 7 "Column 'Note' is required but was empty." in
  (array_get row 0 = Some (CStr "abc")
   /\ isNaN_Number (Some (CStr "abc")) = true
   /\ errors = [] ++ [number] ++ [boolean; date; empty])
  /\ (array_get row 1 = Some (CStr "maybe")
      /\ includes ["true"; "false"; "1"; "0"; "yes"; "no"]
           (toLowerCase (trim (ToString (H := sampleHost) (Some (CStr "maybe"))))) = false
      /\ errors = [number] ++ [boolean] ++ [date; empty])
  /\ (array_get row 2 = Some (CStr "soon")
      /\ isNaN (Date_parse (JsHost := sampleHost)
                  (trim (ToString (H := sampleHost) (Some (CStr "soon"))))) = true
      /\ errors = [number; boolean] ++ [date] ++ [empty])
  /\ (Z.of_nat (List.length row) <= 7
      /\ array_get row 7 = None
      /\ errors = [number; boolean; date] ++ [empty] ++ []).
Proof.
  cbv zeta.
  set (row := [CStr "abc"; CStr "maybe"; CStr "soon"]).
  set (age := mkColumnSchema 0 "Age" NUMBER false).
  set (active := mkColumnSchema 1 "Active" BOOLEAN false).
  set (joined := mkColumnSchema 2 "Joined" DATE false).
  set (note := mkColumnSchema 7 "Note" STRING true).
  split; [| split; [| split]].
  - split; [reflexivity |]. split; [reflexivity |].
    pose proof (validateData_total (host := sampleHost) [] [] row
                  [] [active; joined; note] age) as (_ & _ & _ & H).
    destruct (H (CStr "abc") eq_refl ltac:(discriminate) ltac:(discriminate))
      as (Hnumber & _ & _).
    exact (Hnumber eq_refl eq_refl).
  - split; [reflexivity |]. split; [reflexivity |].
    pose proof (validateData_total (host := sampleHost) [] [] row
                  [age] [joined; note] active) as (_ & _ & _ & H).
    destruct (H (CStr "maybe") eq_refl ltac:(discriminate) ltac:(discriminate))
      as (_ & Hboolean & _).
    exact (Hboolean eq_refl eq_refl).
  - split; [reflexivity |]. split; [reflexivity |].
    pose proof (validateData_total (host := sampleHost) [] [] row
                  [age; active] [note] joined) as (_ & _ & _ & H).
    destruct (H (CStr "soon") eq_refl ltac:(discriminate) ltac:(discriminate))
      as (_ & _ & Hdate).
    exact (Hdate eq_refl eq_refl).
  - split; [cbn; lia |].
    pose proof (validateData_total (host := sampleHost) [] [] row
                  [age; active; joined] [] note) as (_ & _ & H & _).
    exact (H ltac:(discriminate) ltac:(right; cbn; lia)).
Defined.

(** *** One reveal, worked out *)

(** With [Math.random()] returning 0.0625 at the first call, the first
    offset is [12 + (0 * 8 + 1 * 4 + 0.0625 * 6) = 16.375]; [100 - 16.375] is
    83.625 and the two add up to 100. Both lie halfway between two hundredths,
    and [toFixed(2)] writes [83.63%] for the top edge and [16.38%] for the
    bottom edge at [x = 0.00%]. *)
Example clip_paths_first_vertex :
  let tp := tearPoints (fun _ => 0.0625%float) in
  nth_error tp 0 = Some 16.375%float
  /\ (100 - 16.375 + 16.375 = 100)%float
  /\ toFixed2 (100 - 16.375) = "83.63"
  /\ toFixed2 16.375 = "16.38"
  /\ prefix "polygon(0% 0%, 100% 0%, 0.00% 83.63%, " (topClipPath tp) = true
  /\ prefix "polygon(0.00% 16.38%, " (bottomClipPath tp) = true.
Proof.
  cbv zeta. repeat split; vm_compute; reflexivity.
Qed.

(** With [Math.random()] returning [0x1.1111111111p-8] (a multiple of
    [2 ^ -52]), the first offset is the binary64 number just below 16.025;
    [100 - offset] is rounded to a multiple of [2 ^ -46], which lands just
    below 83.975, and adding the offset back gives 100. [toFixed(2)] writes
    [83.97%] for the top edge and [16.02%] for the bottom edge. *)
Example clip_paths_rounded_difference :
  let tp := tearPoints (fun _ => 0x1.1111111111p-8%float) in
  nth_error tp 0 = Some 0x1.0066666666666p+4%float
  /\ (100 - 0x1.0066666666666p+4 = 0x1.4fe6666666666p+6)%float
  /\ (0x1.4fe6666666666p+6 + 0x1.0066666666666p+4 = 100)%float
  /\ toFixed2 (100 - 0x1.0066666666666p+4) = "83.97"
  /\ toFixed2 0x1.0066666666666p+4 = "16.02"
  /\ prefix "polygon(0% 0%, 100% 0%, 0.00% 83.97%, " (topClipPath tp) = true
  /\ prefix "polygon(0.00% 16.02%, " (bottomClipPath tp) = true.
Proof.
  cbv zeta. repeat split; vm_compute; reflexivity.
Qed.

Lemma clip_paths_interlock_witness :
  let random := fun _ : nat => 0.5%float in
  let tp := tearPoints random in
  unitBounded (Math_sin (JsHost := sampleHost))
  /\ unitBounded (Math_cos (JsHost := sampleHost))
  /\ unitInterval random
  /\ exists top bottom : list string,
       topClipPath tp = ("polygon(0% 0%, 100% 0%" ++ join top ++ ", 0% 100%)")%string
       /\ bottomClipPath tp = ("polygon(" ++ join bottom ++ ", 100% 100%, 0% 100%)")%string
       /\ List.length top = (pointsCount + 1)%nat
       /\ List.length bottom = (pointsCount + 1)%nat
       /\ forall i, (i <= pointsCount)%nat ->
          exists offset : float,
            nth_error tp i = Some offset
            /\ nth_error top i
               = Some (", " ++ toFixed2 (xOf tp (Z.of_nat i)) ++ "% "
                       ++ toFixed2 (100 - offset)%float ++ "%")%string
            /\ nth_error bottom i
               = Some ((if (i =? 0)%nat then "" else ", ")
                       ++ toFixed2 (xOf tp (Z.of_nat i)) ++ "% "
                       ++ toFixed2 offset ++ "%")%string
            /\ (100 - offset + offset = 100)%float.
Proof.
  cbv zeta.
  assert (Hs : unitBounded (Math_sin (JsHost := sampleHost)))
    by (intros x _; split; reflexivity).
  assert (Hc : unitBounded (Math_cos (JsHost := sampleHost)))
    by (intros x _; split; reflexivity).
  assert (Hr : unitInterval (fun _ : nat => 0.5%float))
    by (intros k; split; reflexivity).
  split; [exact Hs |]. split; [exact Hc |]. split; [exact Hr |].
  exact (clip_paths_interlock (host := sampleHost) (fun _ => 0.5%float) Hs Hc Hr).
Defined.

Lemma tearPoints_clamped_witness :
  let random := fun _ : nat => 0.5%float in
  unitBounded (Math_sin (JsHost := sampleHost))
  /\ unitBounded (Math_cos (JsHost := sampleHost))
  /\ unitInterval random
  /\ List.length (tearPoints random) = (pointsCount + 1)%nat
  /\ forall i offset,
       nth_error (tearPoints random) i = Some offset ->
       ((2 <=? offset)%float = true /\ (offset <=? 25)%float = true)
       /\ ((0 <? offset)%float = true /\ (offset <? 100)%float = true).
Proof.
  cbv zeta.
  assert (Hs : unitBounded (Math_sin (JsHost := sampleHost)))
    by (intros x _; split; reflexivity).
  assert (Hc : unitBounded (Math_cos (JsHost := sampleHost)))
    by (intros x _; split; reflexivity).
  assert (Hr : unitInterval (fun _ : nat => 0.5%float))
    by (intros k; split; reflexivity).
  split; [exact Hs |]. split; [exact Hc |]. split; [exact Hr |].
  exact (tearPoints_clamped (host := sampleHost) (fun _ => 0.5%float) Hs Hc Hr).
Defined.

End Examples.

(* ===================================================================== *)
(** * Part III. More of what the program guarantees                       *)
(* ===================================================================== *)

(** ** Column labels: how the labels run

    [getColumnLabel] is modelled on integers, with exact division. The
    source computes on binary64 numbers, which hold every integer below
    [2 ^ 53] and divide it by 26 without a rounding that [Math.floor] could
    see; the properties here are stated for the integer indices below
    [2 ^ 53]. *)

Section MoreColumnLabels.
Local Abbreviation loop_unfold := while_loop_unfold.
Import Constants.
Local Open Scope string_scope.
Local Open Scope Z_scope.

Lemma while_loop_negative (st : loop_state) : snd st < 0 -> while_loop st = st.
Proof.
  intros H. rewrite loop_unfold. unfold loop_cond.
  destruct (Z.leb_spec 0 (snd st)); [lia | reflexivity].
Qed.

Lemma while_loop_step (label : string) (i : Z) :
  0 <= i ->
  exists c, charAt ALPHABET (i mod 26) = Some c /\ isUpper c = true
            /\ while_loop (label, i) = while_loop (String c label, i / 26 - 1).
Proof.
  intros Hi. destruct (loop_body_spec label i Hi) as (c & E & Hv & Hu).
  exists c. split; [| split; [exact Hu |]].
  - rewrite <- (ALPHABET_letter c Hu). f_equal. lia.
  - rewrite loop_unfold. unfold loop_cond. cbn [snd].
    destruct (Z.leb_spec 0 i); [| lia]. now rewrite E.
Qed.

(** The loop writes in front of what [label] holds when it starts. *)
Lemma while_loop_label (i : Z) (label : string) :
  fst (while_loop (label, i)) = fst (while_loop ("", i)) ++ label.
Proof.
  revert label.
  enough (H : forall st : loop_state, forall label,
             fst (while_loop (label, snd st)) = fst (while_loop ("", snd st)) ++ label)
    by (intros label; exact (H ("", i) label)).
  intros st. induction st as [st Hexit | st Hcond IH] using while_loop_induction;
    intros label.
  - unfold loop_cond in Hexit. apply Z.leb_gt in Hexit.
    rewrite !while_loop_negative by (cbn [snd]; lia). reflexivity.
  - unfold loop_cond in Hcond. apply Z.leb_le in Hcond.
    destruct st as [label0 i0]. cbn [snd] in *.
    assert (Hs : snd (loop_body (label0, i0)) = i0 / 26 - 1) by reflexivity.
    rewrite Hs in IH.
    destruct (while_loop_step label i0 Hcond) as (c & Hc & _ & ->).
    destruct (while_loop_step "" i0 Hcond) as (c' & Hc' & _ & ->).
    assert (c' = c) by congruence. subst c'.
    rewrite (IH (String c label)), (IH (String c "")), append_assoc. reflexivity.
Qed.

Lemma getColumnLabel_of_negative (index : Z) : index < 0 -> getColumnLabel index = "".
Proof. intros H. unfold getColumnLabel. now rewrite while_loop_negative. Qed.

Lemma getColumnLabel_length_step (index : Z) :
  0 <= index ->
  String.length (getColumnLabel index)
  = S (String.length (getColumnLabel (index / 26 - 1))).
Proof.
  intros Hi. unfold getColumnLabel.
  destruct (while_loop_step "" index Hi) as (c & _ & _ & E).
  rewrite E, while_loop_label, length_append. cbn [String.length]. lia.
Qed.

(** X1. For an integer index: a negative index gets the empty label, the
    loop does not run and nothing is written; an index from 0 on and
    below [2 ^ 53] gets a label of at least one letter. *)
Theorem getColumnLabel_empty (index : Z) :
  (index < 0 -> getColumnLabel index = "")
  /\ (0 <= index < 2 ^ 53 -> (1 <= String.length (getColumnLabel index))%nat).
Proof.
  split.
  - apply getColumnLabel_of_negative.
  - intros [Hp _]. rewrite (getColumnLabel_length_step index Hp). lia.
Qed.

(** X2. For an integer index from 0 on and below [2 ^ 53], the label of
    [index] is the label of [index / 26 - 1] followed by the letter at
    [index mod 26] of the alphabet: the last letter counts modulo 26, and
    the letters before it are a label of their own. *)
Theorem getColumnLabel_last_letter (index : Z) :
  0 <= index < 2 ^ 53 ->
  exists c, charAt ALPHABET (index mod 26) = Some c
            /\ getColumnLabel index = getColumnLabel (index / 26 - 1) ++ String c "".
Proof.
  intros [Hi _]. unfold getColumnLabel.
  destruct (while_loop_step "" index Hi) as (c & Hc & _ & E).
  exists c. split; [exact Hc |]. now rewrite E, while_loop_label.
Qed.

Lemma getColumnLabel_last_letter_witness :
  0 <= 27 < 2 ^ 53
  /\ exists c, charAt ALPHABET (27 mod 26) = Some c
               /\ getColumnLabel 27 = getColumnLabel (27 / 26 - 1) ++ String c "".
Proof.
  assert (H : 0 <= 27 < 2 ^ 53) by (split; [lia | reflexivity]).
  split; [exact H |]. apply (getColumnLabel_last_letter 27 H).
Defined.

Lemma labelsUpTo_nonneg (n : nat) : 0 <= labelsUpTo n.
Proof. induction n as [| n IH]; cbn [labelsUpTo]; lia. Qed.

Lemma getColumnLabel_length_le (i : Z) (n : nat) :
  (String.length (getColumnLabel i) <= n)%nat <-> i < labelsUpTo n.
Proof.
  revert i. induction n as [| n IH]; intros i.
  - cbn [labelsUpTo]. destruct (Z.lt_ge_cases i 0) as [Hn | Hp].
    + rewrite (getColumnLabel_of_negative i Hn). cbn [String.length]. split; lia.
    + rewrite (getColumnLabel_length_step i Hp). split; lia.
  - cbn [labelsUpTo]. pose proof (labelsUpTo_nonneg n).
    destruct (Z.lt_ge_cases i 0) as [Hn | Hp].
    + rewrite (getColumnLabel_of_negative i Hn). cbn [String.length]. split; lia.
    + rewrite (getColumnLabel_length_step i Hp).
      specialize (IH (i / 26 - 1)).
      assert (Hd : i / 26 - 1 < labelsUpTo n <-> i < 26 * (labelsUpTo n + 1)).
      { pose proof (Z.div_mod i 26 ltac:(lia)).
        pose proof (Z.mod_pos_bound i 26 ltac:(lia)). lia. }
      rewrite <- Hd, <- IH. split; lia.
Qed.

Lemma getColumnLabel_length_mono (i j : Z) :
  i <= j -> (String.length (getColumnLabel i) <= String.length (getColumnLabel j))%nat.
Proof.
  intros Hij. apply getColumnLabel_length_le.
  assert (j < labelsUpTo (String.length (getColumnLabel j)))
    by (apply getColumnLabel_length_le; lia).
  lia.
Qed.

(** X3. How long a label is, for an integer index below [2 ^ 53]: it has
    at most [n] letters exactly when the index is below
    [26 + 26 ^ 2 + ... + 26 ^ n], so one letter up to index 25, two up to
    701, three up to 18277; and a larger index below [2 ^ 53] never has a
    shorter label. *)
Theorem getColumnLabel_length (index : Z) (n : nat) :
  index < 2 ^ 53 ->
  ((String.length (getColumnLabel index) <= n)%nat <-> index < labelsUpTo n)
  /\ (forall j, index <= j < 2 ^ 53 ->
        (String.length (getColumnLabel index) <= String.length (getColumnLabel j))%nat)
  /\ labelsUpTo 1 = 26 /\ labelsUpTo 2 = 702 /\ labelsUpTo 3 = 18278.
Proof.
  intros _.
  split; [apply getColumnLabel_length_le |].
  split; [intros j [Hj _]; apply getColumnLabel_length_mono; exact Hj |].
  repeat split; reflexivity.
Qed.

Lemma getColumnLabel_length_witness :
  701 < 2 ^ 53
  /\ (((String.length (getColumnLabel 701) <= 2)%nat <-> 701 < labelsUpTo 2)
      /\ (forall j, 701 <= j < 2 ^ 53 ->
            (String.length (getColumnLabel 701) <= String.length (getColumnLabel j))%nat)
      /\ labelsUpTo 1 = 26 /\ labelsUpTo 2 = 702 /\ labelsUpTo 3 = 18278).
Proof.
  assert (H : 701 < 2 ^ 53) by reflexivity.
  split; [exact H |]. apply (getColumnLabel_length 701 2 H).
Defined.

(** X4. Among the integer indices from 0 on and below [2 ^ 53], every index has a
    label of its own, and every non-empty word over 'A'..'Z' of at most
    eleven letters is the label of one of them: the labels name the columns
    one to one. *)
Theorem getColumnLabel_bijective :
  (forall i j, 0 <= i < 2 ^ 53 -> 0 <= j < 2 ^ 53 ->
               getColumnLabel i = getColumnLabel j -> i = j)
  /\ (forall label, label <> "" -> allUpper label = true ->
        (String.length label <= 11)%nat ->
        exists i, 0 <= i < 2 ^ 53 /\ getColumnLabel i = label).
Proof.
  split.
  - intros i j [Hi _] [Hj _] E.
    rewrite <- (decode_getColumnLabel i Hi), <- (decode_getColumnLabel j Hj).
    now rewrite E.
  - intros label Hne Hu Hlen. exists (decodeColumnLabel label).
    pose proof (getColumnLabel_decode label Hu) as Hlabel.
    split; [| exact Hlabel]. split.
    + unfold decodeColumnLabel.
      destruct label as [| c rest]; [contradiction |].
      cbn [bijective26 allUpper] in *. apply andb_true_iff in Hu. destruct Hu as [Hc Hr].
      rewrite bijective26_acc.
      pose proof (isUpper_letterValue c Hc).
      pose proof (bijective26_nonneg rest Hr).
      assert (0 < 26 ^ Z.of_nat (String.length rest)) by (apply Z.pow_pos_nonneg; lia).
      nia.
    + assert (Hb : decodeColumnLabel label < labelsUpTo 11).
      { apply getColumnLabel_length_le. rewrite Hlabel. exact Hlen. }
      assert (Hs : labelsUpTo 11 < 2 ^ 53) by reflexivity.
      exact (Z.lt_trans _ _ _ Hb Hs).
Qed.

(** Words of one length over 'A'..'Z': their values are less than
    [26 ^ length] apart, and are ordered as the words are. *)
Lemma bijective26_spread (s t : string) :
  allUpper s = true -> allUpper t = true -> String.length s = String.length t ->
  bijective26 0 s - bijective26 0 t < 26 ^ Z.of_nat (String.length s).
Proof.
  revert t. induction s as [| c s IH]; intros [| d t] Hs Ht Hl; try discriminate.
  - cbn. lia.
  - cbn [allUpper] in Hs, Ht. apply andb_true_iff in Hs, Ht.
    destruct Hs as [Hc Hs], Ht as [Hd Ht]. injection Hl as Hl.
    cbn [bijective26 String.length]. rewrite (bijective26_acc s), (bijective26_acc t).
    rewrite <- Hl, Nat2Z.inj_succ, Z.pow_succ_r by lia.
    specialize (IH t Hs Ht Hl).
    pose proof (isUpper_letterValue c Hc). pose proof (isUpper_letterValue d Hd).
    assert (0 < 26 ^ Z.of_nat (String.length s)) by (apply Z.pow_pos_nonneg; lia).
    nia.
Qed.

Lemma ascii_compare_letterValue (c d : ascii) :
  Ascii.compare c d = (letterValue c ?= letterValue d).
Proof.
  unfold Ascii.compare, letterValue, nat_of_ascii.
  rewrite N2Nat.inj_compare, <- Nat2Z.inj_compare.
  unfold Z.sub. now rewrite !(Z.add_comm _ (-64)), Z.add_compare_mono_l.
Qed.

Lemma compare_bijective26 (s t : string) :
  allUpper s = true -> allUpper t = true -> String.length s = String.length t ->
  String.compare s t = (bijective26 0 s ?= bijective26 0 t).
Proof.
  revert t. induction s as [| c s IH]; intros [| d t] Hs Ht Hl; try discriminate.
  - reflexivity.
  - cbn [allUpper] in Hs, Ht. apply andb_true_iff in Hs, Ht.
    destruct Hs as [Hc Hs], Ht as [Hd Ht]. injection Hl as Hl.
    cbn [String.compare bijective26]. rewrite (bijective26_acc s), (bijective26_acc t).
    rewrite ascii_compare_letterValue, <- Hl.
    pose proof (bijective26_spread s t Hs Ht Hl) as B1.
    pose proof (bijective26_spread t s Ht Hs (eq_sym Hl)) as B2. rewrite <- Hl in B2.
    assert (0 < 26 ^ Z.of_nat (String.length s)) by (apply Z.pow_pos_nonneg; lia).
    cbn [Z.mul Z.add].
    destruct (Z.compare_spec (letterValue c) (letterValue d)) as [E | L | G].
    + rewrite E, (IH t Hs Ht Hl).
      now rewrite Z.add_compare_mono_l.
    + symmetry. apply Z.compare_lt_iff. nia.
    + symmetry. apply Z.compare_gt_iff. nia.
Qed.

(** X5. Among the integer indices from 0 on and below [2 ^ 53], the labels are
    ordered as the columns are: the label of a smaller index is shorter, or
    as long and earlier in the alphabetical order. *)
Theorem getColumnLabel_order (i j : Z) :
  0 <= i < 2 ^ 53 -> 0 <= j < 2 ^ 53 ->
  (shortlex (getColumnLabel i) (getColumnLabel j) = true <-> i < j).
Proof.
  intros [Hi _] [Hj _]. unfold shortlex, String.ltb.
  assert (Hv : forall k, 0 <= k -> bijective26 0 (getColumnLabel k) = k + 1).
  { intros k Hk. pose proof (decode_getColumnLabel k Hk) as D.
    unfold decodeColumnLabel in D. lia. }
  pose proof (getColumnLabel_allUpper i) as Ui.
  pose proof (getColumnLabel_allUpper j) as Uj.
  rewrite orb_true_iff, andb_true_iff, Nat.ltb_lt, Nat.eqb_eq. split.
  - intros [L | [E C]].
    + destruct (Z.lt_ge_cases i j) as [H | H]; [exact H |].
      pose proof (getColumnLabel_length_mono j i H). lia.
    + rewrite (compare_bijective26 _ _ Ui Uj E), !Hv in C by assumption.
      destruct (Z.compare_spec (i + 1) (j + 1)); try discriminate. lia.
  - intros H.
    pose proof (getColumnLabel_length_mono i j ltac:(lia)) as M.
    destruct (Nat.eq_dec (String.length (getColumnLabel i))
                         (String.length (getColumnLabel j))) as [E | N].
    + right. split; [exact E |].
      rewrite (compare_bijective26 _ _ Ui Uj E), !Hv by assumption.
      replace (i + 1 ?= j + 1) with Lt by (symmetry; apply Z.compare_lt_iff; lia).
      reflexivity.
    + left. lia.
Qed.

Lemma getColumnLabel_order_witness :
  0 <= 25 < 2 ^ 53 /\ 0 <= 26 < 2 ^ 53
  /\ (shortlex (getColumnLabel 25) (getColumnLabel 26) = true <-> 25 < 26).
Proof.
  assert (H25 : 0 <= 25 < 2 ^ 53) by (split; [lia | reflexivity]).
  assert (H26 : 0 <= 26 < 2 ^ 53) by (split; [lia | reflexivity]).
  split; [exact H25 |]. split; [exact H26 |]. apply (getColumnLabel_order 25 26 H25 H26).
Defined.

End MoreColumnLabels.

(** ** The validator: how its results compose, and what it never reports *)

Section MoreValidation.
Import Types JS ExcelService.
Context {host : JsHost}.
Local Open Scope string_scope.
Local Open Scope Z_scope.
Local Open Scope list_scope.

Lemma ruleErrors_shift (row : RowData) (i k : Z) (rule : ColumnSchema) :
  ruleErrors row (i + k) rule = map (shiftRow k) (ruleErrors row i rule).
Proof.
  unfold ruleErrors, rule_callback, push. cbv zeta.
  repeat match goal with
         | |- context [if ?b then _ else _] => destruct b
         | |- context [match type rule with _ => _ end] => destruct (type rule)
         end; reflexivity.
Qed.

Lemma rowErrors_shift (schema : list ColumnSchema) (row : RowData) (i k : Z) :
  rowErrors schema row (i + k) = map (shiftRow k) (rowErrors schema row i).
Proof.
  rewrite !rowErrors_cases. destruct (skipped schema row); [reflexivity |].
  induction schema as [| rule schema IH]; cbn [flat_map map]; [reflexivity |].
  now rewrite map_app, ruleErrors_shift, IH.
Qed.

Lemma validateFrom_shift (schema : list ColumnSchema) (rows : list RowData) (from k : Z) :
  validateFrom (from + k) rows schema = map (shiftRow k) (validateFrom from rows schema).
Proof.
  revert from. induction rows as [| row rows IH]; intros from; [reflexivity |].
  rewrite !validateFrom_cons, map_app, rowErrors_shift.
  replace (from + k + 1) with (from + 1 + k) by lia. now rewrite IH.
Qed.

(** X6. Validating two sheets put one after the other gives the errors of
    the first, then those of the second with their row numbers moved down
    by the length of the first: no row's verdict depends on another row. *)
Theorem validateData_app (rows1 rows2 : list RowData) (schema : list ColumnSchema) :
  validateData (rows1 ++ rows2) schema
  = validateData rows1 schema
    ++ map (shiftRow (Z.of_nat (List.length rows1))) (validateData rows2 schema).
Proof.
  rewrite !validateData_from, validateFrom_app, <- validateFrom_shift. reflexivity.
Qed.

Lemma flat_map_length_le {A B : Type} (f : A -> list B) (l : list A) (n : nat) :
  (forall a, (List.length (f a) <= n)%nat) ->
  (List.length (flat_map f l) <= List.length l * n)%nat.
Proof.
  intros H. induction l as [| a l IH]; cbn [flat_map List.length]; [lia |].
  rewrite length_app. specialize (H a). lia.
Qed.

Lemma rowErrors_length (schema : list ColumnSchema) (row : RowData) (i : Z) :
  (List.length (rowErrors schema row i) <= List.length schema)%nat.
Proof.
  rewrite rowErrors_cases. destruct (skipped schema row); [cbn; lia |].
  pose proof (flat_map_length_le (ruleErrors row i) schema 1) as H.
  rewrite Nat.mul_1_r in H. apply H. intros rule.
  destruct (ruleErrors_at_most_one row i rule) as [-> | [m ->]]; cbn; lia.
Qed.

(** X7. There is at most one error for each pair of a row and a rule: the
    list returned has at most [rows.length * schema.length] errors. *)
Theorem validateData_length (rows : list RowData) (schema : list ColumnSchema) :
  (List.length (validateData rows schema) <= List.length rows * List.length schema)%nat.
Proof.
  rewrite validateData_from. generalize 0.
  induction rows as [| row rows IH]; intros from; [cbn; lia |].
  rewrite validateFrom_cons, length_app. cbn [List.length].
  pose proof (rowErrors_length schema row from). specialize (IH (from + 1)). lia.
Qed.

(** X8. No false alarm: every error reported names a row of the sheet that
    has cells and the column of a rule of the schema, and it is either the
    required message of a required rule whose cell has no text, or the type
    message of a Number, Boolean or Date rule whose cell has text that
    fails the rule's test. A String rule never gives a type error, and a
    type error always points at a cell the row has. *)
Theorem validateData_sound (rows : list RowData) (schema : list ColumnSchema)
  (e : ValidationError) :
  In e (validateData rows schema) ->
  exists (k : nat) (row : RowData) (rule : ColumnSchema),
    rowIndex e = Z.of_nat k /\ nth_error rows k = Some row /\ row <> []
    /\ In rule schema /\ colIndex e = index rule
    /\ let v := array_get row (index rule) in
       (cellText v = "" /\ required rule = true /\ message e = requiredMessage rule)
       \/ (cellText v <> ""
           /\ 0 <= index rule < Z.of_nat (List.length row)
           /\ match type rule with
              | NUMBER => isNaN_Number v = true /\ message e = numberMessage v
              | BOOLEAN =>
                  includes ["true"; "false"; "1"; "0"; "yes"; "no"]
                           (toLowerCase (cellText v)) = false
                  /\ message e = booleanMessage v
              | DATE => isNaN (Date_parse (cellText v)) = true /\ message e = dateMessage v
              | STRING => False
              end).
Proof.
  rewrite validateData_from. intros H.
  destruct (validateFrom_In schema rows 0 e H) as (k & row & Hrow & Hk & Hin).
  destruct (rowErrors_In schema row _ e Hin) as (Hne & rule & Hrule & He).
  destruct (ruleErrors_In row _ rule e He) as (_ & Hc).
  exists k, row, rule. rewrite Z.add_0_l in *.
  repeat (split; [assumption |]). cbv zeta.
  destruct (string_dec (cellText (array_get row (index rule))) "") as [Hempty | Htext].
  - left. rewrite (ruleErrors_empty_text row _ rule Hempty) in He.
    destruct (required rule); [| contradiction].
    destruct He as [<- | []]. repeat split; assumption.
  - right. split; [exact Htext |]. split.
    + unfold array_get in Htext.
      destruct (Z.ltb_spec (index rule) 0); [now contradiction Htext |].
      split; [assumption |].
      destruct (nth_error row (Z.to_nat (index rule))) eqn:E; [| now contradiction Htext].
      assert (Z.to_nat (index rule) < List.length row)%nat
        by (apply nth_error_Some; congruence).
      lia.
    + rewrite (ruleErrors_text row _ rule Htext) in He. cbv zeta in He.
      destruct (type rule).
      * contradiction.
      * destruct (isNaN_Number (array_get row (index rule))); [| contradiction].
        destruct He as [<- | []]. split; reflexivity.
      * destruct (includes _ _); [contradiction |].
        destruct He as [<- | []]. split; reflexivity.
      * destruct (isNaN _); [| contradiction].
        destruct He as [<- | []]. split; reflexivity.
Qed.

Lemma ruleErrors_same_cell (row row' : RowData) (i : Z) (rule : ColumnSchema) :
  array_get row (index rule) = array_get row' (index rule) ->
  ruleErrors row i rule = ruleErrors row' i rule.
Proof. intros E. unfold ruleErrors, rule_callback. now rewrite E. Qed.

Lemma flat_map_ext_in {A B : Type} (f g : A -> list B) (l : list A) :
  (forall a, In a l -> f a = g a) -> flat_map f l = flat_map g l.
Proof.
  intros H. induction l as [| a l IH]; [reflexivity |].
  cbn [flat_map]. rewrite (H a (or_introl eq_refl)), IH; [reflexivity |].
  intros b Hb. apply H. now right.
Qed.

(** The rows of two sheets agree on what the rules read. *)
Lemma validateFrom_same_cells (schema : list ColumnSchema) (rows rows' : list RowData)
  (from : Z) :
  Forall2 (fun row row' =>
             (row = [] <-> row' = [])
             /\ forall rule, In rule schema ->
                  array_get row (index rule) = array_get row' (index rule))
          rows rows' ->
  validateFrom from rows schema = validateFrom from rows' schema.
Proof.
  intros H. revert from. induction H as [| row row' rows rows' [Hnil Hcells] _ IH];
    intros from; [reflexivity |].
  rewrite !validateFrom_cons, IH. f_equal.
  rewrite !rowErrors_cases.
  assert (Hs : skipped schema row = skipped schema row').
  { destruct (skipped schema row) eqn:E, (skipped schema row') eqn:E'; try reflexivity.
    - apply skipped_true in E. destruct E as [E1 E2].
      assert (skipped schema row' = true)
        by (apply skipped_true; split; [apply Hnil |]; assumption).
      congruence.
    - apply skipped_true in E'. destruct E' as [E1 E2].
      assert (skipped schema row = true)
        by (apply skipped_true; split; [apply Hnil |]; assumption).
      congruence. }
  rewrite Hs. destruct (skipped schema row'); [reflexivity |].
  apply flat_map_ext_in. intros rule Hrule. apply ruleErrors_same_cell. now apply Hcells.
Qed.

(** X9. Only the cells that a rule names are read: two sheets whose rows
    agree on those cells, and on which rows have no cell at all, get the
    same errors, whatever their other columns hold. *)
Theorem validateData_reads_rule_cells (schema : list ColumnSchema)
  (rows rows' : list RowData) :
  Forall2 (fun row row' =>
             (row = [] <-> row' = [])
             /\ forall rule, In rule schema ->
                  array_get row (index rule) = array_get row' (index rule))
          rows rows' ->
  validateData rows schema = validateData rows' schema.
Proof. intros H. rewrite !validateData_from. now apply validateFrom_same_cells. Qed.

Lemma validateFrom_nil (schema : list ColumnSchema) (rows : list RowData) (from : Z) :
  (forall row, In row rows -> forall i, rowErrors schema row i = []) ->
  validateFrom from rows schema = [].
Proof.
  revert from. induction rows as [| row rows IH]; intros from H; [reflexivity |].
  rewrite validateFrom_cons, (H row (or_introl eq_refl)). cbn [app].
  apply IH. intros r Hr. apply H. now right.
Qed.

(** X10. Optional rules let empty cells pass, and String rules let every
    text pass: when each rule is optional and is a String rule or reads
    cells without text, nothing is reported. *)
Theorem validateData_optional (rows : list RowData) (schema : list ColumnSchema) :
  (forall row rule, In row rows -> In rule schema ->
     required rule = false
     /\ (type rule = STRING \/ cellText (array_get row (index rule)) = "")) ->
  validateData rows schema = [].
Proof.
  intros H. rewrite validateData_from. apply validateFrom_nil.
  intros row Hrow i.
  { rewrite rowErrors_cases. destruct (skipped schema row); [reflexivity |].
    rewrite (flat_map_ext_in (ruleErrors row i) (fun _ => [])).
    - clear. induction schema; [reflexivity | assumption].
    - intros rule Hrule. destruct (H row rule Hrow Hrule) as [Hreq Hcase].
      destruct (string_dec (cellText (array_get row (index rule))) "") as [He | Ht].
      + rewrite (ruleErrors_empty_text row i rule He), Hreq. reflexivity.
      + destruct Hcase as [Hty | He]; [| contradiction].
        rewrite (ruleErrors_text row i rule Ht), Hty. reflexivity. }
Qed.

Lemma trimStart_allWhiteSpace (s : string) : allWhiteSpace s = true -> trimStart s = "".
Proof.
  induction s as [| c s IH]; cbn [allWhiteSpace trimStart]; [reflexivity |].
  intros H. apply andb_true_iff in H. destruct H as [-> H]. now apply IH.
Qed.

(** X11. A cell that holds white space only counts as empty: a required
    rule reports it as missing, an optional rule reports nothing, whatever
    the type of the rule. *)
Theorem validateData_white_space (row : RowData) (rule : ColumnSchema) (s : string) :
  array_get row (index rule) = Some (CStr s) ->
  allWhiteSpace s = true ->
  validateData [row] [rule]
  = if required rule
    then [mkValidationError 0 (index rule)
            ("Column '" ++ name rule ++ "' is required but was empty.")%string]
    else [].
Proof.
  intros Hcell Hs.
  assert (Hne : row <> []).
  { intros ->. unfold array_get in Hcell.
    destruct (index rule <? 0); [discriminate |].
    destruct (Z.to_nat (index rule)); discriminate. }
  assert (Ht : cellText (array_get row (index rule)) = "").
  { rewrite Hcell. cbn [cellText ToString]. unfold trim.
    now rewrite (trimStart_allWhiteSpace s Hs). }
  rewrite validateData_from, validateFrom_cons, (rowErrors_flat_map [rule] row 0 Hne).
  cbn [flat_map]. rewrite (ruleErrors_empty_text row 0 rule Ht).
  destruct (required rule); reflexivity.
Qed.

(** X12. A cell that holds a boolean passes a String, a Number and a Boolean
    rule, required or not: its text is [true] or [false], and
    [Number(true)] and [Number(false)] are numbers. *)
Theorem boolean_cell_passes (row : RowData) (rule : ColumnSchema) (b : bool) :
  array_get row (index rule) = Some (CBool b) ->
  type rule <> DATE ->
  validateData [row] [rule] = [].
Proof.
  intros Hcell Hty.
  assert (Ht : cellText (array_get row (index rule)) <> "").
  { rewrite Hcell. destruct b; discriminate. }
  pose proof (cellText_nonempty_row row _ Ht) as Hne.
  rewrite validateData_from, validateFrom_cons, (rowErrors_flat_map [rule] row 0 Hne).
  cbn [flat_map]. rewrite (ruleErrors_text row 0 rule Ht). cbv zeta.
  rewrite Hcell. destruct (type rule); try reflexivity; [| contradiction].
  destruct b; reflexivity.
Qed.

Lemma skipped_Permutation (schema schema' : list ColumnSchema) (row : RowData) :
  Permutation schema schema' -> skipped schema row = skipped schema' row.
Proof.
  intros P. unfold skipped. now rewrite (Permutation_length P).
Qed.

(** X13. The order of the rules decides the order of the errors and nothing
    else: a schema with the same rules in another order gives the same
    errors, in another order. *)
Theorem validateData_Permutation (rows : list RowData) (schema schema' : list ColumnSchema) :
  Permutation schema schema' ->
  Permutation (validateData rows schema) (validateData rows schema').
Proof.
  intros P. rewrite !validateData_from. generalize 0.
  induction rows as [| row rows IH]; intros from; [constructor |].
  rewrite !validateFrom_cons. apply Permutation_app; [| apply IH].
  rewrite !rowErrors_cases, (skipped_Permutation schema schema' row P).
  destruct (skipped schema' row); [constructor |].
  now apply Permutation_flat_map.
Qed.

(** The errors of a schema are among those of any schema that has its
    rules. *)
Lemma validateData_incl (rows : list RowData) (schema schema' : list ColumnSchema)
  (e : ValidationError) :
  (forall rule, In rule schema' -> In rule schema) ->
  In e (validateData rows schema') -> In e (validateData rows schema).
Proof.
  intros Hincl H. rewrite validateData_from in H.
  destruct (validateFrom_In schema' rows 0 e H) as (k & row & Hrow & _ & Hin).
  destruct (rowErrors_In schema' row _ e Hin) as (Hne & rule & Hrule & He).
  rewrite Z.add_0_l in He.
  exact (validateData_reports rows schema k row rule e Hrow Hne (Hincl rule Hrule) He).
Qed.

(** Rules that differ in their names only. *)
Lemma ruleErrors_coordinates (row : RowData) (i : Z) (rule rule' : ColumnSchema) :
  index rule = index rule' -> type rule = type rule' -> required rule = required rule' ->
  map coordinates (ruleErrors row i rule) = map coordinates (ruleErrors row i rule').
Proof.
  intros Ei Et Er. unfold ruleErrors, rule_callback, push. cbv zeta.
  rewrite <- Ei, <- Et, <- Er.
  repeat match goal with
         | |- context [if ?b then _ else _] => destruct b
         | |- context [match type rule with _ => _ end] => destruct (type rule)
         end; reflexivity.
Qed.

Lemma validateFrom_coordinates (rows : list RowData) (schema schema' : list ColumnSchema)
  (from : Z) :
  Forall2 (fun rule rule' =>
             index rule = index rule' /\ type rule = type rule'
             /\ required rule = required rule') schema schema' ->
  map coordinates (validateFrom from rows schema)
  = map coordinates (validateFrom from rows schema').
Proof.
  intros F. revert from. induction rows as [| row rows IH]; intros from; [reflexivity |].
  rewrite !validateFrom_cons, !map_app, IH. f_equal.
  rewrite !rowErrors_cases.
  assert (Hs : skipped schema row = skipped schema' row).
  { unfold skipped. now rewrite (Forall2_length F). }
  rewrite Hs. destruct (skipped schema' row); [reflexivity |].
  clear Hs IH. induction F as [| rule rule' schema schema' (Ei & Et & Er) _ IH];
    [reflexivity |].
  cbn [flat_map]. rewrite !map_app, IH.
  now rewrite (ruleErrors_coordinates row from rule rule' Ei Et Er).
Qed.

End MoreValidation.

(** ** The rule editor, and what its edits do to the errors *)

Section MoreSchemaConfig.
Import Types JS Constants ExcelService SchemaConfig.
Context {host : JsHost}.
Local Open Scope string_scope.
Local Open Scope Z_scope.
Local Open Scope list_scope.

Lemma filter_from_all {A : Type} (keep : Z -> bool) (from : Z) (l : list A) :
  (forall k, from <= k < from + Z.of_nat (List.length l) -> keep k = true) ->
  filter_from keep from l = l.
Proof.
  revert from. induction l as [| a l IH]; intros from H; cbn [filter_from]; [reflexivity |].
  cbn [List.length] in H. rewrite (H from) by lia.
  f_equal. apply IH. intros k Hk. apply H. lia.
Qed.

Lemma filter_from_one {A : Type} (from k : Z) (l1 l2 : list A) (a : A) :
  k = from + Z.of_nat (List.length l1) ->
  filter_from (fun idx => negb (idx =? k)) from (l1 ++ a :: l2) = l1 ++ l2.
Proof.
  revert from. induction l1 as [| b l1 IH]; intros from Hk; cbn [app filter_from List.length] in *.
  - replace (from =? k) with true by (symmetry; apply Z.eqb_eq; lia). cbn [negb].
    apply filter_from_all. intros j Hj. apply negb_true_iff, Z.eqb_neq. lia.
  - replace (from =? k) with false by (symmetry; apply Z.eqb_neq; lia). cbn [negb].
    f_equal. apply IH. lia.
Qed.

Lemma filter_from_In {A : Type} (keep : Z -> bool) (from : Z) (l : list A) (a : A) :
  In a (filter_from keep from l) -> In a l.
Proof.
  revert from. induction l as [| b l IH]; intros from; cbn [filter_from]; [auto |].
  destruct (keep from); cbn [In]; intros H.
  - destruct H as [-> | H]; [now left | right; eapply IH; eassumption].
  - right. eapply IH; eassumption.
Qed.

(** X14. Removing a rule takes out the rule at that position and keeps the
    others in order; a position the schema does not have removes nothing;
    and removing the rule that was just added gives the schema back. *)
Theorem handleRemoveRule_position (schema : list ColumnSchema) :
  (forall s1 s2 rule,
     schema = s1 ++ rule :: s2 ->
     handleRemoveRule schema (Z.of_nat (List.length s1)) = s1 ++ s2)
  /\ (forall indexToRemove,
        indexToRemove < 0 \/ Z.of_nat (List.length schema) <= indexToRemove ->
        handleRemoveRule schema indexToRemove = schema)
  /\ handleRemoveRule (handleAddRule schema) (Z.of_nat (List.length schema)) = schema.
Proof.
  split; [| split].
  - intros s1 s2 rule ->. unfold handleRemoveRule. now apply filter_from_one.
  - intros k Hk. unfold handleRemoveRule. apply filter_from_all.
    intros j Hj. apply negb_true_iff, Z.eqb_neq. lia.
  - unfold handleRemoveRule, handleAddRule. cbv zeta.
    rewrite (filter_from_one 0 _ schema []) by lia. apply app_nil_r.
Qed.

Lemma iter_handleAddRule (n : nat) :
  Nat.iter n handleAddRule []
  = map (fun k => mkColumnSchema (Z.of_nat k) ("Column " ++ getColumnLabel (Z.of_nat k))
                                 STRING false)
        (seq 0 n).
Proof.
  induction n as [| n IH]; [reflexivity |].
  rewrite Nat.iter_succ, IH, seq_S, map_app. unfold handleAddRule. cbv zeta.
  now rewrite length_map, length_seq.
Qed.

(** X15. Rules added one after the other to an empty schema read the columns
    0, 1, 2, ... in order and are named [Column A], [Column B], ...: no two
    of them share a column or a name. *)
Theorem handleAddRule_from_empty (n : nat) :
  let schema := Nat.iter n handleAddRule [] in
  List.length schema = n
  /\ (forall k, (k < n)%nat ->
        nth_error schema k
        = Some (mkColumnSchema (Z.of_nat k) ("Column " ++ getColumnLabel (Z.of_nat k))
                               STRING false))
  /\ NoDup (map index schema)
  /\ NoDup (map name schema).
Proof.
  cbv zeta. rewrite iter_handleAddRule.
  split; [now rewrite length_map, length_seq |]. split; [| split].
  - intros k Hk.
    rewrite (map_nth_error _ k _ (d := k)); [reflexivity |].
    rewrite nth_error_seq. destruct (Nat.ltb_spec k n); [reflexivity | lia].
  - rewrite map_map. cbn [index].
    apply NoDup_map_NoDup_ForallPairs; [| apply seq_NoDup].
    intros a b _ _ E. lia.
  - rewrite map_map. cbn [name].
    apply NoDup_map_NoDup_ForallPairs; [| apply seq_NoDup].
    intros a b _ _ E. injection E as E.
    assert (Z.of_nat a = Z.of_nat b); [| lia].
    rewrite <- (decode_getColumnLabel (Z.of_nat a)), <- (decode_getColumnLabel (Z.of_nat b))
      by lia.
    now rewrite E.
Qed.

(** X16. A rule added by the editor is an optional String rule, so adding
    it changes no verdict: the errors of every sheet stay what they were. *)
Theorem handleAddRule_same_errors (rows : list RowData) (schema : list ColumnSchema) :
  validateData rows (handleAddRule schema) = validateData rows schema.
Proof.
  unfold handleAddRule. cbv zeta.
  set (rule := mkColumnSchema _ _ STRING false).
  assert (Hrule : forall row i, ruleErrors row i rule = []).
  { intros row i.
    destruct (string_dec (cellText (array_get row (index rule))) "") as [He | Ht].
    - now rewrite (ruleErrors_empty_text row i rule He).
    - now rewrite (ruleErrors_text row i rule Ht). }
  rewrite !validateData_from. generalize 0.
  induction rows as [| row rows IH]; intros from; [reflexivity |].
  rewrite !validateFrom_cons, IH. f_equal.
  rewrite !rowErrors_cases.
  destruct (skipped (schema ++ [rule]) row) eqn:E1, (skipped schema row) eqn:E2;
    try reflexivity.
  - apply skipped_true in E1. destruct E1 as [-> _].
    assert (schema = []).
    { destruct schema; [reflexivity |].
      assert (skipped (c :: schema) [] = true)
        by (apply skipped_true; split; [reflexivity | discriminate]).
      congruence. }
    subst schema. reflexivity.
  - apply skipped_true in E2. destruct E2 as [-> Hs].
    assert (skipped (schema ++ [rule]) [] = true); [| congruence].
    apply skipped_true. split; [reflexivity |]. now destruct schema.
  - rewrite flat_map_app. cbn [flat_map]. now rewrite Hrule, !app_nil_r.
Qed.

(** X17. Removing a rule can only take errors away: whatever is reported
    after the removal was reported before it. *)
Theorem handleRemoveRule_fewer_errors (rows : list RowData) (schema : list ColumnSchema)
  (indexToRemove : Z) (e : ValidationError) :
  In e (validateData rows (handleRemoveRule schema indexToRemove)) ->
  In e (validateData rows schema).
Proof.
  apply validateData_incl. intros rule. unfold handleRemoveRule. apply filter_from_In.
Qed.

Lemma assign_from_length (from index : Z) (updates : Updates) (schema : list ColumnSchema) :
  List.length (assign_from from index updates schema) = List.length schema.
Proof.
  revert from. induction schema as [| rule schema IH]; intros from; cbn [assign_from List.length].
  - reflexivity.
  - now rewrite IH.
Qed.

Lemma assign_from_nth (from index : Z) (updates : Updates) (schema : list ColumnSchema)
  (k : nat) :
  nth_error (assign_from from index updates schema) k
  = option_map (fun rule => if from + Z.of_nat k =? index then spread rule updates else rule)
               (nth_error schema k).
Proof.
  revert from k. induction schema as [| rule schema IH]; intros from k; cbn [assign_from].
  - destruct k; reflexivity.
  - destruct k as [| k]; cbn [nth_error option_map].
    + now rewrite Z.add_0_r.
    + rewrite IH. destruct (nth_error schema k); cbn [option_map]; [| reflexivity].
      replace (from + 1 + Z.of_nat k) with (from + Z.of_nat (S k)) by lia. reflexivity.
Qed.

(** X18. An update at a position of the schema keeps the number of rules,
    replaces the rule at that position by the rule with the updated fields,
    and leaves every other rule as it was. *)
Theorem updateRule_position (schema : list ColumnSchema) (index : Z) (updates : Updates) :
  index < Z.of_nat (List.length schema) ->
  exists newSchema,
    updateRule schema index updates = Some newSchema
    /\ List.length newSchema = List.length schema
    /\ forall k rule,
         nth_error schema k = Some rule ->
         nth_error newSchema k
         = Some (if Z.of_nat k =? index then spread rule updates else rule).
Proof.
  intros Hi. unfold updateRule.
  destruct (Z.leb_spec (Z.of_nat (List.length schema)) index); [lia |].
  eexists. split; [reflexivity |]. split; [apply assign_from_length |].
  intros k rule Hk. rewrite assign_from_nth, Hk. reflexivity.
Qed.

Lemma assign_from_rename (from index : Z) (newName : string) (schema : list ColumnSchema) :
  Forall2 (fun rule rule' =>
             Types.index rule = Types.index rule' /\ type rule = type rule'
             /\ required rule = required rule')
          (assign_from from index (mkUpdates None (Some newName) None None) schema)
          schema.
Proof.
  revert from. induction schema as [| rule schema IH]; intros from; cbn [assign_from];
    constructor; [| apply IH].
  destruct (from =? index); repeat split; reflexivity.
Qed.

(** X19. Renaming a column moves no error: after an update of the name
    alone, the same cells are reported, in the same order. *)
Theorem updateRule_rename_same_cells (rows : list RowData) (schema newSchema : list ColumnSchema)
  (index : Z) (newName : string) :
  updateRule schema index (mkUpdates None (Some newName) None None) = Some newSchema ->
  map coordinates (validateData rows newSchema)
  = map coordinates (validateData rows schema).
Proof.
  unfold updateRule. destruct (_ <=? _); [discriminate |]. intros [= <-].
  rewrite !validateData_from. apply validateFrom_coordinates, assign_from_rename.
Qed.

End MoreSchemaConfig.

(** ** The table: its columns, and which errors it can show *)

Section MoreGrid.
Import Types JS Constants ExcelService Grid.
Context {host : JsHost}.
Local Open Scope string_scope.
Local Open Scope Z_scope.
Local Open Scope list_scope.

Lemma fold_left_max_spec (l : list Z) (a : Z) :
  a <= fold_left Z.max l a
  /\ (forall x, In x l -> x <= fold_left Z.max l a)
  /\ (fold_left Z.max l a = a \/ In (fold_left Z.max l a) l).
Proof.
  revert a. induction l as [| x l IH]; intros a; cbn [fold_left In].
  - split; [lia |]. split; [intros x [] | now left].
  - destruct (IH (Z.max a x)) as (H1 & H2 & H3).
    split; [lia |]. split.
    + intros y [<- | Hy]; [lia | now apply H2].
    + destruct H3 as [E | Hin]; [| right; now right].
      rewrite E. destruct (Z.max_spec a x) as [[_ ->] | [_ ->]]; [right; now left | now left].
Qed.

Lemma maxCols_spec (data : list RowData) :
  10 <= maxCols data
  /\ (forall row, In row data -> Z.of_nat (List.length row) <= maxCols data)
  /\ (maxCols data = 10
      \/ exists row, In row data /\ maxCols data = Z.of_nat (List.length row)).
Proof.
  unfold maxCols.
  destruct (fold_left_max_spec (map (fun r : RowData => Z.of_nat (List.length r)) data) 10)
    as (H1 & H2 & H3).
  split; [exact H1 |]. split.
  - intros row Hrow. apply H2. now apply (in_map (fun r : RowData => Z.of_nat (List.length r))).
  - destruct H3 as [E | Hin]; [now left | right].
    apply in_map_iff in Hin. destruct Hin as (row & E & Hrow). now exists row.
Qed.

Lemma colIndices_In (data : list RowData) (k : Z) :
  In k (colIndices data) <-> 0 <= k < maxCols data.
Proof.
  unfold colIndices. rewrite in_map_iff. split.
  - intros (n & <- & Hn). apply in_seq in Hn. lia.
  - intros Hk. exists (Z.to_nat k). split; [lia |]. apply in_seq. lia.
Qed.

(** X20. The table has ten columns or as many as its longest row, whichever
    is more, numbered from 0: every cell of every row has its column, and
    a sheet with short rows still shows ten. *)
Theorem maxCols_covers (data : list RowData) :
  10 <= maxCols data
  /\ (maxCols data = 10
      \/ exists row, In row data /\ maxCols data = Z.of_nat (List.length row))
  /\ (forall k, In k (colIndices data) <-> 0 <= k < maxCols data)
  /\ (forall row k, In row data -> 0 <= k < Z.of_nat (List.length row) ->
        In k (colIndices data)).
Proof.
  destruct (maxCols_spec data) as (H1 & H2 & H3).
  split; [exact H1 |]. split; [exact H3 |]. split; [apply colIndices_In |].
  intros row k Hrow Hk. apply colIndices_In. specialize (H2 row Hrow). lia.
Qed.

Lemma getColumnLabel_inj (i j : Z) :
  0 <= i -> 0 <= j -> getColumnLabel i = getColumnLabel j -> i = j.
Proof.
  intros Hi Hj E.
  rewrite <- (decode_getColumnLabel i Hi), <- (decode_getColumnLabel j Hj).
  now rewrite E.
Qed.

(** X21. The header shows one label for each column, the label of its
    index, starting with A to J, and no two columns share a label. *)
Theorem headerLabels_distinct (data : list RowData) :
  List.length (headerLabels data) = Z.to_nat (maxCols data)
  /\ (forall k, (k < Z.to_nat (maxCols data))%nat ->
        nth_error (headerLabels data) k = Some (getColumnLabel (Z.of_nat k)))
  /\ NoDup (headerLabels data)
  /\ firstn 10 (headerLabels data) = ["A"; "B"; "C"; "D"; "E"; "F"; "G"; "H"; "I"; "J"].
Proof.
  unfold headerLabels, colIndices.
  split; [now rewrite !length_map, length_seq |]. split; [| split].
  - intros k Hk.
    rewrite (map_nth_error getColumnLabel k _ (d := Z.of_nat k)); [reflexivity |].
    rewrite (map_nth_error Z.of_nat k _ (d := k)); [reflexivity |].
    rewrite nth_error_seq. destruct (Nat.ltb_spec k (Z.to_nat (maxCols data))); [reflexivity | lia].
  - apply NoDup_map_NoDup_ForallPairs.
    + intros a b Ha Hb E. apply in_map_iff in Ha, Hb.
      destruct Ha as (n & <- & _), Hb as (m & <- & _).
      apply getColumnLabel_inj; [lia | lia | exact E].
    + apply NoDup_map_NoDup_ForallPairs; [| apply seq_NoDup].
      intros a b _ _ E. lia.
  - destruct (maxCols_spec data) as (H1 & _).
    replace (Z.to_nat (maxCols data)) with (10 + (Z.to_nat (maxCols data) - 10))%nat by lia.
    rewrite seq_app, !map_app, firstn_app.
    rewrite !length_map, length_seq, Nat.sub_diag. cbn [firstn].
    rewrite app_nil_r. vm_compute. reflexivity.
Qed.


Lemma getError_In (errors : list ValidationError) (e : ValidationError) :
  In e errors -> isErrorCell errors (rowIndex e) (colIndex e) = true.
Proof.
  intros H. unfold isErrorCell.
  destruct (getError_present errors e H) as (e' & ->). reflexivity.
Qed.


(** X23. When several errors lie on one cell, the lookup returns the one
    reported first: no earlier error of the list is on that cell. *)
Theorem getError_first (errors : list ValidationError) (r c : Z) (e : ValidationError) :
  getError errors r c = Some e ->
  exists p, nth_error errors p = Some e
            /\ rowIndex e = r /\ colIndex e = c
            /\ forall q e', (q < p)%nat -> nth_error errors q = Some e' ->
                            ~ (rowIndex e' = r /\ colIndex e' = c).
Proof.
  unfold getError. induction errors as [| a errors IH]; cbn [find]; [discriminate |].
  destruct ((rowIndex a =? r) && (colIndex a =? c)) eqn:E.
  - intros [= <-]. exists 0%nat. apply andb_true_iff in E. destruct E as [E1 E2].
    apply Z.eqb_eq in E1, E2. repeat split; auto. intros q e' Hq. lia.
  - intros H. destruct (IH H) as (p & Hp & Hr & Hc & Hfirst).
    exists (S p). repeat split; auto.
    intros [| q] e' Hq Hn; cbn [nth_error] in Hn.
    + injection Hn as <-. intros [E1 E2]. apply andb_false_iff in E.
      destruct E as [E | E]; apply Z.eqb_neq in E; contradiction.
    + apply (Hfirst q e'); [lia | exact Hn].
Qed.

(** X24. A cell the table shows as [(empty)] is empty for the validator as
    well: a rule that reads it reports the required error when it is
    required, and nothing otherwise, whatever its type. *)
Theorem blank_cell_is_empty (row : RowData) (rule : ColumnSchema) :
  row <> [] ->
  isBlank (array_get row (index rule)) = true ->
  cellContent (array_get row (index rule)) = "(empty)"
  /\ validateData [row] [rule]
     = if required rule
       then [mkValidationError 0 (index rule)
               ("Column '" ++ name rule ++ "' is required but was empty.")%string]
       else [].
Proof.
  intros Hne Hb. split; [unfold cellContent; now rewrite Hb |].
  assert (Ht : cellText (array_get row (index rule)) = "").
  { destruct (array_get row (index rule)) as [[s | n | b |] |]; try discriminate;
      try reflexivity.
    cbn [isBlank] in Hb. apply String.eqb_eq in Hb. subst s. reflexivity. }
  rewrite validateData_from, validateFrom_cons, (rowErrors_flat_map [rule] row 0 Hne).
  cbn [flat_map]. rewrite (ruleErrors_empty_text row 0 rule Ht).
  destruct (required rule); reflexivity.
Qed.

End MoreGrid.

(** ** The page: what its handlers keep true *)

Section MoreApp.
Import Types JS Constants ExcelService Grid App.
Context {host : JsHost}.
Local Open Scope Z_scope.
Local Open Scope list_scope.

Lemma isErrorCell_find (errors : list ValidationError) (r c : Z) :
  isErrorCell errors r c
  = match find (fun e => (rowIndex e =? r) && (colIndex e =? c)) errors with
    | Some _ => true
    | None => false
    end.
Proof. reflexivity. Qed.

Lemma validateEffect_consistent (st : State) : consistent (validateEffect st).
Proof.
  unfold consistent, validateEffect. cbv zeta.
  destruct (activeError st) as [a |] eqn:Ea.
  - destruct (find _ (validateData (data st) (schema st))) as [e |] eqn:Ef;
      cbn [errors data schema activeError setErrors setActiveError].
    + split; [reflexivity |]. intros a' Ha'. rewrite Ea in Ha'. injection Ha' as <-.
      rewrite isErrorCell_find, Ef. reflexivity.
    + split; [reflexivity |]. discriminate.
  - cbn [errors data schema activeError setErrors]. rewrite Ea.
    split; [reflexivity |]. discriminate.
Qed.

Lemma onCellClick_consistent (r c : Z) (st : State) :
  consistent st -> consistent (onCellClick r c st).
Proof.
  intros [He Ha]. unfold consistent, onCellClick. cbv zeta.
  destruct (match activeError st with
            | Some a => (rowIndex a =? r) && (colIndex a =? c)
            | None => false
            end).
  - cbn [errors data schema activeError setActiveError]. split; [exact He |]. discriminate.
  - destruct (find _ (errors st)) as [e |] eqn:Ef.
    + cbn [errors data schema activeError setActiveError]. split; [exact He |].
      intros a [= <-]. apply getError_In.
      exact (proj1 (find_some _ _ Ef)).
    + split; assumption.
Qed.

Lemma onCloseError_consistent (st : State) : consistent st -> consistent (onCloseError st).
Proof.
  intros [He _]. unfold consistent, onCloseError.
  cbn [errors data schema activeError setActiveError]. split; [exact He |]. discriminate.
Qed.

(** X25. The errors on the page are always those of the data and the
    schema on the page, and the error torn open, when there is one, is at
    a cell that still has an error: the effect establishes this from any
    state, the first render included, and every handler keeps it. *)
Theorem handlers_keep_consistent :
  consistent initialState
  /\ (forall st, consistent (validateEffect st))
  /\ (forall st parsed, consistent st -> consistent (handleFileUpload parsed st))
  /\ (forall st newSchema, consistent (changeSchema newSchema st))
  /\ (forall st r c, consistent st -> consistent (onCellClick r c st))
  /\ (forall st, consistent st -> consistent (onCloseError st))
  /\ (forall st r c, consistent st ->
        consistent (cell_onClick (errors st) onCellClick onCloseError r c st)).
Proof.
  split; [apply validateEffect_consistent |].
  split; [apply validateEffect_consistent |].
  split.
  { intros st [parsedData |] H; cbn [handleFileUpload];
      [apply validateEffect_consistent | exact H]. }
  split; [intros; apply validateEffect_consistent |].
  split; [intros; now apply onCellClick_consistent |].
  split; [intros; now apply onCloseError_consistent |].
  intros st r c H. unfold cell_onClick.
  destruct (isErrorCell (errors st) r c);
    [now apply onCellClick_consistent | now apply onCloseError_consistent].
Qed.

(** X26. A click on a cell that has an error toggles its reveal: it opens
    the first error reported for the cell when the cell is not the one torn
    open, and closes the reveal when it is. The data, the schema and the
    errors are not touched. *)
Theorem onCellClick_toggles (st : State) (r c : Z) :
  isErrorCell (errors st) r c = true ->
  let st' := onCellClick r c st in
  isSelected (activeError st') r c = negb (isSelected (activeError st) r c)
  /\ (isSelected (activeError st) r c = false ->
      activeError st' = getError (errors st) r c)
  /\ (isSelected (activeError st) r c = true -> activeError st' = None)
  /\ data st' = data st /\ schema st' = schema st /\ errors st' = errors st.
Proof.
  intros Herr. cbv zeta. unfold onCellClick, isSelected. cbv zeta.
  rewrite isErrorCell_find in Herr.
  destruct (match activeError st with
            | Some a => (rowIndex a =? r) && (colIndex a =? c)
            | None => false
            end) eqn:Esel.
  - cbn [activeError setActiveError data schema errors].
    repeat split; try reflexivity; discriminate.
  - unfold getError.
    destruct (find _ (errors st)) as [e |] eqn:Ef; [| discriminate].
    cbn [activeError setActiveError data schema errors].
    destruct (find_some _ _ Ef) as [_ Hcell]. rewrite Hcell.
    repeat split; try reflexivity; discriminate.
Qed.

(** X27. Exactly one row of the table is torn open when an error is
    active: the row of that error, which is a row of the data. *)
Theorem reveal_row (st : State) (a : ValidationError) :
  consistent st ->
  activeError st = Some a ->
  0 <= rowIndex a < Z.of_nat (List.length (data st))
  /\ forall rowIndex, isRowExpanded (activeError st) rowIndex = true
                      <-> rowIndex = Types.rowIndex a.
Proof.
  intros [He Ha] Hact. split.
  - specialize (Ha a Hact). rewrite isErrorCell_find in Ha.
    destruct (find _ (errors st)) as [e |] eqn:Ef; [| discriminate].
    destruct (find_some _ _ Ef) as [Hin Hcell].
    apply andb_true_iff in Hcell. destruct Hcell as [Hr _]. apply Z.eqb_eq in Hr.
    rewrite He, validateData_from in Hin.
    pose proof (validateFrom_rowIndex (schema st) (data st) 0 e Hin). lia.
  - intros k. rewrite Hact. cbn [isRowExpanded]. rewrite Z.eqb_eq. split; congruence.
Qed.

(** X28. The summary in the header tells what the validator finds: in a
    consistent state it reads "All Data Valid" exactly when the data has no
    error under the schema, and otherwise counts the errors of the data. *)
Theorem issuesFound_counts (st : State) :
  consistent st ->
  (issuesFound st = None <-> validateData (data st) (schema st) = [])
  /\ forall n, issuesFound st = Some n ->
               n = List.length (validateData (data st) (schema st)) /\ (0 < n)%nat.
Proof.
  intros [He _]. unfold issuesFound. rewrite He.
  destruct (validateData (data st) (schema st)) as [| e l]; cbn [List.length].
  - split; [split; reflexivity | discriminate].
  - destruct (Z.ltb_spec 0 (Z.of_nat (S (List.length l)))); [| lia].
    split; [split; discriminate |]. intros n [= <-]. split; [reflexivity | lia].
Qed.

End MoreApp.

(** ** The tear: where the sampled points lie *)

Section MoreTear.
Import JS TearEffect.
Context {host : JsHost}.
Local Open Scope string_scope.
Local Open Scope Z_scope.

(** X29. The sampled points are evenly spaced: whatever the offsets are, the
    vertex of index [i] of both clip paths is written at [x = 1.25 * i]
    percent, from [0.00] for the first to [100.00] for the last. *)
Theorem sample_positions (random : nat -> float) (i : nat) :
  (i <= pointsCount)%nat ->
  toFixed2 (xOf (tearPoints random) (Z.of_nat i)) = decimal2 (125 * Z.of_nat i).
Proof.
  intros Hi. unfold xOf. rewrite tearPoints_length.
  assert (H : forallb (fun i =>
                         String.eqb
                           (toFixed2 (floatOfZ (Z.of_nat i)
                                      / (floatOfZ (Z.of_nat 81) - 1) * 100)%float)
                           (decimal2 (125 * Z.of_nat i)))
                      (seq 0 81) = true)
    by (vm_compute; reflexivity).
  rewrite forallb_forall in H. apply String.eqb_eq, H, in_seq.
  unfold pointsCount in Hi. lia.
Qed.

End MoreTear.

(** ** The properties above, on the sample sheet and the sample host *)

Section MoreExamples.
Import Types JS Constants ExcelService Grid SchemaConfig App TearEffect Sample.
Local Open Scope string_scope.
Local Open Scope Z_scope.
Local Open Scope list_scope.

Lemma validateData_sound_witness :
  let e := mkValidationError 1 2 "Expected a Number, got 'InvalidAge'." in
  In e (validateData INITIAL_DATA INITIAL_SCHEMA)
  /\ exists (k : nat) (row : RowData) (rule : ColumnSchema),
       rowIndex e = Z.of_nat k /\ nth_error INITIAL_DATA k = Some row /\ row <> []
       /\ In rule INITIAL_SCHEMA /\ colIndex e = index rule
       /\ let v := array_get row (index rule) in
          (cellText v = "" /\ required rule = true /\ message e = requiredMessage rule)
          \/ (cellText v <> ""
              /\ 0 <= index rule < Z.of_nat (List.length row)
              /\ match type rule with
                 | NUMBER => isNaN_Number v = true /\ message e = numberMessage v
                 | BOOLEAN =>
                     includes ["true"; "false"; "1"; "0"; "yes"; "no"]
                              (toLowerCase (cellText v)) = false
                     /\ message e = booleanMessage v
                 | DATE => isNaN (Date_parse (cellText v)) = true
                           /\ message e = dateMessage v
                 | STRING => False
                 end).
Proof.
  cbv zeta.
  assert (H : In (mkValidationError 1 2 "Expected a Number, got 'InvalidAge'.")
                 (validateData INITIAL_DATA INITIAL_SCHEMA))
    by (vm_compute; left; reflexivity).
  split; [exact H |].
  exact (validateData_sound (host := sampleHost) INITIAL_DATA INITIAL_SCHEMA _ H).
Defined.

Lemma validateData_reads_rule_cells_witness :
  let rows := [[CNum 1; CStr "kept"]] in
  let rows' := [[CNum 1; CStr "changed"; CBool true]] in
  let schema := [mkColumnSchema 0 "ID" NUMBER true] in
  Forall2 (fun row row' =>
             (row = [] <-> row' = [])
             /\ forall rule, In rule schema ->
                  array_get row (index rule) = array_get row' (index rule))
          rows rows'
  /\ validateData rows schema = validateData rows' schema.
Proof.
  cbv zeta.
  assert (H : Forall2 (fun row row' : RowData =>
                         (row = [] <-> row' = [])
                         /\ forall rule, In rule [mkColumnSchema 0 "ID" NUMBER true] ->
                              array_get row (index rule) = array_get row' (index rule))
                      [[CNum 1; CStr "kept"]] [[CNum 1; CStr "changed"; CBool true]]).
  { constructor; [| constructor]. split.
    - split; discriminate.
    - intros rule [<- | []]. reflexivity. }
  split; [exact H |].
  exact (validateData_reads_rule_cells (host := sampleHost) _ _ _ H).
Defined.

Lemma validateData_optional_witness :
  let rows := [[CStr "any text"; CStr "  "]; []] in
  let schema := [mkColumnSchema 0 "Note" STRING false;
                 mkColumnSchema 1 "Age" NUMBER false;
                 mkColumnSchema 7 "Joined" DATE false] in
  (forall row rule, In row rows -> In rule schema ->
     required rule = false
     /\ (type rule = STRING \/ cellText (array_get row (index rule)) = ""))
  /\ validateData rows schema = [].
Proof.
  cbv zeta.
  assert (H : forall row rule,
             In row [[CStr "any text"; CStr "  "]; []] ->
             In rule [mkColumnSchema 0 "Note" STRING false;
                      mkColumnSchema 1 "Age" NUMBER false;
                      mkColumnSchema 7 "Joined" DATE false] ->
             required rule = false
             /\ (type rule = STRING \/ cellText (array_get row (index rule)) = "")).
  { intros row rule [<- | [<- | []]] [<- | [<- | [<- | []]]];
      (split; [reflexivity |]); (left; reflexivity) || (right; reflexivity). }
  split; [exact H |].
  exact (validateData_optional (host := sampleHost) _ _ H).
Defined.

Lemma validateData_white_space_witness :
  let row := [CNum 7; CStr "   "] in
  let rule := mkColumnSchema 1 "Name" STRING true in
  array_get row (index rule) = Some (CStr "   ")
  /\ allWhiteSpace "   " = true
  /\ validateData [row] [rule]
     = if required rule
       then [mkValidationError 0 (index rule)
               ("Column '" ++ name rule ++ "' is required but was empty.")%string]
       else [].
Proof.
  cbv zeta. split; [reflexivity |]. split; [reflexivity |].
  apply (validateData_white_space (host := sampleHost)
           [CNum 7; CStr "   "] (mkColumnSchema 1 "Name" STRING true) "   ");
    reflexivity.
Defined.

Lemma boolean_cell_passes_witness :
  let row := [CNum 101; CStr "Alice Johnson"; CNum 28; CBool true] in
  let rule := mkColumnSchema 3 "Is Active" NUMBER true in
  array_get row (index rule) = Some (CBool true)
  /\ type rule <> DATE
  /\ validateData [row] [rule] = [].
Proof.
  cbv zeta. split; [reflexivity |]. split; [discriminate |].
  apply (boolean_cell_passes (host := sampleHost)
           [CNum 101; CStr "Alice Johnson"; CNum 28; CBool true]
           (mkColumnSchema 3 "Is Active" NUMBER true) true);
    [reflexivity | discriminate].
Defined.

Lemma validateData_Permutation_witness :
  Permutation INITIAL_SCHEMA (rev INITIAL_SCHEMA)
  /\ Permutation (validateData INITIAL_DATA INITIAL_SCHEMA)
                 (validateData INITIAL_DATA (rev INITIAL_SCHEMA)).
Proof.
  split; [apply Permutation_rev |].
  apply (validateData_Permutation (host := sampleHost)). apply Permutation_rev.
Defined.

Lemma handleRemoveRule_fewer_errors_witness :
  let e := mkValidationError 1 2 "Expected a Number, got 'InvalidAge'." in
  In e (validateData INITIAL_DATA (handleRemoveRule INITIAL_SCHEMA 1))
  /\ In e (validateData INITIAL_DATA INITIAL_SCHEMA).
Proof.
  cbv zeta.
  assert (H : In (mkValidationError 1 2 "Expected a Number, got 'InvalidAge'.")
                 (validateData INITIAL_DATA (handleRemoveRule INITIAL_SCHEMA 1)))
    by (vm_compute; left; reflexivity).
  split; [exact H |].
  exact (handleRemoveRule_fewer_errors (host := sampleHost) _ _ _ _ H).
Defined.

Lemma updateRule_position_witness :
  let updates := mkUpdates None None (Some BOOLEAN) (Some true) in
  2 < Z.of_nat (List.length INITIAL_SCHEMA)
  /\ exists newSchema,
       updateRule INITIAL_SCHEMA 2 updates = Some newSchema
       /\ List.length newSchema = List.length INITIAL_SCHEMA
       /\ forall k rule,
            nth_error INITIAL_SCHEMA k = Some rule ->
            nth_error newSchema k
            = Some (if Z.of_nat k =? 2 then spread rule updates else rule).
Proof.
  cbv zeta. split; [reflexivity |].
  apply (updateRule_position INITIAL_SCHEMA 2). reflexivity.
Defined.

Lemma updateRule_rename_same_cells_witness :
  let newSchema :=
    [ mkColumnSchema 0 "ID" NUMBER true;
      mkColumnSchema 1 "Full name" STRING true;
      mkColumnSchema 2 "Age" NUMBER false;
      mkColumnSchema 3 "Is Active" BOOLEAN true;
      mkColumnSchema 4 "Join Date" DATE false ] in
  updateRule INITIAL_SCHEMA 1 (mkUpdates None (Some "Full name") None None)
  = Some newSchema
  /\ map coordinates (validateData INITIAL_DATA newSchema)
     = map coordinates (validateData INITIAL_DATA INITIAL_SCHEMA).
Proof.
  cbv zeta. split; [reflexivity |].
  apply (updateRule_rename_same_cells (host := sampleHost) INITIAL_DATA INITIAL_SCHEMA
           _ 1 "Full name").
  reflexivity.
Defined.


Lemma getError_first_witness :
  let first := mkValidationError 0 1 "Expected a Number, got 'x'." in
  let errors := [first; mkValidationError 0 1 "Expected a valid Date, got 'x'."] in
  getError errors 0 1 = Some first
  /\ exists p, nth_error errors p = Some first
               /\ rowIndex first = 0 /\ colIndex first = 1
               /\ forall q e', (q < p)%nat -> nth_error errors q = Some e' ->
                               ~ (rowIndex e' = 0 /\ colIndex e' = 1).
Proof.
  cbv zeta. split; [reflexivity |].
  apply (getError_first _ 0 1). reflexivity.
Defined.

Lemma blank_cell_is_empty_witness :
  let row := [CNum 103; CStr ""; CNum 35] in
  let rule := mkColumnSchema 1 "Name" STRING true in
  row <> []
  /\ isBlank (array_get row (index rule)) = true
  /\ cellContent (array_get row (index rule)) = "(empty)"
  /\ validateData [row] [rule]
     = if required rule
       then [mkValidationError 0 (index rule)
               ("Column '" ++ name rule ++ "' is required but was empty.")%string]
       else [].
Proof.
  cbv zeta. split; [discriminate |]. split; [reflexivity |].
  apply (blank_cell_is_empty (host := sampleHost)
           [CNum 103; CStr ""; CNum 35] (mkColumnSchema 1 "Name" STRING true));
    [discriminate | reflexivity].
Defined.

Lemma onCellClick_toggles_witness :
  let st := initialState in
  isErrorCell (errors st) 1 2 = true
  /\ let st' := onCellClick 1 2 st in
     isSelected (activeError st') 1 2 = negb (isSelected (activeError st) 1 2)
     /\ (isSelected (activeError st) 1 2 = false ->
         activeError st' = getError (errors st) 1 2)
     /\ (isSelected (activeError st) 1 2 = true -> activeError st' = None)
     /\ data st' = data st /\ schema st' = schema st /\ errors st' = errors st.
Proof.
  cbv zeta.
  assert (H : isErrorCell (errors (initialState (host := sampleHost))) 1 2 = true)
    by (vm_compute; reflexivity).
  split; [exact H |].
  exact (onCellClick_toggles (initialState (host := sampleHost)) 1 2 H).
Defined.

Lemma reveal_row_witness :
  let st := onCellClick 1 2 initialState in
  let a := mkValidationError 1 2 "Expected a Number, got 'InvalidAge'." in
  consistent st
  /\ activeError st = Some a
  /\ 0 <= rowIndex a < Z.of_nat (List.length (data st))
  /\ forall rowIndex, isRowExpanded (activeError st) rowIndex = true
                      <-> rowIndex = Types.rowIndex a.
Proof.
  cbv zeta.
  assert (Hc : consistent (onCellClick 1 2 (initialState (host := sampleHost))))
    by (apply onCellClick_consistent, validateEffect_consistent).
  assert (Ha : activeError (onCellClick 1 2 (initialState (host := sampleHost)))
               = Some (mkValidationError 1 2 "Expected a Number, got 'InvalidAge'."))
    by (vm_compute; reflexivity).
  split; [exact Hc |]. split; [exact Ha |].
  exact (reveal_row _ _ Hc Ha).
Defined.

Lemma issuesFound_counts_witness :
  let st := initialState in
  consistent st
  /\ (issuesFound st = None <-> validateData (data st) (schema st) = [])
  /\ forall n, issuesFound st = Some n ->
               n = List.length (validateData (data st) (schema st)) /\ (0 < n)%nat.
Proof.
  cbv zeta.
  assert (Hc : consistent (initialState (host := sampleHost)))
    by apply validateEffect_consistent.
  split; [exact Hc |].
  exact (issuesFound_counts _ Hc).
Defined.

Lemma sample_positions_witness :
  (80 <= pointsCount)%nat
  /\ toFixed2 (xOf (tearPoints (fun _ => 0.5%float)) (Z.of_nat 80))
     = decimal2 (125 * Z.of_nat 80).
Proof.
  split; [apply Nat.le_refl |].
  apply (sample_positions (host := sampleHost) (fun _ => 0.5%float) 80).
  apply Nat.le_refl.
Defined.

End MoreExamples.
